(** * Seismos: the sensor-signal synthesis and structural-inference core

    A shallow embedding of the damage ledger and INSD consensus detector
    (lib/store.ts), the reading synthesizer and earthquake engine
    (lib/simulator/index.ts), the baseline/fatigue tracker
    (lib/damage-score/baseline-tracker.ts) and the dashboard's trigger
    command (components/dashboard/DashboardPanel.tsx).

    Conventions of the embedding:
    - a JavaScript [number] that only ever holds an integer score or a
      millisecond timestamp is a [Z]; every other [number] is an exact
      rational [Q] (IEEE rounding of doubles is idealised away);
    - [Math.sqrt], [Math.exp] and [Math.sin] are parameters of the
      definitions that call them;
    - the values returned by [Math.random()] inside one call are given by
      a stream [rnd : nat -> Q], read in call order; [Date.now()] is an
      explicit argument [now];
    - a JavaScript [Map] is a [gmap]; [forEach] visits the entries in the
      order of [map_to_list]. *)

From Stdlib Require Import ZArith QArith Qround Qabs Lia Lqa.
From stdpp Require Import gmap strings list fin_maps.
From stdpp Require Import pretty.

Open Scope Z_scope.

(** ** JavaScript helpers *)
Module JS.

(** [x < y] and [x > y] on numbers, as booleans. *)
Definition ltb (x y : Q) : bool := negb (Qle_bool y x).
Definition gtb (x y : Q) : bool := ltb y x.

(** [Math.floor] and [Math.round] (halves round towards +infinity). *)
Definition floor (x : Q) : Z := Qfloor x.
Definition round (x : Q) : Z := Qfloor (x + (1 # 2)).

(** [Math.max] and [Math.min] on rationals. *)
Definition max (x y : Q) : Q := if Qle_bool x y then y else x.
Definition min (x y : Q) : Q := if Qle_bool x y then x else y.

(** [map.forEach((v, k) => body)]: the body is run on every entry, the
    mutated locals being threaded through as [acc]. *)
Definition forEach {V Acc : Type} (m : gmap string V)
    (body : Acc -> string -> V -> Acc) (acc : Acc) : Acc :=
  fold_left (fun a kv => body a (fst kv) (snd kv)) (map_to_list m) acc.

(** [array.forEach((x, index) => body)]. *)
Fixpoint forEachIdx {A Acc : Type} (body : Acc -> A -> nat -> Acc)
    (l : list A) (index : nat) (acc : Acc) : Acc :=
  match l with
  | [] => acc
  | x :: l' => forEachIdx body l' (S index) (body acc x index)
  end.

(** [new Map(pairs)]: entries are set from left to right, a later pair
    overrides an earlier one with the same key. *)
Definition newMap {V : Type} (pairs : list (string * V)) : gmap string V :=
  fold_left (fun m kv => <[fst kv := snd kv]> m) pairs ∅.

(** The contract of [Math.random()]: every draw lies in [0, 1). *)
Definition random_ok (rnd : nat -> Q) : Prop :=
  forall i, (0 <= rnd i)%Q /\ (rnd i < 1)%Q.

End JS.

(** ** The damage ledger and the INSD consensus detector (lib/store.ts) *)
Module Store.

Inductive NodeStatus :=
  | stable | anomaly | warning | critical | collapse | collapse_inferred.

#[global] Instance NodeStatus_eq_dec : EqDecision NodeStatus.
Proof. solve_decision. Defined.

Record Node := mkNode {
  id : string;
  name : string;
  status : NodeStatus;
  lat : Q;
  lng : Q;
  is_physical : bool
}.

(** [{ ...node, status: st }] *)
Definition withStatus (node : Node) (st : NodeStatus) : Node :=
  mkNode (id node) (name node) st (lat node) (lng node) (is_physical node).

Record BuildingSummary := mkSummary {
  safe : nat;
  damaged : nat;
  criticalCount : nat;
  collapsed : nat
}.

Record BuildingDamage := mkDamage {
  baseScore : Z;
  earthquakeDamage : Z;
  totalScore : Z
}.

Record SeismosState := mkState {
  nodes : gmap string Node;
  selectedNodeId : option string;
  buildingDamages : gmap string BuildingDamage;
  isEarthquakeActive : bool;
  earthquakeProgress : Q;
  buildingSummary : BuildingSummary;
  activeNodeCount : nat;
  lastHeartbeat : gmap string Z;
  consensusEvidence : gmap string (list string)
}.

Definition getStatusFromScore (score : Z) : NodeStatus :=
  if 90 <=? score then collapse
  else if 70 <=? score then critical
  else if 30 <=? score then warning
  else if 15 <=? score then anomaly
  else stable.

(** The store as created: every map empty. *)
Definition initialState : SeismosState :=
  mkState ∅ None ∅ false 0 (mkSummary 0 0 0 0) 0 ∅ ∅.

(** The base score drawn for the node at position [index]. *)
Definition drawBaseScore (index : nat) (r : Q) : Z :=
  if (index =? 0)%nat || (index =? 1)%nat
  then 30 + JS.floor (r * 15)
  else JS.floor (r * 26).

Definition freshDamage (b : Z) : BuildingDamage := mkDamage b 0 b.

(** The summary counted from the scores of a damage map. *)
Definition countScore (acc : BuildingSummary) (score : Z) : BuildingSummary :=
  if 90 <=? score
  then mkSummary (safe acc) (damaged acc) (criticalCount acc) (S (collapsed acc))
  else if 70 <=? score
  then mkSummary (safe acc) (damaged acc) (S (criticalCount acc)) (collapsed acc)
  else if 30 <=? score
  then mkSummary (safe acc) (S (damaged acc)) (criticalCount acc) (collapsed acc)
  else mkSummary (S (safe acc)) (damaged acc) (criticalCount acc) (collapsed acc).

Definition summaryOfDamages (dm : gmap string BuildingDamage) : BuildingSummary :=
  JS.forEach dm (fun acc _ d => countScore acc (totalScore d)) (mkSummary 0 0 0 0).

(** The summary counted from the statuses of the nodes. *)
Definition countStatus (acc : BuildingSummary) (st : NodeStatus) : BuildingSummary :=
  match st with
  | collapse | collapse_inferred =>
      mkSummary (safe acc) (damaged acc) (criticalCount acc) (S (collapsed acc))
  | critical =>
      mkSummary (safe acc) (damaged acc) (S (criticalCount acc)) (collapsed acc)
  | warning =>
      mkSummary (safe acc) (S (damaged acc)) (criticalCount acc) (collapsed acc)
  | stable | anomaly =>
      mkSummary (S (safe acc)) (damaged acc) (criticalCount acc) (collapsed acc)
  end.

Definition setNodes (ns : list Node) (rnd : nat -> Q) (now : Z)
    (s : SeismosState) : SeismosState :=
  let nodeMap := JS.newMap (map (fun n => (id n, n)) ns) in
  let damageMap :=
    JS.forEachIdx
      (fun (dm : gmap string BuildingDamage) node index =>
         <[id node := freshDamage (drawBaseScore index (rnd index))]> dm)
      ns 0%nat ∅ in
  let nodeMap' :=
    JS.forEach damageMap
      (fun (nm : gmap string Node) nodeId damage =>
         match nm !! nodeId with
         | Some node =>
             <[nodeId := withStatus node (getStatusFromScore (totalScore damage))]> nm
         | None => nm
         end)
      nodeMap in
  mkState nodeMap' (selectedNodeId s) damageMap (isEarthquakeActive s)
    (earthquakeProgress s) (summaryOfDamages damageMap) (length ns)
    (JS.newMap (map (fun n => (id n, now)) ns)) (consensusEvidence s).

Definition selectNode (nodeId : option string) (s : SeismosState) : SeismosState :=
  mkState (nodes s) nodeId (buildingDamages s) (isEarthquakeActive s)
    (earthquakeProgress s) (buildingSummary s) (activeNodeCount s)
    (lastHeartbeat s) (consensusEvidence s).

Definition setEarthquakeActive (active : bool) (s : SeismosState) : SeismosState :=
  mkState (nodes s) (selectedNodeId s) (buildingDamages s) active
    (if active then 0 else 100)%Q (buildingSummary s) (activeNodeCount s)
    (lastHeartbeat s) (consensusEvidence s).

Definition setEarthquakeProgress (progress : Q) (s : SeismosState) : SeismosState :=
  mkState (nodes s) (selectedNodeId s) (buildingDamages s) (isEarthquakeActive s)
    progress (buildingSummary s) (activeNodeCount s)
    (lastHeartbeat s) (consensusEvidence s).

Definition updateHeartbeat (nodeIds : list string) (now : Z)
    (s : SeismosState) : SeismosState :=
  let newHeartbeats :=
    fold_left (fun (hb : gmap string Z) i => <[i := now]> hb) nodeIds (lastHeartbeat s) in
  mkState (nodes s) (selectedNodeId s) (buildingDamages s) (isEarthquakeActive s)
    (earthquakeProgress s) (buildingSummary s) (activeNodeCount s)
    newHeartbeats (consensusEvidence s).

Definition updateBuildingSummary (s : SeismosState) : SeismosState :=
  mkState (nodes s) (selectedNodeId s) (buildingDamages s) (isEarthquakeActive s)
    (earthquakeProgress s)
    (JS.forEach (nodes s) (fun acc _ n => countStatus acc (status n)) (mkSummary 0 0 0 0))
    (activeNodeCount s) (lastHeartbeat s) (consensusEvidence s).

(** [applyEarthquakeDamage(damages)]: every delta of a building that has a
    damage record is merged into it; the status is recomputed unless it is
    the INSD status. *)
Definition applyOne (acc : gmap string BuildingDamage * gmap string Node)
    (nodeId : string) (addedDamage : Z) :
    gmap string BuildingDamage * gmap string Node :=
  let '(newDamages, newNodes) := acc in
  match newDamages !! nodeId with
  | Some current =>
      let newTotal :=
        Z.min 100 (baseScore current + earthquakeDamage current + addedDamage) in
      let newDamages' :=
        <[nodeId := mkDamage (baseScore current)
                      (earthquakeDamage current + addedDamage) newTotal]> newDamages in
      match newNodes !! nodeId with
      | Some node =>
          if decide (status node <> collapse_inferred)
          then (newDamages',
                <[nodeId := withStatus node (getStatusFromScore newTotal)]> newNodes)
          else (newDamages', newNodes)
      | None => (newDamages', newNodes)
      end
  | None => acc
  end.

Definition applyEarthquakeDamage (damages : gmap string Z)
    (s : SeismosState) : SeismosState :=
  let '(newDamages, newNodes) :=
    JS.forEach damages applyOne (buildingDamages s, nodes s) in
  mkState newNodes (selectedNodeId s) newDamages (isEarthquakeActive s)
    (earthquakeProgress s) (buildingSummary s) (activeNodeCount s)
    (lastHeartbeat s) (consensusEvidence s).

(** The score table [allScores] that [applyEarthquakeDamage] hands to
    [earthquakeSimulator.updateDamages]. *)
Definition allScoresOf (s : SeismosState) : gmap string Z :=
  JS.forEach (buildingDamages s)
    (fun (m : gmap string Z) i d => <[i := totalScore d]> m) ∅.

(** [resetToSafe()]: the nodes are visited with a running [index]; the
    first two visited draw their base score from 30..44. *)
Definition resetOne (rnd : nat -> Q)
    (acc : gmap string Node * gmap string BuildingDamage * gmap string Z * nat)
    (nodeId : string) (node : Node) :
    gmap string Node * gmap string BuildingDamage * gmap string Z * nat :=
  let '(newNodes, newDamages, allScores, index) := acc in
  let b := drawBaseScore index (rnd index) in
  (<[nodeId := withStatus node (getStatusFromScore b)]> newNodes,
   <[nodeId := freshDamage b]> newDamages,
   <[nodeId := b]> allScores,
   S index).

Definition resetLoop (rnd : nat -> Q) (s : SeismosState) :
    gmap string Node * gmap string BuildingDamage * gmap string Z * nat :=
  JS.forEach (nodes s) (resetOne rnd) (nodes s, ∅, ∅, 0%nat).

(** The score table [allScores] that [resetToSafe] hands to
    [earthquakeSimulator.updateDamages]. *)
Definition resetScores (rnd : nat -> Q) (s : SeismosState) : gmap string Z :=
  snd (fst (resetLoop rnd s)).

Definition resetToSafe (rnd : nat -> Q) (now : Z)
    (s : SeismosState) : SeismosState :=
  let '(newNodes, newDamages, _, _) := resetLoop rnd s in
  let newHeartbeats :=
    JS.newMap (map (fun kv : string * Node => (fst kv, now)) (map_to_list (nodes s))) in
  mkState newNodes (selectedNodeId s) newDamages false 0
    (summaryOfDamages newDamages) (activeNodeCount s) newHeartbeats ∅.

(** *** INSD: implicit node silence detection *)
Section Consensus.

Variable Math_sqrt : Q -> Q.

Definition SILENCE_THRESHOLD : Z := 1000.
Definition NEIGHBOR_RADIUS : Q := 0.0015.

Definition dist (node neighbor : Node) : Q :=
  Math_sqrt ((lat node - lat neighbor) ^ 2 + (lng node - lng neighbor) ^ 2).

(** The nodes whose last heartbeat is younger than the threshold. *)
Definition activeNodeIds (now : Z) (s : SeismosState) : gset string :=
  JS.forEach (lastHeartbeat s)
    (fun (act : gset string) i time =>
       if now - time <? SILENCE_THRESHOLD then {[i]} ∪ act else act)
    ∅.

(** The witness search for the silent node [nodeId]. *)
Definition witnessStep (active : gset string) (nodeId : string) (node : Node)
    (witnesses : list string) (neighborId : string) (neighbor : Node) : list string :=
  if decide (nodeId = neighborId) then witnesses
  else if decide (neighborId ∈ active) then
    if JS.ltb (dist node neighbor) NEIGHBOR_RADIUS
    then witnesses ++ [neighborId]
    else witnesses
  else witnesses.

Definition findWitnesses (now : Z) (s : SeismosState)
    (nodeId : string) (node : Node) : list string :=
  JS.forEach (nodes s) (witnessStep (activeNodeIds now s) nodeId node) [].

(** [(now - (lastHeartbeat.get(nodeId) || 0)) > SILENCE_THRESHOLD] *)
Definition isSilent (now : Z) (s : SeismosState) (nodeId : string) : bool :=
  let lastSeen := default 0 (lastHeartbeat s !! nodeId) in
  SILENCE_THRESHOLD <? now - lastSeen.

Definition consensusStep (now : Z) (s : SeismosState)
    (acc : gmap string Node * gmap string (list string) * bool)
    (nodeId : string) (node : Node) :
    gmap string Node * gmap string (list string) * bool :=
  let '(newNodes, newEvidence, hasChanges) := acc in
  if isSilent now s nodeId
     && bool_decide (status node <> collapse)
     && bool_decide (status node <> collapse_inferred)
  then
    if isEarthquakeActive s then
      let witnesses := findWitnesses now s nodeId node in
      if (3 <=? length witnesses)%nat
      then (<[nodeId := withStatus node collapse_inferred]> newNodes,
            <[nodeId := witnesses]> newEvidence,
            true)
      else acc
    else acc
  else if negb (isSilent now s nodeId)
          && bool_decide (status node = collapse_inferred)
  then
    match buildingDamages s !! nodeId with
    | Some damage =>
        (<[nodeId := withStatus node (getStatusFromScore (totalScore damage))]> newNodes,
         delete nodeId newEvidence,
         true)
    | None => acc
    end
  else acc.

(** [checkConsensus(currentReadings)]; the source never reads its
    argument. *)
Definition checkConsensus (now : Z) (s : SeismosState) : SeismosState :=
  let '(newNodes, newEvidence, hasChanges) :=
    JS.forEach (nodes s) (consensusStep now s) (nodes s, consensusEvidence s, false) in
  if hasChanges
  then updateBuildingSummary
         (mkState newNodes (selectedNodeId s) (buildingDamages s)
            (isEarthquakeActive s) (earthquakeProgress s) (buildingSummary s)
            (activeNodeCount s) (lastHeartbeat s) newEvidence)
  else s.

(** *** The reachable states of the store *)

Inductive Action :=
  | ASetNodes (ns : list Node) (rnd : nat -> Q) (now : Z)
  | ASelectNode (nodeId : option string)
  | ASetEarthquakeActive (active : bool)
  | ASetEarthquakeProgress (progress : Q)
  | AUpdateHeartbeat (nodeIds : list string) (now : Z)
  | ACheckConsensus (now : Z)
  | AApplyEarthquakeDamage (damages : gmap string Z)
  | AUpdateBuildingSummary
  | AResetToSafe (rnd : nat -> Q) (now : Z).

Definition dispatch (a : Action) (s : SeismosState) : SeismosState :=
  match a with
  | ASetNodes ns rnd now => setNodes ns rnd now s
  | ASelectNode nodeId => selectNode nodeId s
  | ASetEarthquakeActive active => setEarthquakeActive active s
  | ASetEarthquakeProgress progress => setEarthquakeProgress progress s
  | AUpdateHeartbeat nodeIds now => updateHeartbeat nodeIds now s
  | ACheckConsensus now => checkConsensus now s
  | AApplyEarthquakeDamage damages => applyEarthquakeDamage damages s
  | AUpdateBuildingSummary => updateBuildingSummary s
  | AResetToSafe rnd now => resetToSafe rnd now s
  end.

(** A delta map as the earthquake engine reports it: no negative entry. *)
Definition deltaMap (damages : gmap string Z) : Prop :=
  forall i d, damages !! i = Some d -> 0 <= d.

(** The inputs the environment supplies: random draws in [0, 1) and
    damage deltas that are not negative. *)
Definition admissible (a : Action) : Prop :=
  match a with
  | ASetNodes _ rnd _ => JS.random_ok rnd
  | AResetToSafe rnd _ => JS.random_ok rnd
  | AApplyEarthquakeDamage damages => deltaMap damages
  | _ => True
  end.

(** The states reached from the initial store by actions satisfying [ok]. *)
Inductive reachable (ok : Action -> Prop) : SeismosState -> Prop :=
  | reachable_init : reachable ok initialState
  | reachable_step s a :
      reachable ok s -> ok a -> reachable ok (dispatch a s).

End Consensus.

End Store.

(** ** The reading synthesizer and the earthquake engine
       (lib/simulator/index.ts) *)
Module Simulator.

Local Open Scope Q_scope.

Inductive StructureType := betonarme | yigma | celik | ahsap.

#[global] Instance StructureType_eq_dec : EqDecision StructureType.
Proof. solve_decision. Defined.

Record BuildingMetadata := mkMetadata {
  floors : Z;
  yearBuilt : Z;
  structureType : StructureType;
  lastInspection : string;
  sensorId : string
}.

Inductive SignalType := idle | seismic | noise | anomaly.

Record SensorReading := mkReading {
  timestamp : Z;
  accelX : Q;
  accelY : Q;
  accelZ : Q;
  magnitude : Q;
  frequency : Q;
  fftSpectrum : list Q;
  signalType : SignalType
}.

(** An element of [DEMO_NODES]: a node together with its metadata. *)
Record DemoNode := mkDemoNode {
  id : string;
  name : string;
  status : Store.NodeStatus;
  lat : Q;
  lng : Q;
  is_physical : bool;
  metadata : BuildingMetadata
}.

Definition toNode (n : DemoNode) : Store.Node :=
  Store.mkNode (id n) (name n) (status n) (lat n) (lng n) (is_physical n).

Record EarthquakeConfig := mkConfig {
  intensity : Q;
  durationMs : Q;
  epicenterLat : Q;
  epicenterLng : Q
}.

(** The fields of the [EarthquakeSimulator] object. *)
Record EarthquakeSimulator := mkSim {
  liveReadings : gmap string SensorReading;
  earthquakeInterval : option nat;
  idleInterval : option nat;
  deadNodes : gset string;
  currentDamages : gmap string Q
}.

Definition newSimulator : EarthquakeSimulator := mkSim ∅ None None ∅ ∅.

Definition updateDamages (damages : gmap string Q)
    (sim : EarthquakeSimulator) : EarthquakeSimulator :=
  mkSim (liveReadings sim) (earthquakeInterval sim) (idleInterval sim)
    (deadNodes sim) damages.

(** The structural vulnerability of a building. *)
Definition vulnerability (meta : BuildingMetadata) : Q :=
  let v := 1.0 in
  let v := if decide (structureType meta = yigma) then 1.4 else v in
  let v := if decide (structureType meta = ahsap) then 1.6 else v in
  let v := if (yearBuilt meta <? 1980)%Z then v * 1.3 else v in
  let v := if (4 <? floors meta)%Z then v * 1.2 else v in
  v.

(** The frequency hysteresis: the natural frequency of a building whose
    accumulated damage is [damage]. *)
Definition healthFactor (damage : Q) : Q := JS.max 0 (1 - damage / 100).
Definition baseFrequency (damage : Q) : Q := 1.0 + 3.5 * healthFactor damage.

(** [currentDamages.get(nodeId) || 0] *)
Definition damageOf (sim : EarthquakeSimulator) (nodeId : string) : Q :=
  match currentDamages sim !! nodeId with
  | Some d => if Qeq_bool d 0 then 0 else d
  | None => 0
  end.

(** *** The host: interval timers and subscribers

    [setInterval] registers a callback under a fresh handle; the callback
    is kept as the data it closes over.  [H] is the state of the caller
    that the progress and completion callbacks update. *)

Record QuakeLoop (H : Type) := mkQuakeLoop {
  q_config : EarthquakeConfig;
  q_scores : gmap string Q;
  q_results : gmap string Z;
  q_tickCount : Z;
  q_onProgress : Q -> H -> H;
  q_onComplete : gmap string Z -> H -> H
}.

Record NoiseLoop (H : Type) := mkNoiseLoop {
  n_target : string;
  n_tickCount : Z;
  n_onFiltered : H -> H
}.

Inductive Timer (H : Type) :=
  | IdleTimer
  | QuakeTimer (q : QuakeLoop H)
  | NoiseTimer (n : NoiseLoop H).

Record World (H : Type) := mkWorld {
  sim : EarthquakeSimulator;
  updateCallbacks : list (gmap string SensorReading -> H -> H);
  timers : gmap nat (Timer H);
  nextHandle : nat;
  host : H
}.

Arguments mkQuakeLoop {H}.
Arguments q_config {H}.
Arguments q_scores {H}.
Arguments q_results {H}.
Arguments q_tickCount {H}.
Arguments q_onProgress {H}.
Arguments q_onComplete {H}.
Arguments mkNoiseLoop {H}.
Arguments n_target {H}.
Arguments n_tickCount {H}.
Arguments n_onFiltered {H}.
Arguments IdleTimer {H}.
Arguments QuakeTimer {H}.
Arguments NoiseTimer {H}.
Arguments mkWorld {H}.
Arguments sim {H}.
Arguments updateCallbacks {H}.
Arguments timers {H}.
Arguments nextHandle {H}.
Arguments host {H}.

Section Engine.

Variables Math_sqrt Math_exp Math_sin : Q -> Q.
Variable Math_PI : Q.
Variable DEMO_NODES : list DemoNode.

Definition norm3 (x y z : Q) : Q := Math_sqrt (x ^ 2 + y ^ 2 + z ^ 2).

(** [generateFFTSpectrum(peakHz, spread, amplitude)]: 20 bins of 0.5 Hz;
    bin [i] uses the draw [rnd (k + i)]. *)
Definition fftBin (peakHz spread amplitude : Q) (r : Q) (i : nat) : Q :=
  let hz := inject_Z (Z.of_nat i) * 0.5 in
  let distance := Qabs (hz - peakHz) in
  let value := amplitude * Math_exp (- ((distance * distance) / (2 * spread * spread))) in
  JS.max 0 (value + (r - 0.5) * 0.05).

Definition generateFFTSpectrum (peakHz spread amplitude : Q)
    (rnd : nat -> Q) (k : nat) : list Q :=
  map (fun i => fftBin peakHz spread amplitude (rnd (k + i)%nat) i) (seq 0 20).

(** [generateIdleReading(nodeId)]; it makes 24 draws, starting at [k]. *)
Definition generateIdleReading (sim : EarthquakeSimulator) (nodeId : string)
    (rnd : nat -> Q) (k : nat) (now : Z) : SensorReading :=
  let damage := damageOf sim nodeId in
  let base := baseFrequency damage in
  let noise := 0.003 in
  let ax := (rnd k - 0.5) * noise in
  let ay := (rnd (k + 1)%nat - 0.5) * noise in
  let az := (rnd (k + 2)%nat - 0.5) * noise in
  let spectrum := generateFFTSpectrum base 0.8 0.3 rnd (k + 3)%nat in
  mkReading now ax ay az (norm3 ax ay az)
    (base + rnd (k + 23)%nat * 0.2) spectrum idle.

Definition idleDraws : nat := 24.

(** [getReading(nodeId)]: [None] is the [null] of a silenced sensor. *)
Definition getReading (sim : EarthquakeSimulator) (nodeId : string)
    (rnd : nat -> Q) (now : Z) : option SensorReading :=
  if decide (nodeId ∈ deadNodes sim) then None
  else match liveReadings sim !! nodeId with
       | Some r => Some r
       | None => Some (generateIdleReading sim nodeId rnd 0 now)
       end.

(** The damage delta of one building, [r] being its random draw. *)
Definition distanceFactor (config : EarthquakeConfig) (node : DemoNode) : Q :=
  let distLat := lat node - epicenterLat config in
  let distLng := lng node - epicenterLng config in
  let distance := Math_sqrt (distLat ^ 2 + distLng ^ 2) in
  JS.max 0.2 (1 - distance * 50).

Definition rawDamage (config : EarthquakeConfig) (node : DemoNode) (r : Q) : Z :=
  JS.round (intensity config * 25 * distanceFactor config node
            * vulnerability (metadata node) * (0.5 + r * 0.5)).

Definition damageFor (config : EarthquakeConfig) (node : DemoNode) (r : Q) : Z :=
  Z.min 100 (rawDamage config node r).

(** The map [damageResults] that [triggerEarthquake] computes before it
    starts its interval; the node at position [i] uses the draw
    [rnd (k + i)]. *)
Definition computeDamageResults (config : EarthquakeConfig)
    (rnd : nat -> Q) (k : nat) : gmap string Z :=
  JS.forEachIdx
    (fun (res : gmap string Z) node index =>
       <[id node := damageFor config node (rnd (k + index)%nat)]> res)
    DEMO_NODES 0%nat ∅.

Section Host.

Context {H : Type}.

(** Handles are positive, so a stored handle is a truthy value. *)
Definition newWorld (h : H) : World H := mkWorld newSimulator [] ∅ 1 h.

Definition withSim (w : World H) (sm : EarthquakeSimulator) : World H :=
  mkWorld sm (updateCallbacks w) (timers w) (nextHandle w) (host w).

Definition withHost (w : World H) (h : H) : World H :=
  mkWorld (sim w) (updateCallbacks w) (timers w) (nextHandle w) h.

Definition withReadings (sm : EarthquakeSimulator)
    (lr : gmap string SensorReading) : EarthquakeSimulator :=
  mkSim lr (earthquakeInterval sm) (idleInterval sm) (deadNodes sm)
    (currentDamages sm).

Definition setInterval (t : Timer H) (w : World H) : nat * World H :=
  (nextHandle w,
   mkWorld (sim w) (updateCallbacks w) (<[nextHandle w := t]> (timers w))
     (S (nextHandle w)) (host w)).

Definition clearInterval (h : nat) (w : World H) : World H :=
  mkWorld (sim w) (updateCallbacks w) (delete h (timers w))
    (nextHandle w) (host w).

Definition onLiveUpdate (callback : gmap string SensorReading -> H -> H)
    (w : World H) : World H :=
  mkWorld (sim w) (updateCallbacks w ++ [callback]) (timers w)
    (nextHandle w) (host w).

Definition emitUpdate (w : World H) : World H :=
  withHost w
    (fold_left (fun h cb => cb (liveReadings (sim w)) h) (updateCallbacks w) (host w)).

(** Every live node gets a fresh idle reading, every dead node loses its
    reading; the draws start at [k] and the next free draw is returned. *)
Definition refreshIdle (sm : EarthquakeSimulator) (rnd : nat -> Q) (k : nat)
    (now : Z) : gmap string SensorReading * nat :=
  fold_left
    (fun (acc : gmap string SensorReading * nat) node =>
       let '(lr, c) := acc in
       if decide (id node ∈ deadNodes sm)
       then (delete (id node) lr, c)
       else (<[id node := generateIdleReading sm (id node) rnd c now]> lr,
             (c + idleDraws)%nat))
    DEMO_NODES (liveReadings sm, k).

Definition startIdleSimulation (rnd : nat -> Q) (now : Z) (w : World H) : World H :=
  match idleInterval (sim w) with
  | Some _ => w
  | None =>
      let lr := fst (refreshIdle (sim w) rnd 0 now) in
      let w1 := emitUpdate (withSim w (withReadings (sim w) lr)) in
      let '(h, w2) := setInterval IdleTimer w1 in
      withSim w2
        (mkSim (liveReadings (sim w2)) (earthquakeInterval (sim w2)) (Some h)
           (deadNodes (sim w2)) (currentDamages (sim w2)))
  end.

(** The body of the idle interval, every 200 ms. *)
Definition idleTick (rnd : nat -> Q) (now : Z) (w : World H) : World H :=
  match earthquakeInterval (sim w) with
  | Some _ => w
  | None =>
      let lr := fst (refreshIdle (sim w) rnd 0 now) in
      emitUpdate (withSim w (withReadings (sim w) lr))
  end.

Definition stopIdleSimulation (w : World H) : World H :=
  match idleInterval (sim w) with
  | Some h =>
      let w1 := clearInterval h w in
      withSim w1
        (mkSim (liveReadings (sim w1)) (earthquakeInterval (sim w1)) None
           (deadNodes (sim w1)) (currentDamages (sim w1)))
  | None => w
  end.

(** [triggerEarthquake(config, currentTotalScores, onProgress, onComplete)]:
    the damage map is computed, then the 50 ms interval is registered and
    its handle stored. There is no test of a running event. *)
Definition triggerEarthquake (config : EarthquakeConfig)
    (currentTotalScores : gmap string Q)
    (onProgress : Q -> H -> H) (onComplete : gmap string Z -> H -> H)
    (rnd : nat -> Q) (k : nat) (w : World H) : World H :=
  let damageResults := computeDamageResults config rnd k in
  let '(h, w1) :=
    setInterval
      (QuakeTimer (mkQuakeLoop config currentTotalScores damageResults 0%Z
                     onProgress onComplete)) w in
  withSim w1
    (mkSim (liveReadings (sim w1)) (Some h) (idleInterval (sim w1))
       (deadNodes (sim w1)) (currentDamages (sim w1))).

(** The reading of one node during the event; 24 draws from [c]. *)
Definition seismicReading (config : EarthquakeConfig) (envelope : Q)
    (node : DemoNode) (rnd : nat -> Q) (c : nat) (now : Z) : SensorReading :=
  let distLat := lat node - epicenterLat config in
  let distLng := lng node - epicenterLng config in
  let distance := Math_sqrt (distLat ^ 2 + distLng ^ 2) in
  let distanceFactor := JS.max 0.1 (1 - distance * 40) in
  let intens := intensity config * envelope * distanceFactor in
  let ax := (rnd c - 0.5) * intens in
  let ay := (rnd (c + 1)%nat - 0.5) * intens in
  let az := (rnd (c + 2)%nat - 0.5) * intens + intens * 0.2 in
  let seismicFreq := 2.5 + (rnd (c + 3)%nat - 0.5) in
  let spectrum :=
    generateFFTSpectrum seismicFreq 1.2 (0.8 + envelope * 0.2) rnd (c + 4)%nat in
  mkReading now ax ay az (norm3 ax ay az) seismicFreq spectrum seismic.

Definition seismicReadings (config : EarthquakeConfig) (envelope : Q)
    (sm : EarthquakeSimulator) (rnd : nat -> Q) (k : nat) (now : Z) :
    gmap string SensorReading * nat :=
  fold_left
    (fun (acc : gmap string SensorReading * nat) node =>
       let '(lr, c) := acc in
       if decide (id node ∈ deadNodes sm)
       then (delete (id node) lr, c)
       else (<[id node := seismicReading config envelope node rnd c now]> lr,
             (c + 24)%nat))
    DEMO_NODES (liveReadings sm, k).

(** The violent-shaking phase: a node whose projected total reaches 85
    loses its sensor with probability 0.4. *)
Definition silenceStep (scores : gmap string Q) (rnd : nat -> Q)
    (acc : gset string * nat) (nodeId : string) (newDmg : Z) : gset string * nat :=
  let '(dead, c) := acc in
  let currentTotal :=
    match scores !! nodeId with
    | Some t => if Qeq_bool t 0 then 0 else t
    | None => 0
    end in
  let projectedTotal := JS.min 100 (currentTotal + inject_Z newDmg) in
  if Qle_bool 85 projectedTotal && negb (bool_decide (nodeId ∈ dead))
  then (if JS.ltb (rnd c) 0.4 then {[nodeId]} ∪ dead else dead, S c)
  else acc.

(** The body of the earthquake interval [h], every 50 ms. *)
Definition quakeTick (h : nat) (q : QuakeLoop H) (rnd : nat -> Q) (now : Z)
    (w : World H) : World H :=
  let tickCount := (q_tickCount q + 1)%Z in
  let totalTicks := durationMs (q_config q) / 50 in
  let progress := JS.min 100 (inject_Z tickCount / totalTicks * 100) in
  let envelope := Math_sin (progress / 100 * Math_PI) in
  let w := mkWorld (sim w) (updateCallbacks w)
             (<[h := QuakeTimer
                       (mkQuakeLoop (q_config q) (q_scores q) (q_results q)
                          tickCount (q_onProgress q) (q_onComplete q))]> (timers w))
             (nextHandle w) (host w) in
  let w := withHost w (q_onProgress q progress (host w)) in
  let '(lr, c) := seismicReadings (q_config q) envelope (sim w) rnd 0 now in
  let w := withSim w (withReadings (sim w) lr) in
  let '(dead, c) :=
    if JS.gtb envelope 0.8
    then JS.forEach (q_results q) (silenceStep (q_scores q) rnd)
           (deadNodes (sim w), c)
    else (deadNodes (sim w), c) in
  let w := withSim w
             (mkSim (liveReadings (sim w)) (earthquakeInterval (sim w))
                (idleInterval (sim w)) dead (currentDamages (sim w))) in
  let w := emitUpdate w in
  if Qle_bool totalTicks (inject_Z tickCount)
  then
    let w := match earthquakeInterval (sim w) with
             | Some e => clearInterval e w
             | None => w
             end in
    let lr' := fst (refreshIdle (sim w) rnd c now) in
    let w := emitUpdate (withSim w (withReadings (sim w) lr')) in
    withHost w (q_onComplete q (q_results q) (host w))
  else w.

Definition stop (w : World H) : World H :=
  match earthquakeInterval (sim w) with
  | Some h =>
      let w1 := clearInterval h w in
      withSim w1
        (mkSim (liveReadings (sim w1)) None (idleInterval (sim w1))
           (deadNodes (sim w1)) (currentDamages (sim w1)))
  | None => w
  end.

Definition reset (rnd : nat -> Q) (now : Z) (w : World H) : World H :=
  startIdleSimulation rnd now
    (withSim w
       (mkSim (liveReadings (sim w)) (earthquakeInterval (sim w))
          (idleInterval (sim w)) ∅ (currentDamages (sim w)))).

(** [triggerTruckNoise(targetNodeId, onFilteredCallback)] *)
Definition triggerTruckNoise (targetNodeId : string) (onFiltered : H -> H)
    (w : World H) : World H :=
  match find (fun n => bool_decide (id n = targetNodeId)) DEMO_NODES with
  | Some _ =>
      if decide (targetNodeId ∈ deadNodes (sim w))
      then withHost w (onFiltered (host w))
      else snd (setInterval (NoiseTimer (mkNoiseLoop targetNodeId 0%Z onFiltered)) w)
  | None => withHost w (onFiltered (host w))
  end.

(** The body of the noise interval [h], every 50 ms. *)
Definition noiseTick (h : nat) (n : NoiseLoop H) (rnd : nat -> Q) (now : Z)
    (w : World H) : World H :=
  let tickCount := (n_tickCount n + 1)%Z in
  let totalTicks := 40 in
  let envelope := Math_sin (inject_Z tickCount / totalTicks * Math_PI) in
  let noiseFreq := 8.5 + rnd 0%nat in
  let intens := 0.4 * envelope in
  let ax := (rnd 1%nat - 0.5) * intens in
  let ay := (rnd 2%nat - 0.5) * intens in
  let az := (rnd 3%nat - 0.5) * intens in
  let spectrum := generateFFTSpectrum noiseFreq 0.8 (0.7 * envelope) rnd 4 in
  let reading :=
    mkReading now ax ay az (norm3 ax ay az) noiseFreq spectrum noise in
  let w := mkWorld (withReadings (sim w) (<[n_target n := reading]> (liveReadings (sim w))))
             (updateCallbacks w)
             (<[h := NoiseTimer (mkNoiseLoop (n_target n) tickCount (n_onFiltered n))]>
                (timers w))
             (nextHandle w) (host w) in
  let w := emitUpdate w in
  if Qle_bool totalTicks (inject_Z tickCount)
  then
    let w := clearInterval h w in
    let idleR := generateIdleReading (sim w) (n_target n) rnd 24 now in
    let w := withSim w
               (withReadings (sim w) (<[n_target n := idleR]> (liveReadings (sim w)))) in
    let w := emitUpdate w in
    withHost w (n_onFiltered n (host w))
  else w.

(** One firing of the interval registered under handle [h]. *)
Definition fire (h : nat) (rnd : nat -> Q) (now : Z) (w : World H) : World H :=
  match timers w !! h with
  | Some IdleTimer => idleTick rnd now w
  | Some (QuakeTimer q) => quakeTick h q rnd now w
  | Some (NoiseTimer n) => noiseTick h n rnd now w
  | None => w
  end.

(** An earthquake event is in progress while one of its intervals is
    registered with the host. *)
Definition eventInProgress (w : World H) : Prop :=
  exists h q, timers w !! h = Some (QuakeTimer q).

(** *** The reachable worlds

    What can happen to the simulator: its methods are called, a
    registered interval fires, or the caller changes its own state. *)
Inductive Command :=
  | CStartIdleSimulation (rnd : nat -> Q) (now : Z)
  | CStopIdleSimulation
  | CTriggerEarthquake (config : EarthquakeConfig) (scores : gmap string Q)
      (onProgress : Q -> H -> H) (onComplete : gmap string Z -> H -> H)
      (rnd : nat -> Q) (k : nat)
  | CFire (h : nat) (rnd : nat -> Q) (now : Z)
  | CStop
  | CReset (rnd : nat -> Q) (now : Z)
  | CTriggerTruckNoise (targetNodeId : string) (onFiltered : H -> H)
  | CUpdateDamages (damages : gmap string Q)
  | COnLiveUpdate (callback : gmap string SensorReading -> H -> H)
  | CHost (f : H -> H).

Definition run (c : Command) (w : World H) : World H :=
  match c with
  | CStartIdleSimulation rnd now => startIdleSimulation rnd now w
  | CStopIdleSimulation => stopIdleSimulation w
  | CTriggerEarthquake config scores onProgress onComplete rnd k =>
      triggerEarthquake config scores onProgress onComplete rnd k w
  | CFire h rnd now => fire h rnd now w
  | CStop => stop w
  | CReset rnd now => reset rnd now w
  | CTriggerTruckNoise target onFiltered => triggerTruckNoise target onFiltered w
  | CUpdateDamages damages => withSim w (updateDamages damages (sim w))
  | COnLiveUpdate callback => onLiveUpdate callback w
  | CHost f => withHost w (f (host w))
  end.

Inductive reachableWorld : World H -> Prop :=
  | reachableWorld_init h : reachableWorld (newWorld h)
  | reachableWorld_step w c : reachableWorld w -> reachableWorld (run c w).

(** The ids of the fixed population. *)
Definition known (nodeId : string) : Prop := nodeId ∈ map id DEMO_NODES.

(** Only buildings of the population have a reading, are silenced, have
    a damage delta in a running event or are the target of a noise pulse. *)
Definition readings_known (lr : gmap string SensorReading) : Prop :=
  forall i r, lr !! i = Some r -> known i.

Definition dead_known (dead : gset string) : Prop :=
  forall i, i ∈ dead -> known i.

Definition results_known (results : gmap string Z) : Prop :=
  forall i d, results !! i = Some d -> known i.

Definition timer_known (t : Timer H) : Prop :=
  match t with
  | IdleTimer => True
  | QuakeTimer q => results_known (q_results q)
  | NoiseTimer n => known (n_target n)
  end.

Definition timers_known (tm : gmap nat (Timer H)) : Prop :=
  forall h t, tm !! h = Some t -> timer_known t.

Definition world_known (w : World H) : Prop :=
  readings_known (liveReadings (sim w)) /\
  dead_known (deadNodes (sim w)) /\
  timers_known (timers w).

End Host.

End Engine.

(** *** The earlier revision of the engine (lib/simulator/index.ts as
        first written): a random vulnerability and a cut at 70. *)
Section EarlierEngine.

Variable Math_sqrt : Q -> Q.

Definition earlierDamageFor (config : EarthquakeConfig) (nodeLat nodeLng : Q)
    (r : Q) : Z :=
  let distLat := nodeLat - epicenterLat config in
  let distLng := nodeLng - epicenterLng config in
  let distance := Math_sqrt (distLat ^ 2 + distLng ^ 2) in
  let distanceFactor := JS.max 0.2 (1 - distance * 30) in
  let vulnerabilityFactor := 0.5 + r * 1.0 in
  let damage := JS.round (intensity config * 30 * distanceFactor * vulnerabilityFactor) in
  Z.min 70 damage.

End EarlierEngine.

End Simulator.

(** ** The baseline / fatigue tracker (lib/damage-score/baseline-tracker.ts) *)
Module BaselineTracker.

Local Open Scope Q_scope.

Record FatigueIndicator := mkIndicator {
  hasWarning : bool;
  trendSlope : Q;
  baselineFrequency : Q;
  currentFrequency : Q;
  deviationPercent : Q;
  sampleCount : nat;
  trendConfidence : Q
}.

(** [CONFIG] *)
Definition baselineWindowSize : nat := 20.
Definition historyWindowSize : nat := 50.
Definition fatigueThresholdSlope : Q := - 0.005.
Definition minTrendConfidence : Q := 0.3.
Definition minSamplesForFatigue : nat := 30.

Record NodeBaseline := mkBaseline {
  frequencyHistory : list Q;
  establishedBaseline : option Q;
  isBaselineSet : bool
}.

(** [values.sort((a, b) => a - b)], as an insertion sort. *)
Fixpoint insertSorted (x : Q) (l : list Q) : list Q :=
  match l with
  | [] => [x]
  | y :: l' => if Qle_bool x y then x :: l else y :: insertSorted x l'
  end.

Definition sortAscending (l : list Q) : list Q := foldr insertSorted [] l.

Definition calculateMedian (values : list Q) : Q :=
  let sorted := sortAscending values in
  let mid := (length sorted / 2)%nat in
  if negb (length sorted mod 2 =? 0)%nat
  then nth mid sorted 0
  else (nth (mid - 1) sorted 0 + nth mid sorted 0) / 2.

(** The sum of [term i values[i]] over the indices of [values]. *)
Definition sumOver (term : nat -> Q -> Q) (values : list Q) : Q :=
  JS.forEachIdx (fun acc y i => acc + term i y) values 0%nat 0.

Definition idx (i : nat) : Q := inject_Z (Z.of_nat i).

Definition linearRegression (values : list Q) : Q * Q :=
  let n := length values in
  if (n <? 2)%nat then (0, 0)
  else
    let nq := idx n in
    let sumX := sumOver (fun i _ => idx i) values in
    let sumY := sumOver (fun _ y => y) values in
    let sumXY := sumOver (fun i y => idx i * y) values in
    let sumX2 := sumOver (fun i _ => idx i * idx i) values in
    let meanX := sumX / nq in
    let meanY := sumY / nq in
    let numerator := sumXY - nq * meanX * meanY in
    let denominator := sumX2 - nq * meanX * meanX in
    if Qeq_bool denominator 0 then (0, 0)
    else
      let slope := numerator / denominator in
      let intercept := meanY - slope * meanX in
      let ssRes := sumOver (fun i y => (y - (slope * idx i + intercept)) ^ 2) values in
      let ssTot := sumOver (fun _ y => (y - meanY) ^ 2) values in
      let rSquared := if JS.gtb ssTot 0 then 1 - ssRes / ssTot else 0 in
      (slope, JS.max 0 rSquared).

Definition calculateFatigueIndicator (nodeId : string) (baseline : NodeBaseline)
    (current : Q) : FatigueIndicator :=
  let count := length (frequencyHistory baseline) in
  let baselineFreq := default current (establishedBaseline baseline) in
  let deviation :=
    if JS.gtb baselineFreq 0
    then (baselineFreq - current) / baselineFreq * 100
    else 0 in
  if (count <? minSamplesForFatigue)%nat
  then mkIndicator false 0 baselineFreq current deviation count 0
  else
    let '(slope, rSquared) := linearRegression (frequencyHistory baseline) in
    let warn :=
      JS.ltb slope fatigueThresholdSlope && JS.gtb rSquared minTrendConfidence in
    mkIndicator warn slope baselineFreq current deviation count rSquared.

(** The [while (length > historyWindowSize) shift()] loop. *)
Definition trim (history : list Q) : list Q :=
  drop (length history - historyWindowSize) history.

(** [update(nodeId, frequency)]: the new tracker table and the indicator. *)
Definition update (nodeId : string) (freq : Q)
    (nodeBaselines : gmap string NodeBaseline) :
    gmap string NodeBaseline * FatigueIndicator :=
  let baseline := default (mkBaseline [] None false) (nodeBaselines !! nodeId) in
  let history := trim (frequencyHistory baseline ++ [freq]) in
  let baseline' :=
    if negb (isBaselineSet baseline) && (baselineWindowSize <=? length history)%nat
    then mkBaseline history
           (Some (calculateMedian (take baselineWindowSize history))) true
    else mkBaseline history (establishedBaseline baseline) (isBaselineSet baseline) in
  (<[nodeId := baseline']> nodeBaselines,
   calculateFatigueIndicator nodeId baseline' freq).

(** [getBaseline(nodeId)] *)
Definition getBaseline (nodeId : string)
    (nodeBaselines : gmap string NodeBaseline) : Q :=
  match nodeBaselines !! nodeId with
  | Some baseline => default 5.0 (establishedBaseline baseline)
  | None => 5.0
  end.

(** [reset(nodeId?)] *)
Definition reset (nodeId : option string)
    (nodeBaselines : gmap string NodeBaseline) : gmap string NodeBaseline :=
  match nodeId with
  | Some i => if String.eqb i "" then ∅ else delete i nodeBaselines
  | None => ∅
  end.

End BaselineTracker.

(** ** The dashboard commands (components/dashboard/DashboardPanel.tsx,
       app/page.tsx) *)
Module Dashboard.

Import Simulator.
Local Open Scope Q_scope.

(** What the store asks of the simulator through its late-bound import;
    the request is carried out when the import resolves. *)
Inductive SimRequest :=
  | ReqUpdateDamages (scores : gmap string Q)
  | ReqUpdateDamagesAndReset (scores : gmap string Q).

Inductive CategoryFilter := FSafe | FDamaged | FCritical | FCollapsed.

(** The state on the caller's side: the store, the component state of the
    panel, its scheduled [setCanReset(true)] timeouts and the requests
    not yet delivered to the simulator. *)
Record Panel := mkPanel {
  store : Store.SeismosState;
  canReset : bool;
  activeFilter : option CategoryFilter;
  liveReading : option SensorReading;
  pendingCanReset : nat;
  pendingRequests : list SimRequest
}.

Definition withStore (p : Panel) (st : Store.SeismosState) : Panel :=
  mkPanel st (canReset p) (activeFilter p) (liveReading p)
    (pendingCanReset p) (pendingRequests p).

Definition request (r : SimRequest) (p : Panel) : Panel :=
  mkPanel (store p) (canReset p) (activeFilter p) (liveReading p)
    (pendingCanReset p) (pendingRequests p ++ [r]).

Definition toScores (m : gmap string Z) : gmap string Q := inject_Z <$> m.

(** The store's [applyEarthquakeDamage] together with its request. *)
Definition applyEarthquakeDamage (damages : gmap string Z) (p : Panel) : Panel :=
  let st := Store.applyEarthquakeDamage damages (store p) in
  request (ReqUpdateDamages (toScores (Store.allScoresOf st))) (withStore p st).

(** The store's [resetToSafe] together with its request. *)
Definition resetToSafe (rnd : nat -> Q) (now : Z) (p : Panel) : Panel :=
  let st := Store.resetToSafe rnd now (store p) in
  request (ReqUpdateDamagesAndReset (toScores (Store.resetScores rnd (store p))))
    (withStore p st).

(** The subscriber of the panel: the reading of the selected node. *)
Definition liveSubscriber (readings : gmap string SensorReading) (p : Panel) : Panel :=
  match Store.selectedNodeId (store p) with
  | Some selected =>
      match readings !! selected with
      | Some r =>
          mkPanel (store p) (canReset p) (activeFilter p) (Some r)
            (pendingCanReset p) (pendingRequests p)
      | None => p
      end
  | None => p
  end.

Definition onProgress (progress : Q) (p : Panel) : Panel :=
  withStore p (Store.setEarthquakeProgress progress (store p)).

Definition onComplete (damages : gmap string Z) (p : Panel) : Panel :=
  let p := applyEarthquakeDamage damages p in
  let p := withStore p (Store.setEarthquakeActive false (store p)) in
  let p := withStore p (Store.updateBuildingSummary (store p)) in
  mkPanel (store p) (canReset p) (activeFilter p) (liveReading p)
    (S (pendingCanReset p)) (pendingRequests p).

(** One scheduled [setCanReset(true)] timeout fires. *)
Definition fireCanReset (p : Panel) : Panel :=
  match pendingCanReset p with
  | O => p
  | S n =>
      mkPanel (store p) true (activeFilter p) (liveReading p) n (pendingRequests p)
  end.

Section Commands.

Variables Math_sqrt Math_exp Math_sin : Q -> Q.
Variable Math_PI : Q.
Variable DEMO_NODES : list DemoNode.

(** The current total scores as the handler copies them. *)
Definition currentScores (st : Store.SeismosState) : gmap string Q :=
  JS.forEach (Store.buildingDamages st)
    (fun (m : gmap string Q) i dmg => <[i := inject_Z (Store.totalScore dmg)]> m) ∅.

(** [handleTriggerEarthquake]: [None] is the [TypeError] raised when the
    epicenter index falls outside [DEMO_NODES]. *)
Definition handleTriggerEarthquake (rnd : nat -> Q) (w : World Panel) :
    option (World Panel) :=
  if Store.isEarthquakeActive (store (host w)) then Some w
  else
    let p := host w in
    let p := withStore p (Store.setEarthquakeActive true (store p)) in
    let p := mkPanel (store p) false (activeFilter p) (liveReading p)
               (pendingCanReset p) (pendingRequests p) in
    let scores := currentScores (store (host w)) in
    let index := JS.floor (rnd 0%nat * inject_Z (Z.of_nat (length DEMO_NODES))) in
    match DEMO_NODES !! Z.to_nat index with
    | Some epicenter =>
        Some (triggerEarthquake Math_sqrt DEMO_NODES
                (mkConfig (1.5 + rnd 1%nat * 0.5) 5000 (lat epicenter) (lng epicenter))
                scores onProgress onComplete rnd 2 (withHost w p))
    | None => None
    end.

Definition handleReset (rnd : nat -> Q) (now : Z) (w : World Panel) : World Panel :=
  let p := resetToSafe rnd now (host w) in
  withHost w
    (mkPanel (store p) false None (liveReading p)
       (pendingCanReset p) (pendingRequests p)).

(** The first pending request of the store reaches the simulator. *)
Definition deliver (rnd : nat -> Q) (now : Z) (w : World Panel) : World Panel :=
  match pendingRequests (host w) with
  | [] => w
  | r :: rest =>
      let p := host w in
      let w := withHost w
                 (mkPanel (store p) (canReset p) (activeFilter p) (liveReading p)
                    (pendingCanReset p) rest) in
      match r with
      | ReqUpdateDamages scores => withSim w (updateDamages scores (sim w))
      | ReqUpdateDamagesAndReset scores =>
          reset Math_sqrt Math_exp DEMO_NODES rnd now
            (withSim w (updateDamages scores (sim w)))
      end
  end.

(** The page as mounted: the nodes are loaded into the store and the
    idle simulation is started. *)
Definition mount (rndStore rndSim : nat -> Q) (now : Z) : World Panel :=
  let st := Store.setNodes (map toNode DEMO_NODES) rndStore now Store.initialState in
  startIdleSimulation Math_sqrt Math_exp DEMO_NODES rndSim now
    (onLiveUpdate liveSubscriber
       (newWorld (mkPanel st false None None 0 []))).

(** *** The running application

    What happens after the page is mounted: the user triggers an
    earthquake, resets or selects a building, an interval or a timeout
    fires, a request of the store reaches the simulator.  The handlers
    read the store of the last render, taken to be the current one. *)
Inductive Event :=
  | EHandleTriggerEarthquake (rnd : nat -> Q)
  | EHandleReset (rnd : nat -> Q) (now : Z)
  | ESelectNode (nodeId : option string) (rnd : nat -> Q) (now : Z)
  | EFire (h : nat) (rnd : nat -> Q) (now : Z)
  | EFireCanReset
  | EDeliver (rnd : nat -> Q) (now : Z).

(** The reset button is rendered only while no earthquake is active and
    [canReset] is set. *)
Definition resetAvailable (p : Panel) : bool :=
  negb (Store.isEarthquakeActive (store p)) && canReset p.

(** Selecting a node shows its last reading. *)
Definition selectNode (nodeId : option string) (rnd : nat -> Q) (now : Z)
    (w : World Panel) : World Panel :=
  let p := withStore (host w) (Store.selectNode nodeId (store (host w))) in
  match nodeId with
  | Some selected =>
      withHost w
        (mkPanel (store p) (canReset p) (activeFilter p)
           (getReading Math_sqrt Math_exp (sim w) selected rnd now)
           (pendingCanReset p) (pendingRequests p))
  | None => withHost w p
  end.

(** The trigger command raises its [TypeError] only for an epicenter
    index outside the population, which no draw in [0, 1) produces; the
    world is then left as it was. *)
Definition step (e : Event) (w : World Panel) : World Panel :=
  match e with
  | EHandleTriggerEarthquake rnd => default w (handleTriggerEarthquake rnd w)
  | EHandleReset rnd now =>
      if resetAvailable (host w) then handleReset rnd now w else w
  | ESelectNode nodeId rnd now => selectNode nodeId rnd now w
  | EFire h rnd now => fire Math_sqrt Math_exp Math_sin Math_PI DEMO_NODES h rnd now w
  | EFireCanReset => withHost w (fireCanReset (host w))
  | EDeliver rnd now => deliver rnd now w
  end.

Definition draws (e : Event) : Prop :=
  match e with
  | EHandleTriggerEarthquake rnd => JS.random_ok rnd
  | EHandleReset rnd _ => JS.random_ok rnd
  | ESelectNode _ rnd _ => JS.random_ok rnd
  | EFire _ rnd _ => JS.random_ok rnd
  | EDeliver rnd _ => JS.random_ok rnd
  | EFireCanReset => True
  end.

Inductive running : World Panel -> Prop :=
  | running_mount rndStore rndSim now :
      JS.random_ok rndStore -> JS.random_ok rndSim ->
      running (mount rndStore rndSim now)
  | running_step w e : running w -> draws e -> running (step e w).

(** What an interval of the running application may be: the idle loop,
    or an event that carries a delta map and the panel's callbacks. *)
Definition timer_ok (t : Timer Panel) : Prop :=
  match t with
  | IdleTimer => True
  | QuakeTimer q =>
      Store.deltaMap (q_results q) /\
      q_onProgress q = onProgress /\ q_onComplete q = onComplete
  | NoiseTimer _ => False
  end.

(** The ledger of the store is sound, every interval is as above, no
    subscriber touches the store, and an event in progress is the one
    whose handle the simulator holds, the store's flag being set. *)
Definition app_ok (w : World Panel) : Prop :=
  (forall i d, Store.buildingDamages (store (host w)) !! i = Some d ->
     0 <= Store.totalScore d <= 100 /\
     Store.totalScore d = Z.min 100 (Store.baseScore d + Store.earthquakeDamage d))%Z /\
  (forall h t, timers w !! h = Some t -> timer_ok t) /\
  (forall cb, cb ∈ updateCallbacks w -> forall r p, store (cb r p) = store p) /\
  (forall h q, timers w !! h = Some (QuakeTimer q) ->
     Store.isEarthquakeActive (store (host w)) = true /\
     earthquakeInterval (sim w) = Some h).

End Commands.

End Dashboard.

(** ** What one iteration does to one building

    The loops of the store only touch the entry of the key they visit;
    these definitions give the outcome of a loop at a single key. *)
Module StoreAt.

Import Store.

(** The record and the node of a building as [applyEarthquakeDamage]
    leaves them when the delta map holds [addedDamage] for it. *)
Definition applyAt (addedDamage : Z)
    (r : option BuildingDamage * option Node) :
    option BuildingDamage * option Node :=
  match fst r with
  | Some current =>
      let newTotal :=
        Z.min 100 (baseScore current + earthquakeDamage current + addedDamage) in
      (Some (mkDamage (baseScore current)
               (earthquakeDamage current + addedDamage) newTotal),
       match snd r with
       | Some node =>
           if decide (status node <> collapse_inferred)
           then Some (withStatus node (getStatusFromScore newTotal))
           else Some node
       | None => None
       end)
  | None => r
  end.

(** The node and the evidence of a building as [checkConsensus] leaves
    them. *)
Definition consensusAt (Math_sqrt : Q -> Q) (now : Z) (s : SeismosState)
    (nodeId : string) (node : Node)
    (r : option Node * option (list string)) :
    option Node * option (list string) :=
  if isSilent now s nodeId
     && bool_decide (status node <> collapse)
     && bool_decide (status node <> collapse_inferred)
  then
    if isEarthquakeActive s then
      let witnesses := findWitnesses Math_sqrt now s nodeId node in
      if (3 <=? length witnesses)%nat
      then (Some (withStatus node collapse_inferred), Some witnesses)
      else r
    else r
  else if negb (isSilent now s nodeId)
          && bool_decide (status node = collapse_inferred)
  then
    match buildingDamages s !! nodeId with
    | Some damage =>
        (Some (withStatus node (getStatusFromScore (totalScore damage))), None)
    | None => r
    end
  else r.

(** The ledger invariant of one damage record. *)
Definition ledger_ok (d : BuildingDamage) : Prop :=
  0 <= totalScore d <= 100 /\
  totalScore d = Z.min 100 (baseScore d + earthquakeDamage d).

(** The status of a node agrees with its damage record: it is the status
    of the total score, or the INSD override. *)
Definition status_ok (n : Node) (d : BuildingDamage) : Prop :=
  status n = getStatusFromScore (totalScore d) \/ status n = collapse_inferred.

(** Every node of the state has a damage record, and agrees with it. *)
Definition statuses_ok (s : SeismosState) : Prop :=
  forall i n, nodes s !! i = Some n ->
    exists d, buildingDamages s !! i = Some d /\ status_ok n d.

(** A record as [setNodes] creates it: a drawn base score, no event
    damage. *)
Definition baseScoreOf (rnd : nat -> Q) (d : BuildingDamage) : Prop :=
  exists k, d = freshDamage (drawBaseScore k (rnd k)).

(** The actions that reinitialise the ledger. *)
Definition reinitialises (a : Action) : bool :=
  match a with
  | ASetNodes _ _ _ | AResetToSafe _ _ => true
  | _ => false
  end.

(** A neighbour that counts as a witness of the silent node [node]. *)
Definition isWitness (Math_sqrt : Q -> Q) (now : Z) (s : SeismosState)
    (nodeId : string) (node : Node) (w : string) : Prop :=
  w <> nodeId /\
  exists neighbor time,
    nodes s !! w = Some neighbor /\
    lastHeartbeat s !! w = Some time /\
    now - time < SILENCE_THRESHOLD /\
    (dist Math_sqrt node neighbor < NEIGHBOR_RADIUS)%Q.

End StoreAt.

(** ** What holds of the store as a whole

    Predicates on states and on pairs of states that the properties
    below establish. *)
Module StoreInv.

Import Store.

(** The number of buildings a summary accounts for. *)
Definition counted (sm : BuildingSummary) : nat :=
  (safe sm + damaged sm + criticalCount sm + collapsed sm)%nat.

(** The buildings of [s'] are those of [s], with at most another status. *)
Definition keeps_buildings (s s' : SeismosState) : Prop :=
  forall i,
    match nodes s !! i, nodes s' !! i with
    | Some n, Some n' => n' = withStatus n (status n')
    | None, None => True
    | _, _ => False
    end.

(** Every building with the INSD status has its evidence on record: at
    least three distinct buildings of the state, none of them itself. *)
Definition evidence_ok (s : SeismosState) : Prop :=
  forall i n, nodes s !! i = Some n -> status n = collapse_inferred ->
    exists ws,
      consensusEvidence s !! i = Some ws /\
      (3 <= length ws)%nat /\ NoDup ws /\
      forall w, w ∈ ws -> w <> i /\ is_Some (nodes s !! w).

(** [ASetNodes] is the one action that replaces the buildings. *)
Definition replacesBuildings (a : Action) : bool :=
  match a with
  | ASetNodes _ _ _ => true
  | _ => false
  end.

(** A sequence of actions, dispatched from left to right. *)
Definition dispatchAll (Math_sqrt : Q -> Q) (acts : list Action)
    (s : SeismosState) : SeismosState :=
  fold_left (fun st a => dispatch Math_sqrt a st) acts s.

(** The age of the last heartbeat of a building, as [checkConsensus]
    computes it: a building never heard of was last seen at time 0. *)
Definition heartbeatAge (now : Z) (s : SeismosState) (nodeId : string) : Z :=
  now - default 0 (lastHeartbeat s !! nodeId).

End StoreInv.

(** ** What holds of the simulator as a whole *)
Module SimulatorInv.

Import Simulator.
Local Open Scope Q_scope.

(** [Math.min(100, (currentTotalScores.get(nodeId) || 0) + newDmg)]: the
    total a building is projected to reach in the running event. *)
Definition projectedTotal (scores : gmap string Q) (nodeId : string)
    (newDmg : Z) : Q :=
  let currentTotal :=
    match scores !! nodeId with
    | Some t => if Qeq_bool t 0 then 0 else t
    | None => 0
    end in
  JS.min 100 (currentTotal + inject_Z newDmg).

(** The last tick of an event is the one on which [tickCount] reaches
    [totalTicks]. *)
Definition lastTick {H : Type} (q : QuakeLoop H) : bool :=
  Qle_bool (durationMs (q_config q) / 50) (inject_Z (q_tickCount q + 1)).

Section Runs.

Variables Math_sqrt Math_exp Math_sin : Q -> Q.
Variable Math_PI : Q.
Variable DEMO_NODES : list DemoNode.
Context {H : Type}.

(** A sequence of commands, run from left to right. *)
Definition runAll (cs : list (Command (H:=H))) (w : World H) : World H :=
  fold_left
    (fun w c => run Math_sqrt Math_exp Math_sin Math_PI DEMO_NODES c w) cs w.

Definition isReset (c : Command (H:=H)) : bool :=
  match c with
  | CReset _ _ => true
  | _ => false
  end.

Definition isStop (c : Command (H:=H)) : bool :=
  match c with
  | CStop => true
  | _ => false
  end.

(** The handles the simulator holds and the intervals of the host: every
    registered handle has been handed out, the idle handle names the one
    idle loop, and the earthquake handle never names another kind of
    interval. *)
Definition handles_ok (w : World H) : Prop :=
  (forall h t, timers w !! h = Some t -> (h < nextHandle w)%nat) /\
  (forall h, timers w !! h = Some IdleTimer <-> idleInterval (sim w) = Some h) /\
  (forall e, earthquakeInterval (sim w) = Some e ->
     (e < nextHandle w)%nat /\
     forall t, timers w !! e = Some t -> exists q, t = QuakeTimer q).

End Runs.

End SimulatorInv.

(** ** Runs of the tracker *)
Module TrackerRuns.

Import BaselineTracker.

(** The tracker table after [update(nodeId, f)] has been called for each
    sample [f], from left to right. *)
Definition feedAll (nodeId : string) (samples : list Q)
    (nodeBaselines : gmap string NodeBaseline) : gmap string NodeBaseline :=
  fold_left (fun t f => fst (update nodeId f t)) samples nodeBaselines.

End TrackerRuns.

(** ** The category lists of the dashboard
       (components/dashboard/DashboardPanel.tsx) *)
Module Views.

Import Store Dashboard.

#[global] Instance CategoryFilter_eq_dec : EqDecision CategoryFilter.
Proof. solve_decision. Defined.

(** A row of the list: [{ id, name: n.name, score }]. *)
Record Row := mkRow {
  rowId : string;
  rowName : string;
  rowScore : Z
}.

(** [buildingDamages.get(id)?.totalScore || 0] *)
Definition scoreOf (s : SeismosState) (nodeId : string) : Z :=
  match buildingDamages s !! nodeId with
  | Some d => totalScore d
  | None => 0
  end.

Definition categoryOf (score : Z) (n : Node) : CategoryFilter :=
  if (90 <=? score) || bool_decide (status n = collapse_inferred) then FCollapsed
  else if 70 <=? score then FCritical
  else if 30 <=? score then FDamaged
  else FSafe.

(** [rows.sort((a, b) => b.score - a.score)], as a stable insertion
    sort: the highest score comes first. *)
Fixpoint insertRow (x : Row) (l : list Row) : list Row :=
  match l with
  | [] => [x]
  | y :: l' => if rowScore y <=? rowScore x then x :: l else y :: insertRow x l'
  end.

Definition sortByScore (l : list Row) : list Row := foldr insertRow [] l.

(** The rows pushed by the loop over the nodes, before they are sorted. *)
Definition collectRows (activeFilter : option CategoryFilter)
    (s : SeismosState) : list Row :=
  JS.forEach (nodes s)
    (fun (buildings : list Row) i n =>
       let score := scoreOf s i in
       if decide (activeFilter = Some (categoryOf score n))
       then buildings ++ [mkRow i (name n) score]
       else buildings)
    [].

Definition getFilteredBuildings (activeFilter : option CategoryFilter)
    (s : SeismosState) : list Row :=
  sortByScore (collectRows activeFilter s).

(** [activeFilter ? getFilteredBuildings() : []] *)
Definition filteredBuildings (p : Panel) : list Row :=
  match activeFilter p with
  | Some _ => getFilteredBuildings (activeFilter p) (store p)
  | None => []
  end.

(** The counter shown on the button of a category. *)
Definition counterOf (c : CategoryFilter) (sm : BuildingSummary) : nat :=
  match c with
  | FSafe => safe sm
  | FDamaged => damaged sm
  | FCritical => criticalCount sm
  | FCollapsed => collapsed sm
  end.

(** The category under which the summary counts a status, resp. a score. *)
Definition bucketOfStatus (st : NodeStatus) : CategoryFilter :=
  match st with
  | collapse | collapse_inferred => FCollapsed
  | critical => FCritical
  | warning => FDamaged
  | stable | anomaly => FSafe
  end.

Definition bucketOfScore (score : Z) : CategoryFilter :=
  if 90 <=? score then FCollapsed
  else if 70 <=? score then FCritical
  else if 30 <=? score then FDamaged
  else FSafe.

(** No row is followed by one with a higher score. *)
Fixpoint descending (l : list Row) : Prop :=
  match l with
  | [] => True
  | x :: l' => Forall (fun y => rowScore y <= rowScore x) l' /\ descending l'
  end.

(** The summary is up to date: each counter is the number of buildings
    whose status falls under its category. *)
Definition summary_fresh (s : SeismosState) : Prop :=
  forall c,
    counterOf c (buildingSummary s) =
    size (filter (fun kv : string * Node => bucketOfStatus (status (snd kv)) = c)
            (nodes s)).

End Views.

(** ** The population (lib/simulator/index.ts, [generateBalatNodes]) *)
Module Population.

Import Simulator.
Local Open Scope Q_scope.

(** [BOUNDS] *)
Definition minLat : Q := 41.0275.
Definition maxLat : Q := 41.0315.
Definition minLng : Q := 28.9435.
Definition maxLng : Q := 28.9495.

Definition types : list StructureType := [betonarme; yigma; celik; ahsap].
Definition typeWeights : list Q := [0.5; 0.35; 0.1; 0.05].

(** The loop that picks [typeIndex]: the first index at which the
    cumulative weight exceeds [rand], and 0 when there is none. *)
Fixpoint pickType (weights : list Q) (i : nat) (cumWeight rand : Q) : nat :=
  match weights with
  | [] => 0%nat
  | weight :: rest =>
      let cumWeight := cumWeight + weight in
      if JS.ltb rand cumWeight then i else pickType rest (S i) cumWeight rand
  end.

(** [s.padStart(3, '0')] *)
Definition padStart3 (s : string) : string :=
  match String.length s with
  | 0%nat => "000"
  | 1%nat => "00" +:+ s
  | 2%nat => "0" +:+ s
  | _ => s
  end.

(** [generateBuildingMetadata(id)]; it makes 6 draws, starting at [k]. *)
Definition generateBuildingMetadata (i : nat) (rnd : nat -> Q) (k : nat) :
    BuildingMetadata :=
  let typeIndex := pickType typeWeights 0 0 (rnd k) in
  mkMetadata
    (1 + JS.floor (rnd (k + 1)%nat * 6))
    (1960 + JS.floor (rnd (k + 2)%nat * 60))
    (nth typeIndex types betonarme)
    (pretty (2020 + JS.floor (rnd (k + 3)%nat * 4))%Z +:+ "-0"
       +:+ pretty (1 + JS.floor (rnd (k + 4)%nat * 9))%Z +:+ "-"
       +:+ pretty (10 + JS.floor (rnd (k + 5)%nat * 18))%Z)
    ("SEN-" +:+ padStart3 (pretty i)).

(** The node pushed for the index [i]; it makes 8 draws, starting at [c]. *)
Definition nodeFor (rnd : nat -> Q) (c : nat) (i : nat) : DemoNode :=
  mkDemoNode ("node-" +:+ pretty i) ("Bina " +:+ pretty i) Store.stable
    (minLat + rnd c * (maxLat - minLat))
    (minLng + rnd (c + 1)%nat * (maxLng - minLng))
    false
    (generateBuildingMetadata i rnd (c + 2)).

(** The loop [for (let i = 1; i <= count; i++) nodes.push(...)], with
    [n] iterations left. *)
Fixpoint pushNodes (n : nat) (i : nat) (rnd : nat -> Q) (c : nat)
    (nodes : list DemoNode) : list DemoNode :=
  match n with
  | O => nodes
  | S n' => pushNodes n' (S i) rnd (c + 8) (nodes ++ [nodeFor rnd c i])
  end.

Definition generateBalatNodes (count : nat) (rnd : nat -> Q) (k : nat) :
    list DemoNode :=
  pushNodes count 1 rnd k [].

(** [DEMO_NODES] and [BUILDING_METADATA] *)
Definition DEMO_NODES (rnd : nat -> Q) : list DemoNode := generateBalatNodes 80 rnd 0.


End Population.

(** ** A small concrete world

    Rational stand-ins for the [Math] functions and a population of four
    buildings, on which the definitions above can be run. *)
Module Demo.

Import Simulator.
Local Open Scope Q_scope.

(** The square root to six decimals, by the integer square root. *)
Definition sqrtApprox (x : Q) : Q :=
  Z.sqrt (Qfloor (x * 1000000000000)) # 1000000.

(** Truncated power series of [exp] (inverted for a negative argument)
    and of [sin]. *)
Definition expSeries (x : Q) : Q :=
  1 + x + x ^ 2 / 2 + x ^ 3 / 6 + x ^ 4 / 24.

Definition expApprox (x : Q) : Q :=
  Qred (if Qle_bool 0 x then expSeries x else 1 / expSeries (- x)).

Definition sinApprox (x : Q) : Q :=
  Qred (x - x ^ 3 / 6 + x ^ 5 / 120).

Definition piApprox : Q := 355 # 113.

Definition meta1 : BuildingMetadata := mkMetadata 3 1995 betonarme "2022-03-14" "SEN-001".
Definition meta2 : BuildingMetadata := mkMetadata 5 1972 yigma "2021-05-20" "SEN-002".
Definition meta3 : BuildingMetadata := mkMetadata 2 2005 celik "2023-01-11" "SEN-003".
Definition meta4 : BuildingMetadata := mkMetadata 6 1965 ahsap "2020-07-25" "SEN-004".

Definition node1 : DemoNode :=
  mkDemoNode "node-1" "Bina 1" Store.stable 41.0290 28.9450 false meta1.
Definition node2 : DemoNode :=
  mkDemoNode "node-2" "Bina 2" Store.stable 41.0300 28.9450 false meta2.
Definition node3 : DemoNode :=
  mkDemoNode "node-3" "Bina 3" Store.stable 41.0290 28.9460 false meta3.
Definition node4 : DemoNode :=
  mkDemoNode "node-4" "Bina 4" Store.stable 41.0295 28.9455 false meta4.

Definition population : list DemoNode := [node1; node2; node3; node4].

(** Every draw of [Math.random()] is 0.5, resp. 0. *)
Definition half : nat -> Q := fun _ => 0.5.
Definition zero : nat -> Q := fun _ => 0.

Definition config : EarthquakeConfig := mkConfig 2.0 5000 41.0290 28.9450.

(** The store after the page is mounted, then during an earthquake in
    which [node-1] has fallen silent while its three neighbours report. *)
Definition mounted : Store.SeismosState :=
  Store.setNodes (map toNode population) zero 0 Store.initialState.

Definition shaking : Store.SeismosState :=
  Store.updateHeartbeat ["node-2"; "node-3"; "node-4"] 2000
    (Store.setEarthquakeActive true mounted).

Definition inferred : Store.SeismosState :=
  Store.checkConsensus sqrtApprox 2500 shaking.


(** The ledger after one event that adds 80 to [node-1] and 5 to
    [node-2]. *)
Definition deltas : gmap string Z := {[ "node-1" := 80%Z; "node-2" := 5%Z ]}.

Definition struck : Store.SeismosState :=
  Store.applyEarthquakeDamage deltas mounted.


(** A host without state of its own, and the world in which the engine
    has been triggered once. *)
Definition idleWorld : World unit := newWorld tt.

Definition quakeWorld : World unit :=
  triggerEarthquake sqrtApprox population config ∅
    (fun _ u => u) (fun _ u => u) half 0 idleWorld.

(** The dashboard as mounted, and after its trigger command. *)
Definition panelWorld : World Dashboard.Panel :=
  Dashboard.mount sqrtApprox expApprox population zero half 0.

Definition quakingPanelWorld : World Dashboard.Panel :=
  Dashboard.step sqrtApprox expApprox sinApprox piApprox population
    (Dashboard.EHandleTriggerEarthquake half) panelWorld.

(** A tracker fed forty samples falling by 1 Hz each, and one fed
    forty samples alternating around 4.5 Hz. *)
Definition feed (samples : list Q) : gmap string BaselineTracker.NodeBaseline
    * option BaselineTracker.FatigueIndicator :=
  fold_left
    (fun acc f =>
       let '(t, ind) := BaselineTracker.update "node-1" f (fst acc) in
       (t, Some ind))
    samples (∅, None).

Definition falling : list Q :=
  map (fun i => inject_Z (50 - Z.of_nat i)) (seq 0 40).

Definition jitter : list Q :=
  map (fun i => if Nat.even i then 5 else 4) (seq 0 40).

End Demo.

(** ** Further concrete worlds *)
Module Scenes.

Import Simulator Demo.
Local Open Scope Q_scope.

(** An engine at the peak of an event (tick 49 of 100 done) in which
    [node-4], already at a total of 50, is to take the demo deltas. *)
Definition peakWorld : World unit :=
  mkWorld (mkSim ∅ (Some 1%nat) None ∅ ∅) []
    {[ 1%nat := QuakeTimer
                  (mkQuakeLoop config {[ "node-4" := 50 ]}
                     (computeDamageResults sqrtApprox population config half 0)
                     49 (fun _ u => u) (fun _ u => u)) ]}
    2 tt.

(** An engine in which the sensor of [node-1] has been silenced. *)
Definition deadWorld : World unit :=
  mkWorld (mkSim ∅ None None {[ "node-1" ]} ∅) [] ∅ 1 tt.

(** The engine after its idle simulation has been started. *)
Definition idlingWorld : World unit :=
  run sqrtApprox expApprox sinApprox piApprox population
    (CStartIdleSimulation half 0) idleWorld.


End Scenes.

(** * Properties *)

(** ** Folds over maps and arrays *)
Section Folds.

Context {V Acc : Type}.

(** An invariant of the locals holds after a [forEach] over a map when
    every iteration on an entry of the map keeps it. *)
Lemma forEach_invariant (P : Acc -> Prop) (m : gmap string V)
    (body : Acc -> string -> V -> Acc) (acc : Acc) :
  P acc ->
  (forall a k v, m !! k = Some v -> P a -> P (body a k v)) ->
  P (JS.forEach m body acc).
Proof.
  intros Hacc Hstep. unfold JS.forEach.
  assert (Hin : forall kv, kv ∈ map_to_list m -> m !! (fst kv) = Some (snd kv)).
  { intros [k v] Hkv. by apply elem_of_map_to_list. }
  revert acc Hacc Hin. generalize (map_to_list m) as l.
  induction l as [|[k v] l IH]; intros acc Hacc Hin; simpl; [done|].
  apply IH.
  - apply Hstep; [|done]. apply (Hin (k, v)). by left.
  - intros kv Hkv. apply Hin. by right.
Qed.

(** The same, the invariant also seeing the keys already visited; at the
    end every key of the map has been visited. *)
Lemma forEach_invariant_seen (P : list string -> Acc -> Prop) (m : gmap string V)
    (body : Acc -> string -> V -> Acc) (acc : Acc) :
  P [] acc ->
  (forall seen a k v, m !! k = Some v -> P seen a -> P (seen ++ [k]) (body a k v)) ->
  exists seen, (forall k, is_Some (m !! k) -> k ∈ seen) /\ P seen (JS.forEach m body acc).
Proof.
  intros Hacc Hstep. unfold JS.forEach.
  assert (Hin : forall kv, kv ∈ map_to_list m -> m !! (fst kv) = Some (snd kv)).
  { intros [k v] Hkv. by apply elem_of_map_to_list. }
  assert (Hall : forall k, is_Some (m !! k) -> k ∈ [] ++ (map_to_list m).*1).
  { intros k [v Hv]. simpl. apply list_elem_of_fmap. exists (k, v).
    split; [done|]. by apply elem_of_map_to_list. }
  revert Hacc Hin Hall. generalize (@nil string) as seen. revert acc.
  generalize (map_to_list m) as l.
  induction l as [|[k v] l IH]; intros acc seen Hacc Hin Hall; simpl.
  - exists seen. split; [|done]. intros k Hk. specialize (Hall k Hk).
    by rewrite app_nil_r in Hall.
  - apply (IH _ (seen ++ [k])).
    + apply Hstep; [|done]. apply (Hin (k, v)). by left.
    + intros kv Hkv. apply Hin. by right.
    + intros j Hj. specialize (Hall j Hj). rewrite <- app_assoc. exact Hall.
Qed.

(** When an iteration on key [k] only changes what is seen at [k], the
    result seen at [i] is that of the one iteration on [i]. *)
Lemma forEach_pointwise {R : Type} (view : Acc -> string -> R)
    (g : string -> V -> R -> R) (m : gmap string V)
    (body : Acc -> string -> V -> Acc) (acc : Acc) (i : string) :
  (forall a k v, m !! k = Some v -> view (body a k v) k = g k v (view a k)) ->
  (forall a k v j, j <> k -> view (body a k v) j = view a j) ->
  view (JS.forEach m body acc) i =
    match m !! i with
    | Some v => g i v (view acc i)
    | None => view acc i
    end.
Proof.
  intros Hat Hother. unfold JS.forEach.
  assert (Hnotin : forall (l : list (string * V)) a, i ∉ l.*1 ->
            view (fold_left (fun a kv => body a (fst kv) (snd kv)) l a) i = view a i).
  { induction l as [|[k v] l IH]; intros a Hi; simpl; [done|].
    rewrite fmap_cons in Hi. apply not_elem_of_cons in Hi as [Hne Hi].
    rewrite IH; [|done]. by apply Hother. }
  destruct (m !! i) as [v|] eqn:Hmi.
  - assert (Hel : (i, v) ∈ map_to_list m) by by apply elem_of_map_to_list.
    assert (Hin : forall kv, kv ∈ map_to_list m -> m !! (fst kv) = Some (snd kv)).
    { intros [k x] Hkv. by apply elem_of_map_to_list. }
    pose proof (NoDup_fst_map_to_list m) as Hnd.
    revert acc Hel Hin Hnd. generalize (map_to_list m) as l.
    induction l as [|[k x] l IH]; intros acc Hel Hin Hnd; simpl.
    + by apply elem_of_nil in Hel.
    + rewrite fmap_cons in Hnd. apply NoDup_cons in Hnd as [Hk Hnd].
      apply elem_of_cons in Hel as [Heq|Hel].
      * injection Heq as <- <-. rewrite Hnotin; [|done].
        apply Hat. apply (Hin (i, v)). by left.
      * assert (i <> k).
        { intros ->. apply Hk. apply list_elem_of_fmap. by exists (k, v). }
        rewrite IH; [|done| |done].
        -- f_equal. by apply Hother.
        -- intros kv Hkv. apply Hin. by right.
  - apply Hnotin. intros Hi. apply list_elem_of_fmap in Hi as [[k x] [-> Hkx]].
    apply elem_of_map_to_list in Hkx. simpl in Hmi. congruence.
Qed.

End Folds.

(** ** Arithmetic of the JavaScript helpers *)

Lemma floor_bounds (x : Q) (a b : Z) :
  (inject_Z a <= x)%Q -> (x < inject_Z b)%Q -> a <= JS.floor x < b.
Proof.
  intros Ha Hb. unfold JS.floor. split.
  - rewrite <- (Qfloor_Z a). by apply Qfloor_resp_le.
  - rewrite Zlt_Qlt. eapply Qle_lt_trans; [apply Qfloor_le | exact Hb].
Qed.

Lemma ltb_spec (x y : Q) : JS.ltb x y = true <-> (x < y)%Q.
Proof.
  unfold JS.ltb. rewrite negb_true_iff, <- not_true_iff_false, Qle_bool_iff.
  split; [apply Qnot_le_lt | apply Qlt_not_le].
Qed.

Lemma gtb_spec (x y : Q) : JS.gtb x y = true <-> (y < x)%Q.
Proof. apply ltb_spec. Qed.

Lemma max_lower (x y : Q) : (x <= JS.max x y)%Q.
Proof.
  unfold JS.max. destruct (Qle_bool x y) eqn:E.
  - by apply Qle_bool_iff.
  - apply Qle_refl.
Qed.

Lemma round_nonneg (x : Q) : (0 <= x)%Q -> 0 <= JS.round x.
Proof.
  intros Hx. unfold JS.round. rewrite <- (Qfloor_Z 0).
  apply Qfloor_resp_le. change (inject_Z 0) with 0%Q. lra.
Qed.

Lemma drawBaseScore_bounds (index : nat) (r : Q) :
  (0 <= r)%Q -> (r < 1)%Q -> 0 <= Store.drawBaseScore index r <= 44.
Proof.
  intros H0 H1. unfold Store.drawBaseScore.
  destruct ((index =? 0)%nat || (index =? 1)%nat).
  - assert (0 <= JS.floor (r * 15) < 15); [|lia].
    apply floor_bounds; unfold inject_Z; lra.
  - assert (0 <= JS.floor (r * 26) < 26); [|lia].
    apply floor_bounds; unfold inject_Z; lra.
Qed.

(** ** The damage ledger *)
Section Ledger.

Import Store StoreAt.

Variable Math_sqrt : Q -> Q.

Lemma applyOne_at acc k v :
  (fst (applyOne acc k v) !! k, snd (applyOne acc k v) !! k) =
  applyAt v (fst acc !! k, snd acc !! k).
Proof.
  destruct acc as [nd nn]. unfold applyOne, applyAt. simpl.
  destruct (nd !! k) as [cur|] eqn:Hcur; simpl; [|by rewrite Hcur].
  destruct (nn !! k) as [node|] eqn:Hnode; simpl.
  - destruct (decide (status node <> collapse_inferred)); simpl;
      by rewrite ?lookup_insert_eq, ?Hnode.
  - by rewrite lookup_insert_eq, Hnode.
Qed.

Lemma applyOne_other acc k v j :
  j <> k ->
  (fst (applyOne acc k v) !! j, snd (applyOne acc k v) !! j) =
  (fst acc !! j, snd acc !! j).
Proof.
  intros Hne. destruct acc as [nd nn]. unfold applyOne. simpl.
  destruct (nd !! k) as [cur|]; simpl; [|done].
  destruct (nn !! k) as [node|]; simpl.
  - destruct (decide (status node <> collapse_inferred)); simpl;
      by rewrite ?lookup_insert_ne.
  - by rewrite lookup_insert_ne.
Qed.

(** The record and the node of building [i] after a delta map is applied. *)
Lemma applyEarthquakeDamage_at damages s i :
  (buildingDamages (applyEarthquakeDamage damages s) !! i,
   nodes (applyEarthquakeDamage damages s) !! i) =
  match damages !! i with
  | Some added => applyAt added (buildingDamages s !! i, nodes s !! i)
  | None => (buildingDamages s !! i, nodes s !! i)
  end.
Proof.
  unfold applyEarthquakeDamage.
  pose proof (forEach_pointwise
    (fun (a : gmap string BuildingDamage * gmap string Node) j =>
       (fst a !! j, snd a !! j))
    (fun _ v r => applyAt v r) damages applyOne
    (buildingDamages s, nodes s) i) as Hpw.
  simpl in Hpw. rewrite <- Hpw.
  - by destruct (JS.forEach damages applyOne (buildingDamages s, nodes s)).
  - intros a k v _. apply applyOne_at.
  - intros a k v j Hne. by apply applyOne_other.
Qed.

Lemma applyEarthquakeDamage_frame damages s :
  isEarthquakeActive (applyEarthquakeDamage damages s) = isEarthquakeActive s /\
  lastHeartbeat (applyEarthquakeDamage damages s) = lastHeartbeat s /\
  consensusEvidence (applyEarthquakeDamage damages s) = consensusEvidence s.
Proof.
  unfold applyEarthquakeDamage.
  by destruct (JS.forEach damages applyOne (buildingDamages s, nodes s)).
Qed.

Lemma ledger_ok_apply (d : BuildingDamage) (added : Z) :
  ledger_ok d -> 0 <= added ->
  ledger_ok (mkDamage (baseScore d) (earthquakeDamage d + added)
               (Z.min 100 (baseScore d + earthquakeDamage d + added))).
Proof. unfold ledger_ok. simpl. lia. Qed.

Lemma ledger_ok_fresh (b : Z) : 0 <= b <= 44 -> ledger_ok (freshDamage b).
Proof. unfold ledger_ok, freshDamage. simpl. lia. Qed.

(** *** [setNodes] *)

Lemma setNodes_damageMap rnd (ns : list Node) :
  forall index (acc : gmap string BuildingDamage),
  let res :=
    JS.forEachIdx
      (fun (dm : gmap string BuildingDamage) node index =>
         <[id node := freshDamage (drawBaseScore index (rnd index))]> dm)
      ns index acc in
  (forall i d, res !! i = Some d ->
     acc !! i = Some d \/ baseScoreOf rnd d) /\
  (forall n, n ∈ ns -> is_Some (res !! id n)) /\
  (forall i, is_Some (acc !! i) -> is_Some (res !! i)).
Proof.
  induction ns as [|n ns IH]; intros index acc; simpl.
  - split; [auto|]. split; [|auto]. intros n Hn. by apply elem_of_nil in Hn.
  - destruct (IH (S index)
        (<[id n := freshDamage (drawBaseScore index (rnd index))]> acc))
      as (H1 & H2 & H3).
    split; [|split].
    + intros i d Hd. destruct (H1 i d Hd) as [Hacc|Hb]; [|by right].
      destruct (decide (id n = i)) as [<-|Hne].
      * rewrite lookup_insert_eq in Hacc. injection Hacc as <-.
        right. by exists index.
      * rewrite lookup_insert_ne in Hacc by done. by left.
    + intros m Hm. apply elem_of_cons in Hm as [->|Hm]; [|by apply H2].
      apply H3. rewrite lookup_insert_eq. by eexists.
    + intros i Hi. apply H3. destruct (decide (id n = i)) as [<-|Hne].
      * rewrite lookup_insert_eq. by eexists.
      * by rewrite lookup_insert_ne.
Qed.

Lemma newMap_lookup {V : Type} (pairs : list (string * V)) i v :
  JS.newMap pairs !! i = Some v -> (i, v) ∈ pairs.
Proof.
  unfold JS.newMap.
  assert (Hgen : forall (acc : gmap string V),
            fold_left (fun m kv => <[fst kv := snd kv]> m) pairs acc !! i = Some v ->
            acc !! i = Some v \/ (i, v) ∈ pairs).
  { induction pairs as [|[k x] pairs IH]; intros acc Hres; simpl in *; [by left|].
    destruct (IH _ Hres) as [Hacc|Hin]; [|right; by right].
    destruct (decide (k = i)) as [<-|Hne].
    - rewrite lookup_insert_eq in Hacc. injection Hacc as <-. right. by left.
    - rewrite lookup_insert_ne in Hacc by done. by left. }
  intros Hres. destruct (Hgen ∅ Hres) as [Hacc|Hin]; [|done].
  by rewrite lookup_empty in Hacc.
Qed.

Lemma setNodes_nodes ns rnd now s i :
  nodes (setNodes ns rnd now s) !! i =
  match buildingDamages (setNodes ns rnd now s) !! i with
  | Some d =>
      (fun node => withStatus node (getStatusFromScore (totalScore d)))
        <$> JS.newMap (map (fun n => (id n, n)) ns) !! i
  | None => JS.newMap (map (fun n => (id n, n)) ns) !! i
  end.
Proof.
  unfold setNodes. simpl.
  apply (forEach_pointwise (fun (nm : gmap string Node) j => nm !! j)
           (fun _ d on =>
              (fun node => withStatus node (getStatusFromScore (totalScore d))) <$> on)).
  - intros a k v _. destruct (a !! k) as [node|] eqn:Hk; simpl.
    + by rewrite lookup_insert_eq.
    + by rewrite Hk.
  - intros a k v j Hne. destruct (a !! k); [|done]. by rewrite lookup_insert_ne.
Qed.

Lemma setNodes_statuses_ok ns rnd now s : statuses_ok (setNodes ns rnd now s).
Proof.
  intros i n Hn. rewrite setNodes_nodes in Hn.
  destruct (buildingDamages (setNodes ns rnd now s) !! i) as [d|] eqn:Hd.
  - exists d. split; [done|].
    destruct (JS.newMap (map (fun n => (id n, n)) ns) !! i) as [node|];
      simpl in Hn; [|done].
    injection Hn as <-. by left.
  - exfalso. apply newMap_lookup, list_elem_of_fmap in Hn as [m [Heq Hm]].
    injection Heq as -> ->.
    destruct (setNodes_damageMap rnd ns 0%nat ∅) as (_ & H2 & _).
    destruct (H2 m Hm) as [d Hd']. unfold setNodes in Hd. simpl in Hd. congruence.
Qed.

Lemma setNodes_ledger_ok ns rnd now s i d :
  JS.random_ok rnd ->
  buildingDamages (setNodes ns rnd now s) !! i = Some d -> ledger_ok d.
Proof.
  intros Hrnd Hd. unfold setNodes in Hd. simpl in Hd.
  destruct (setNodes_damageMap rnd ns 0%nat ∅) as (H1 & _ & _).
  destruct (H1 i d Hd) as [Hacc|[k ->]].
  - by rewrite lookup_empty in Hacc.
  - apply ledger_ok_fresh. destruct (Hrnd k). by apply drawBaseScore_bounds.
Qed.

(** *** [resetToSafe] *)

Lemma resetToSafe_components rnd now s :
  nodes (resetToSafe rnd now s) = fst (fst (fst (resetLoop rnd s))) /\
  buildingDamages (resetToSafe rnd now s) = snd (fst (fst (resetLoop rnd s))).
Proof.
  unfold resetToSafe. by destruct (resetLoop rnd s) as [[[nn nd] sc] ix].
Qed.

Lemma resetLoop_spec rnd s :
  exists seen : list string,
    (forall k, is_Some (nodes s !! k) -> k ∈ seen) /\
    forall i,
      (i ∈ seen ->
         exists n0 k,
           fst (fst (fst (resetLoop rnd s))) !! i =
             Some (withStatus n0 (getStatusFromScore (drawBaseScore k (rnd k)))) /\
           snd (fst (fst (resetLoop rnd s))) !! i =
             Some (freshDamage (drawBaseScore k (rnd k)))) /\
      (i ∉ seen ->
         snd (fst (fst (resetLoop rnd s))) !! i = None /\
         fst (fst (fst (resetLoop rnd s))) !! i = nodes s !! i).
Proof.
  unfold resetLoop.
  apply (forEach_invariant_seen
    (fun seen (acc : gmap string Node * gmap string BuildingDamage
                     * gmap string Z * nat) =>
       forall i,
         (i ∈ seen ->
            exists n0 k,
              fst (fst (fst acc)) !! i =
                Some (withStatus n0 (getStatusFromScore (drawBaseScore k (rnd k)))) /\
              snd (fst (fst acc)) !! i =
                Some (freshDamage (drawBaseScore k (rnd k)))) /\
         (i ∉ seen ->
            snd (fst (fst acc)) !! i = None /\
            fst (fst (fst acc)) !! i = nodes s !! i))).
  - intros i. simpl. split; [intros Hi; by apply elem_of_nil in Hi|].
    intros _. by rewrite lookup_empty.
  - intros seen [[[nn nd] sc] ix] k v Hkv IH i. simpl.
    destruct (decide (i = k)) as [->|Hne].
    + split.
      * intros _. exists v, ix. by rewrite !lookup_insert_eq.
      * intros Hnot. exfalso. apply Hnot. apply elem_of_app. right. by left.
    + rewrite !lookup_insert_ne by done. destruct (IH i) as [IH1 IH2]. split.
      * intros Hi. apply elem_of_app in Hi as [Hi|Hi]; [by apply IH1|].
        apply list_elem_of_singleton in Hi. done.
      * intros Hnot. apply IH2. intros Hi. apply Hnot. apply elem_of_app. by left.
Qed.

Lemma resetToSafe_statuses_ok rnd now s : statuses_ok (resetToSafe rnd now s).
Proof.
  destruct (resetToSafe_components rnd now s) as [Hn Hd].
  destruct (resetLoop_spec rnd s) as (seen & Hall & Hspec).
  intros i n Hi. rewrite Hn in Hi. rewrite Hd.
  destruct (Hspec i) as [Hin Hout].
  destruct (decide (i ∈ seen)) as [Hseen|Hseen].
  - destruct (Hin Hseen) as (n0 & k & Hnn & Hnd). rewrite Hnd.
    eexists. split; [done|]. rewrite Hnn in Hi. injection Hi as <-. by left.
  - destruct (Hout Hseen) as [_ Hsame]. rewrite Hsame in Hi.
    exfalso. apply Hseen, Hall. by eexists.
Qed.

Lemma resetToSafe_ledger_ok rnd now s i d :
  JS.random_ok rnd ->
  buildingDamages (resetToSafe rnd now s) !! i = Some d -> ledger_ok d.
Proof.
  intros Hrnd Hi.
  destruct (resetToSafe_components rnd now s) as [_ Hd]. rewrite Hd in Hi.
  destruct (resetLoop_spec rnd s) as (seen & _ & Hspec).
  destruct (Hspec i) as [Hin Hout].
  destruct (decide (i ∈ seen)) as [Hseen|Hseen].
  - destruct (Hin Hseen) as (n0 & k & _ & Hnd). rewrite Hnd in Hi.
    injection Hi as <-. apply ledger_ok_fresh.
    destruct (Hrnd k). by apply drawBaseScore_bounds.
  - destruct (Hout Hseen) as [Hnone _]. congruence.
Qed.

(** *** [checkConsensus] *)

Lemma consensusStep_at now s acc k v :
  (fst (fst (consensusStep Math_sqrt now s acc k v)) !! k,
   snd (fst (consensusStep Math_sqrt now s acc k v)) !! k) =
  consensusAt Math_sqrt now s k v (fst (fst acc) !! k, snd (fst acc) !! k).
Proof.
  destruct acc as [[nn ne] hc]. unfold consensusStep, consensusAt. cbn [fst snd].
  destruct (isSilent now s k && bool_decide (status v <> collapse)
            && bool_decide (status v <> collapse_inferred)).
  - destruct (isEarthquakeActive s); [|done].
    destruct (3 <=? length (findWitnesses Math_sqrt now s k v))%nat; [|done].
    cbn [fst snd]. by rewrite !lookup_insert_eq.
  - destruct (negb (isSilent now s k) && bool_decide (status v = collapse_inferred));
      [|done].
    destruct (buildingDamages s !! k); [|done].
    cbn [fst snd]. by rewrite lookup_insert_eq, lookup_delete_eq.
Qed.

Lemma consensusStep_other now s acc k v j :
  j <> k ->
  (fst (fst (consensusStep Math_sqrt now s acc k v)) !! j,
   snd (fst (consensusStep Math_sqrt now s acc k v)) !! j) =
  (fst (fst acc) !! j, snd (fst acc) !! j).
Proof.
  intros Hne. destruct acc as [[nn ne] hc]. unfold consensusStep. cbn [fst snd].
  destruct (isSilent now s k && bool_decide (status v <> collapse)
            && bool_decide (status v <> collapse_inferred)).
  - destruct (isEarthquakeActive s); [|done].
    destruct (3 <=? length (findWitnesses Math_sqrt now s k v))%nat; [|done].
    cbn [fst snd]. by rewrite !lookup_insert_ne.
  - destruct (negb (isSilent now s k) && bool_decide (status v = collapse_inferred));
      [|done].
    destruct (buildingDamages s !! k); [|done].
    cbn [fst snd]. by rewrite lookup_insert_ne, lookup_delete_ne.
Qed.

(** When no iteration reports a change, the copies are the originals. *)
Lemma consensusStep_unchanged now s :
  let res := JS.forEach (nodes s) (consensusStep Math_sqrt now s)
               (nodes s, consensusEvidence s, false) in
  snd res = false ->
  fst (fst res) = nodes s /\ snd (fst res) = consensusEvidence s.
Proof.
  apply (forEach_invariant
    (fun acc : gmap string Node * gmap string (list string) * bool =>
       snd acc = false ->
       fst (fst acc) = nodes s /\ snd (fst acc) = consensusEvidence s)).
  - done.
  - intros [[nn ne] hc] k v _ IH. unfold consensusStep.
    destruct (isSilent now s k && bool_decide (status v <> collapse)
              && bool_decide (status v <> collapse_inferred)).
    + destruct (isEarthquakeActive s); [|done].
      by destruct (3 <=? length (findWitnesses Math_sqrt now s k v))%nat.
    + destruct (negb (isSilent now s k)
                && bool_decide (status v = collapse_inferred)); [|done].
      by destruct (buildingDamages s !! k).
Qed.

(** The node and the evidence of building [i] after a consensus check. *)
Lemma checkConsensus_at now s i :
  (nodes (checkConsensus Math_sqrt now s) !! i,
   consensusEvidence (checkConsensus Math_sqrt now s) !! i) =
  match nodes s !! i with
  | Some node =>
      consensusAt Math_sqrt now s i node (nodes s !! i, consensusEvidence s !! i)
  | None => (nodes s !! i, consensusEvidence s !! i)
  end.
Proof.
  pose proof (forEach_pointwise
    (fun (a : gmap string Node * gmap string (list string) * bool) j =>
       (fst (fst a) !! j, snd (fst a) !! j))
    (fun k v r => consensusAt Math_sqrt now s k v r) (nodes s)
    (consensusStep Math_sqrt now s)
    (nodes s, consensusEvidence s, false) i) as Hpw.
  simpl in Hpw. rewrite <- Hpw.
  - pose proof (consensusStep_unchanged now s) as Hun. simpl in Hun.
    unfold checkConsensus.
    destruct (JS.forEach (nodes s) (consensusStep Math_sqrt now s)
                (nodes s, consensusEvidence s, false)) as [[nn ne] hc].
    destruct hc; simpl; [done|].
    destruct (Hun eq_refl) as [Hn He]. simpl in Hn, He. by rewrite Hn, He.
  - intros a k v _. apply consensusStep_at.
  - intros a k v j Hne. by apply consensusStep_other.
Qed.

Lemma checkConsensus_frame now s :
  buildingDamages (checkConsensus Math_sqrt now s) = buildingDamages s.
Proof.
  unfold checkConsensus.
  destruct (JS.forEach (nodes s) (consensusStep Math_sqrt now s)
              (nodes s, consensusEvidence s, false)) as [[nn ne] hc].
  by destruct hc.
Qed.

(** The active set holds exactly the nodes with a young heartbeat. *)
Lemma activeNodeIds_spec now s w :
  w ∈ activeNodeIds now s <->
  exists time, lastHeartbeat s !! w = Some time /\ now - time < SILENCE_THRESHOLD.
Proof.
  assert (Hb : bool_decide (w ∈ activeNodeIds now s) =
               match lastHeartbeat s !! w with
               | Some time =>
                   if now - time <? SILENCE_THRESHOLD then true
                   else bool_decide (w ∈ (∅ : gset string))
               | None => bool_decide (w ∈ (∅ : gset string))
               end).
  { unfold activeNodeIds.
    pose proof (forEach_pointwise
      (fun (act : gset string) (j : string) => bool_decide (j ∈ act))
      (fun _ time r => if now - time <? SILENCE_THRESHOLD then true else r)
      (lastHeartbeat s)
      (fun (act : gset string) i time =>
         if now - time <? SILENCE_THRESHOLD then {[i]} ∪ act else act)
      ∅ w) as Hpw.
    apply Hpw.
    - intros a k v _. destruct (now - v <? SILENCE_THRESHOLD); [|done].
      apply bool_decide_eq_true. set_solver.
    - intros a k v j Hne. destruct (now - v <? SILENCE_THRESHOLD); [|done].
      apply bool_decide_ext. rewrite elem_of_union, elem_of_singleton.
      split; [intros [?|?]; done | by right]. }
  split.
  - intros Hw. pose proof (bool_decide_eq_true_2 _ Hw) as Hw'.
    clear Hw. rename Hw' into Hw. rewrite Hb in Hw.
    destruct (lastHeartbeat s !! w) as [time|].
    + destruct (now - time <? SILENCE_THRESHOLD) eqn:E.
      * exists time. split; [done|]. lia.
      * apply bool_decide_eq_true_1 in Hw. set_solver.
    + apply bool_decide_eq_true_1 in Hw. set_solver.
  - intros (time & Ht & Hlt). apply (bool_decide_eq_true_1 (w ∈ activeNodeIds now s)).
    rewrite Hb, Ht. destruct (now - time <? SILENCE_THRESHOLD) eqn:E; [done|lia].
Qed.

(** The witness list is the sub-list of the node keys that pass the
    three tests, in visiting order. *)
Lemma findWitnesses_filter now s nodeId node :
  findWitnesses Math_sqrt now s nodeId node =
  (filter
     (fun kv : string * Node =>
        nodeId <> fst kv /\ fst kv ∈ activeNodeIds now s /\
        JS.ltb (dist Math_sqrt node (snd kv)) NEIGHBOR_RADIUS = true)
     (map_to_list (nodes s))).*1.
Proof.
  unfold findWitnesses, JS.forEach.
  rewrite <- (app_nil_l (_.*1)). generalize (@nil string) as acc.
  induction (map_to_list (nodes s)) as [|[k v] l IH]; intros acc; simpl.
  - by rewrite app_nil_r.
  - rewrite IH. unfold witnessStep. rewrite filter_cons. simpl.
    destruct (decide (nodeId = k)) as [->|Hne].
    + rewrite decide_False; [done|]. by intros [? _].
    + destruct (decide (k ∈ activeNodeIds now s)) as [Hact|Hact].
      * destruct (JS.ltb (dist Math_sqrt node v) NEIGHBOR_RADIUS) eqn:E.
        -- rewrite decide_True by done. simpl. by rewrite <- app_assoc.
        -- rewrite decide_False; [done|]. intros (_ & _ & ?). congruence.
      * rewrite decide_False; [done|]. by intros (_ & ? & _).
Qed.

Lemma findWitnesses_NoDup now s nodeId node :
  NoDup (findWitnesses Math_sqrt now s nodeId node).
Proof.
  rewrite findWitnesses_filter.
  eapply sublist_NoDup; [apply (NoDup_fst_map_to_list (nodes s))|].
  apply fmap_sublist, sublist_filter.
Qed.

Lemma findWitnesses_isWitness now s nodeId node w :
  w ∈ findWitnesses Math_sqrt now s nodeId node ->
  isWitness Math_sqrt now s nodeId node w.
Proof.
  rewrite findWitnesses_filter. intros Hw.
  apply list_elem_of_fmap in Hw as [[k v] [-> Hkv]].
  apply list_elem_of_filter in Hkv as [(Hne & Hact & Hnear) Hin]. simpl in *.
  apply elem_of_map_to_list in Hin.
  apply activeNodeIds_spec in Hact as (time & Ht & Hlt).
  split; [done|]. exists v, time. repeat split; try done. by apply ltb_spec.
Qed.

(** *** Invariants of the reachable states *)

Lemma getStatusFromScore_thresholds (score : Z) :
  (90 <= score -> getStatusFromScore score = collapse) /\
  (70 <= score < 90 -> getStatusFromScore score = critical) /\
  (30 <= score < 70 -> getStatusFromScore score = warning) /\
  (15 <= score < 30 -> getStatusFromScore score = anomaly) /\
  (score < 15 -> getStatusFromScore score = stable).
Proof.
  unfold getStatusFromScore.
  destruct (Z.leb_spec 90 score), (Z.leb_spec 70 score),
    (Z.leb_spec 30 score), (Z.leb_spec 15 score);
    repeat split; intros; first [reflexivity | lia].
Qed.

Lemma applyEarthquakeDamage_statuses_ok damages s :
  statuses_ok s -> statuses_ok (applyEarthquakeDamage damages s).
Proof.
  intros Hs i n Hn.
  pose proof (applyEarthquakeDamage_at damages s i) as Hat.
  rewrite Hn in Hat.
  destruct (damages !! i) as [added|].
  - unfold applyAt in Hat. simpl in Hat.
    destruct (buildingDamages s !! i) as [cur|] eqn:Hcur.
    + destruct (nodes s !! i) as [node|] eqn:Hnode; [|by injection Hat].
      destruct (decide (status node <> collapse_inferred)) as [Hst|Hst];
        injection Hat as Hd Hnn; subst n; rewrite Hd; eexists; (split; [done|]).
      * by left.
      * right. by destruct (decide (status node = collapse_inferred)).
    + injection Hat as Hd Hnn. symmetry in Hnn.
      destruct (Hs i n Hnn) as (d & Hd' & _). congruence.
  - injection Hat as Hd Hnn. symmetry in Hnn. rewrite Hd. by apply Hs.
Qed.

Lemma checkConsensus_statuses_ok now s :
  statuses_ok s -> statuses_ok (checkConsensus Math_sqrt now s).
Proof.
  intros Hs i n Hn. rewrite checkConsensus_frame.
  pose proof (checkConsensus_at now s i) as Hat. rewrite Hn in Hat.
  destruct (nodes s !! i) as [node|] eqn:Hnode; [|by injection Hat].
  destruct (Hs i node Hnode) as (d & Hd & Hok).
  exists d. split; [done|]. unfold consensusAt in Hat. rewrite Hd in Hat.
  repeat match type of Hat with
         | context [if ?b then _ else _] => destruct b
         end; injection Hat as Hnn _; subst n;
    first [exact Hok | by right | by left].
Qed.

Lemma dispatch_statuses_ok a s :
  statuses_ok s -> statuses_ok (dispatch Math_sqrt a s).
Proof.
  intros Hs. destruct a; cbn [dispatch]; try exact Hs.
  - apply setNodes_statuses_ok.
  - by apply checkConsensus_statuses_ok.
  - by apply applyEarthquakeDamage_statuses_ok.
  - apply resetToSafe_statuses_ok.
Qed.

Lemma reachable_statuses_ok ok s :
  reachable Math_sqrt ok s -> statuses_ok s.
Proof.
  induction 1 as [|s a _ IH _].
  - intros i n Hn. simpl in Hn. by rewrite lookup_empty in Hn.
  - by apply dispatch_statuses_ok.
Qed.

Lemma applyEarthquakeDamage_ledger_ok damages s :
  deltaMap damages ->
  (forall i d, buildingDamages s !! i = Some d -> ledger_ok d) ->
  forall i d, buildingDamages (applyEarthquakeDamage damages s) !! i = Some d ->
    ledger_ok d.
Proof.
  intros Hdelta Hs i d Hd.
  pose proof (applyEarthquakeDamage_at damages s i) as Hat. rewrite Hd in Hat.
  destruct (damages !! i) as [added|] eqn:Hadd.
  - unfold applyAt in Hat. simpl in Hat.
    destruct (buildingDamages s !! i) as [cur|] eqn:Hcur; [|by injection Hat].
    injection Hat as -> _. apply ledger_ok_apply; eauto.
  - injection Hat as Hd' _. symmetry in Hd'. by apply (Hs i).
Qed.

Lemma dispatch_ledger_ok a s :
  admissible a ->
  (forall i d, buildingDamages s !! i = Some d -> ledger_ok d) ->
  forall i d, buildingDamages (dispatch Math_sqrt a s) !! i = Some d -> ledger_ok d.
Proof.
  intros Hadm Hs. destruct a; cbn [dispatch admissible] in *; try exact Hs.
  - intros i d. by apply setNodes_ledger_ok.
  - intros i d. rewrite checkConsensus_frame. apply Hs.
  - by apply applyEarthquakeDamage_ledger_ok.
  - intros i d. by apply resetToSafe_ledger_ok.
Qed.

(** C1. In every state reached from the initial store by [setNodes],
    [applyEarthquakeDamage] on delta maps, [resetToSafe] and the other
    actions, every damage record has [0 <= totalScore <= 100] and
    [totalScore = min(100, baseScore + earthquakeDamage)]. *)
Theorem C1_total_score_invariant (s : SeismosState) (i : string)
    (d : BuildingDamage) :
  reachable Math_sqrt admissible s ->
  buildingDamages s !! i = Some d ->
  0 <= totalScore d <= 100 /\
  totalScore d = Z.min 100 (baseScore d + earthquakeDamage d).
Proof.
  intros Hreach. revert i d.
  induction Hreach as [|s a _ IH Hadm]; intros i d Hd.
  - simpl in Hd. by rewrite lookup_empty in Hd.
  - by apply (dispatch_ledger_ok a s Hadm IH i d).
Qed.

(** C2. In every reachable state the status of a building is the one
    that the thresholds give for its total score ([collapse] from 90,
    [critical] from 70, [warning] from 30, [anomaly] from 15, else
    [stable]), unless it is the INSD status [collapse_inferred]; so a
    building whose total score is at least 90 is [collapse] unless it is
    [collapse_inferred]. *)
Theorem C2_status_derived_from_score (s : SeismosState) (i : string) (n : Node) :
  reachable Math_sqrt (fun _ => True) s ->
  nodes s !! i = Some n ->
  exists d,
    buildingDamages s !! i = Some d /\
    (status n <> collapse_inferred ->
       status n = getStatusFromScore (totalScore d) /\
       (90 <= totalScore d -> status n = collapse) /\
       (70 <= totalScore d < 90 -> status n = critical) /\
       (30 <= totalScore d < 70 -> status n = warning) /\
       (15 <= totalScore d < 30 -> status n = anomaly) /\
       (totalScore d < 15 -> status n = stable)).
Proof.
  intros Hreach Hn.
  destruct (reachable_statuses_ok _ s Hreach i n Hn) as (d & Hd & Hok).
  exists d. split; [done|]. intros Hne.
  destruct Hok as [Hst|Hst]; [|done].
  split; [exact Hst|]. rewrite Hst. apply getStatusFromScore_thresholds.
Qed.

(** C3. When a consensus check gives a building the status
    [collapse_inferred] that it did not have, an earthquake is active,
    the building is silent, and the recorded evidence lists at least 3
    distinct other buildings, each with a heartbeat younger than the
    silence threshold and closer than the neighbour radius. *)
Theorem C3_inferred_collapse_needs_quake_and_witnesses
    (now : Z) (s : SeismosState) (i : string) (n' : Node) :
  nodes (checkConsensus Math_sqrt now s) !! i = Some n' ->
  status n' = collapse_inferred ->
  (forall n, nodes s !! i = Some n -> status n <> collapse_inferred) ->
  exists n ws,
    nodes s !! i = Some n /\
    isEarthquakeActive s = true /\
    isSilent now s i = true /\
    consensusEvidence (checkConsensus Math_sqrt now s) !! i = Some ws /\
    NoDup ws /\
    (3 <= length ws)%nat /\
    forall w, w ∈ ws -> isWitness Math_sqrt now s i n w.
Proof.
  intros Hn' Hst Hbefore.
  pose proof (checkConsensus_at now s i) as Hat. rewrite Hn' in Hat.
  destruct (nodes s !! i) as [n|] eqn:Hn; [|by injection Hat].
  specialize (Hbefore n eq_refl).
  exists n, (findWitnesses Math_sqrt now s i n).
  unfold consensusAt in Hat.
  destruct (isSilent now s i) eqn:Hsil; cbn [andb negb] in Hat.
  - destruct (bool_decide (status n <> collapse)
              && bool_decide (status n <> collapse_inferred)).
    + destruct (isEarthquakeActive s) eqn:Hact.
      * destruct (3 <=? length (findWitnesses Math_sqrt now s i n))%nat eqn:Hlen.
        -- injection Hat as _ Hev. do 4 (split; [done|]).
           split; [apply findWitnesses_NoDup|].
           split; [by apply Nat.leb_le|].
           intros w. apply findWitnesses_isWitness.
        -- injection Hat as Hnn _. by subst n'.
      * injection Hat as Hnn _. by subst n'.
    + injection Hat as Hnn _. by subst n'.
  - rewrite (bool_decide_eq_false_2 _ Hbefore) in Hat.
    injection Hat as Hnn _. by subst n'.
Qed.

Lemma dispatch_damage_monotone
    (a : Action) (s : SeismosState) (i : string) (d : BuildingDamage) :
  admissible a ->
  reinitialises a = false ->
  buildingDamages s !! i = Some d ->
  exists d',
    buildingDamages (dispatch Math_sqrt a s) !! i = Some d' /\
    earthquakeDamage d <= earthquakeDamage d' /\
    forall damages, a = AApplyEarthquakeDamage damages ->
      earthquakeDamage d' = earthquakeDamage d + default 0 (damages !! i).
Proof.
  intros Hadm Hre Hd.
  destruct a; cbn [dispatch admissible reinitialises] in *; try done;
    try (exists d; split; [exact Hd|]; split; [lia|]; by intros ? [=]).
  - exists d. rewrite checkConsensus_frame. split; [exact Hd|].
    split; [lia|]. by intros ? [=].
  - pose proof (applyEarthquakeDamage_at damages s i) as Hat.
    rewrite Hd in Hat.
    destruct (damages !! i) as [added|] eqn:Hadd.
    + unfold applyAt in Hat. cbn [fst snd] in Hat. injection Hat as Hd' _.
      eexists. split; [exact Hd'|]. simpl. specialize (Hadm i added Hadd).
      split; [lia|]. intros ? [= <-]. by rewrite Hadd.
    + injection Hat as Hd' _. exists d. split; [done|]. split; [lia|].
      intros ? [= <-]. rewrite Hadd. simpl. lia.
Qed.

(** C4. Applying a delta map adds to the [earthquakeDamage] of every
    building its delta, so never decreases it; and no action of the
    store other than a reinitialisation ([setNodes], [resetToSafe])
    decreases it. *)
Theorem C4_earthquake_damage_never_decreases
    (damages : gmap string Z) (s : SeismosState) (i : string)
    (d : BuildingDamage) :
  deltaMap damages ->
  buildingDamages s !! i = Some d ->
  (exists d',
     buildingDamages (applyEarthquakeDamage damages s) !! i = Some d' /\
     earthquakeDamage d' = earthquakeDamage d + default 0 (damages !! i) /\
     earthquakeDamage d <= earthquakeDamage d') /\
  (forall a, admissible a -> reinitialises a = false ->
     exists d',
       buildingDamages (dispatch Math_sqrt a s) !! i = Some d' /\
       earthquakeDamage d <= earthquakeDamage d').
Proof.
  intros Hdelta Hd. split.
  - destruct (dispatch_damage_monotone (AApplyEarthquakeDamage damages) s i d
                Hdelta eq_refl Hd) as (d' & Hd' & Hle & Heq).
    exists d'. split; [exact Hd'|]. split; [by apply Heq|exact Hle].
  - intros a Hadm Hre.
    destruct (dispatch_damage_monotone a s i d Hadm Hre Hd) as (d' & Hd' & Hle & _).
    by exists d'.
Qed.


End Ledger.

(** ** The earthquake engine and the reading synthesizer *)
Section EngineProps.

Import Simulator.

Variables Math_sqrt Math_exp : Q -> Q.
Variable DEMO_NODES : list DemoNode.


Lemma vulnerability_pos (meta : BuildingMetadata) : (1 <= vulnerability meta)%Q.
Proof.
  unfold vulnerability. cbv zeta.
  destruct (decide (structureType meta = yigma)),
    (decide (structureType meta = ahsap)),
    (yearBuilt meta <? 1980), (4 <? floors meta); lra.
Qed.

Lemma distanceFactor_lower (config : EarthquakeConfig) (node : DemoNode) :
  (0.2 <= distanceFactor Math_sqrt config node)%Q.
Proof. unfold distanceFactor. apply max_lower. Qed.

Lemma rawDamage_nonneg (config : EarthquakeConfig) (node : DemoNode) (r : Q) :
  (0 <= intensity config)%Q -> (0 <= r)%Q ->
  0 <= rawDamage Math_sqrt config node r.
Proof.
  intros Hi Hr. unfold rawDamage. apply round_nonneg.
  pose proof (distanceFactor_lower config node) as Hdf.
  pose proof (vulnerability_pos (metadata node)) as Hv.
  repeat apply Qmult_le_0_compat; lra.
Qed.

Lemma damageFor_range (config : EarthquakeConfig) (node : DemoNode) (r : Q) :
  (0 <= intensity config)%Q -> (0 <= r)%Q ->
  0 <= damageFor Math_sqrt config node r <= 100.
Proof.
  intros Hi Hr. pose proof (rawDamage_nonneg config node r Hi Hr).
  unfold damageFor. lia.
Qed.


(** Every entry of the damage map of an event is the delta of a node of
    the population, and every node of the population has an entry. *)
Lemma computeDamageResults_entries (config : EarthquakeConfig)
    (rnd : nat -> Q) (k : nat) :
  (forall i d, computeDamageResults Math_sqrt DEMO_NODES config rnd k !! i = Some d ->
     exists node index,
       DEMO_NODES !! index = Some node /\ id node = i /\
       d = damageFor Math_sqrt config node (rnd (k + index)%nat)) /\
  (forall node, node ∈ DEMO_NODES ->
     is_Some (computeDamageResults Math_sqrt DEMO_NODES config rnd k !! id node)).
Proof.
  unfold computeDamageResults.
  assert (Hgen : forall (l pre : list DemoNode) (acc : gmap string Z),
    DEMO_NODES = pre ++ l ->
    let res :=
      JS.forEachIdx
        (fun (res : gmap string Z) node index =>
           <[id node := damageFor Math_sqrt config node (rnd (k + index)%nat)]> res)
        l (length pre) acc in
    (forall i d, res !! i = Some d ->
       acc !! i = Some d \/
       exists node index,
         DEMO_NODES !! index = Some node /\ id node = i /\
         d = damageFor Math_sqrt config node (rnd (k + index)%nat)) /\
    (forall node, node ∈ l -> is_Some (res !! id node)) /\
    (forall i, is_Some (acc !! i) -> is_Some (res !! i))).
  { induction l as [|n l IH]; intros pre acc Hsplit; simpl.
    - split; [auto|]. split; [|auto]. intros m Hm. by apply elem_of_nil in Hm.
    - destruct (IH (pre ++ [n])
          (<[id n := damageFor Math_sqrt config n (rnd (k + length pre)%nat)]> acc))
        as (H1 & H2 & H3).
      { by rewrite <- app_assoc. }
      rewrite length_app in H1, H2, H3. simpl in H1, H2, H3.
      rewrite Nat.add_1_r in H1, H2, H3.
      split; [|split].
      + intros i d Hd. destruct (H1 i d Hd) as [Hacc|Hex]; [|by right].
        destruct (decide (id n = i)) as [<-|Hne].
        * rewrite lookup_insert_eq in Hacc. injection Hacc as <-.
          right. exists n, (length pre). split; [|done].
          rewrite Hsplit. by apply list_lookup_middle.
        * rewrite lookup_insert_ne in Hacc by done. by left.
      + intros m Hm. apply elem_of_cons in Hm as [->|Hm]; [|by apply H2].
        apply H3. rewrite lookup_insert_eq. by eexists.
      + intros i Hi. apply H3. destruct (decide (id n = i)) as [<-|Hne].
        * rewrite lookup_insert_eq. by eexists.
        * by rewrite lookup_insert_ne. }
  destruct (Hgen DEMO_NODES [] ∅ eq_refl) as (H1 & H2 & _). simpl in H1, H2.
  split; [|exact H2].
  intros i d Hd. destruct (H1 i d Hd) as [Hacc|Hex]; [|done].
  by rewrite lookup_empty in Hacc.
Qed.

(** The damage map of an event is a delta map. *)
Lemma computeDamageResults_deltaMap (config : EarthquakeConfig)
    (rnd : nat -> Q) (k : nat) :
  (0 <= intensity config)%Q -> JS.random_ok rnd ->
  forall i d, computeDamageResults Math_sqrt DEMO_NODES config rnd k !! i = Some d ->
    0 <= d <= 100.
Proof.
  intros Hi Hrnd i d Hd.
  destruct (computeDamageResults_entries config rnd k) as [Hent _].
  destruct (Hent i d Hd) as (node & index & _ & _ & ->).
  destruct (Hrnd (k + index)%nat).
  by apply damageFor_range.
Qed.

(** The map computed at trigger time is the one the interval keeps and
    hands to [onComplete]: a tick never changes it. *)
Lemma triggerEarthquake_registers {H : Type} (config : EarthquakeConfig)
    (scores : gmap string Q) (onProgress : Q -> H -> H)
    (onComplete : gmap string Z -> H -> H) (rnd : nat -> Q) (k : nat)
    (w : World H) :
  let w' := triggerEarthquake Math_sqrt DEMO_NODES config scores
              onProgress onComplete rnd k w in
  timers w' !! nextHandle w =
    Some (QuakeTimer
            (mkQuakeLoop config scores
               (computeDamageResults Math_sqrt DEMO_NODES config rnd k) 0
               onProgress onComplete)) /\
  earthquakeInterval (sim w') = Some (nextHandle w) /\
  nextHandle w' = S (nextHandle w).
Proof. simpl. by rewrite lookup_insert_eq. Qed.




(** The idle reading of a building without a damage entry is that of an
    undamaged one. *)
Lemma idle_frequency_unknown (sm : EarthquakeSimulator) (nodeId : string)
    (rnd : nat -> Q) (k : nat) (now : Z) :
  currentDamages sm !! nodeId = None ->
  frequency (generateIdleReading Math_sqrt Math_exp sm nodeId rnd k now)
  == 4.5 + rnd (k + 23)%nat * 0.2.
Proof.
  intros Hd. unfold generateIdleReading, damageOf. rewrite Hd.
  cbn [frequency].
  assert (Hzero : baseFrequency 0 == 4.5) by (vm_compute; reflexivity).
  by rewrite Hzero.
Qed.

(** The earlier revision of the engine stays within the same range. *)
Lemma earlierDamageFor_range (config : EarthquakeConfig) (nodeLat nodeLng r : Q) :
  (0 <= intensity config)%Q -> (0 <= r)%Q ->
  0 <= earlierDamageFor Math_sqrt config nodeLat nodeLng r <= 70.
Proof.
  intros Hi Hr. unfold earlierDamageFor. cbv zeta.
  match goal with
  | |- context [JS.round ?x] => assert (Hraw : 0 <= JS.round x)
  end; [|lia].
  apply round_nonneg.
  match goal with
  | |- context [JS.max 0.2 ?x] => pose proof (max_lower 0.2 x) as Hdf
  end.
  repeat apply Qmult_le_0_compat; lra.
Qed.

End EngineProps.

(** ** The fatigue tracker *)
Section TrackerProps.

Import BaselineTracker.

Lemma fatigue_warning_iff
    (nodeId : string) (baseline : NodeBaseline) (current : Q) :
  hasWarning (calculateFatigueIndicator nodeId baseline current) = true <->
  (minSamplesForFatigue <= length (frequencyHistory baseline))%nat /\
  (fst (linearRegression (frequencyHistory baseline)) < - 0.005)%Q /\
  (0.3 < snd (linearRegression (frequencyHistory baseline)))%Q.
Proof.
  unfold calculateFatigueIndicator.
  destruct (length (frequencyHistory baseline) <? minSamplesForFatigue)%nat eqn:E.
  - apply Nat.ltb_lt in E. cbn [hasWarning]. split; [done|]. intros [? _]. lia.
  - apply Nat.ltb_ge in E.
    destruct (linearRegression (frequencyHistory baseline)) as [slope rSquared].
    cbn [hasWarning fst snd].
    rewrite andb_true_iff, ltb_spec, gtb_spec. tauto.
Qed.


(** The indicator that [update] returns is computed from the history it
    stores, which never exceeds the window size. *)
Lemma update_indicator (nodeId : string) (freq : Q)
    (nodeBaselines : gmap string NodeBaseline) :
  exists baseline,
    fst (update nodeId freq nodeBaselines) !! nodeId = Some baseline /\
    snd (update nodeId freq nodeBaselines) =
      calculateFatigueIndicator nodeId baseline freq /\
    (length (frequencyHistory baseline) <= historyWindowSize)%nat /\
    last (frequencyHistory baseline) = Some freq.
Proof.
  unfold update. cbn [fst snd]. rewrite lookup_insert_eq.
  set (old := default (mkBaseline [] None false) (nodeBaselines !! nodeId)).
  set (history := trim (frequencyHistory old ++ [freq])).
  assert (Hlen : (length history <= historyWindowSize)%nat).
  { unfold history, trim. rewrite length_drop. lia. }
  assert (Hlast : last history = Some freq).
  { unfold history, trim. rewrite drop_app_le.
    - by rewrite last_snoc.
    - rewrite length_app. unfold historyWindowSize. simpl. lia. }
  destruct (negb (isBaselineSet old) && (baselineWindowSize <=? length history)%nat);
    eexists; (split; [reflexivity|]); (split; [reflexivity|]); done.
Qed.

(** No warning below the minimum sample count. *)
Lemma no_warning_below_min_samples (nodeId : string) (baseline : NodeBaseline)
    (current : Q) :
  (length (frequencyHistory baseline) < minSamplesForFatigue)%nat ->
  hasWarning (calculateFatigueIndicator nodeId baseline current) = false.
Proof.
  intros Hlt. apply not_true_is_false. intros Hw.
  apply fatigue_warning_iff in Hw. lia.
Qed.

End TrackerProps.

(** ** The simulator and its host *)
Section WorldProps.

Import Simulator.

Variables Math_sqrt Math_exp Math_sin : Q -> Q.
Variable Math_PI : Q.
Variable DEMO_NODES : list DemoNode.
Context {H : Type}.

Local Abbreviation known := (known DEMO_NODES).
Local Abbreviation readings_known := (readings_known DEMO_NODES).
Local Abbreviation dead_known := (dead_known DEMO_NODES).
Local Abbreviation results_known := (results_known DEMO_NODES).
Local Abbreviation timers_known := (timers_known DEMO_NODES (H:=H)).
Local Abbreviation world_known := (world_known DEMO_NODES (H:=H)).

Lemma known_node (n : DemoNode) : n ∈ DEMO_NODES -> known (id n).
Proof. intros Hn. apply list_elem_of_fmap. by exists n. Qed.

Lemma readings_known_insert lr i r :
  known i -> readings_known lr -> readings_known (<[i := r]> lr).
Proof.
  intros Hi Hlr j r' Hj. destruct (decide (i = j)) as [<-|Hne]; [done|].
  rewrite lookup_insert_ne in Hj by done. by apply (Hlr j r').
Qed.

Lemma readings_known_delete lr i :
  readings_known lr -> readings_known (delete i lr).
Proof.
  intros Hlr j r' Hj. destruct (decide (i = j)) as [<-|Hne].
  - by rewrite lookup_delete_eq in Hj.
  - rewrite lookup_delete_ne in Hj by done. by apply (Hlr j r').
Qed.

(** A loop over the population that sets or deletes the reading of the
    node it visits keeps the readings within the population. *)
Lemma population_loop_known
    (step : gmap string SensorReading * nat -> DemoNode ->
            gmap string SensorReading * nat)
    (lr : gmap string SensorReading) (k : nat) :
  (forall acc n, n ∈ DEMO_NODES -> readings_known (fst acc) ->
     readings_known (fst (step acc n))) ->
  readings_known lr ->
  readings_known (fst (fold_left step DEMO_NODES (lr, k))).
Proof.
  intros Hstep Hlr.
  assert (Hgen : forall l acc, (forall n, n ∈ l -> n ∈ DEMO_NODES) ->
            readings_known (fst acc) ->
            readings_known (fst (fold_left step l acc))).
  { induction l as [|n l IH]; intros acc Hl Hacc; simpl; [done|].
    apply IH.
    - intros m Hm. apply Hl. by right.
    - apply Hstep; [|done]. apply Hl. by left. }
  by apply Hgen.
Qed.

Lemma refreshIdle_known sm rnd k now :
  readings_known (liveReadings sm) ->
  readings_known (fst (refreshIdle Math_sqrt Math_exp DEMO_NODES sm rnd k now)).
Proof.
  intros Hlr. unfold refreshIdle. apply population_loop_known; [|done].
  intros [lr c] n Hn Hacc. simpl in *.
  destruct (decide (id n ∈ deadNodes sm)); simpl.
  - by apply readings_known_delete.
  - apply readings_known_insert; [by apply known_node|done].
Qed.

Lemma seismicReadings_known config envelope sm rnd k now :
  readings_known (liveReadings sm) ->
  readings_known
    (fst (seismicReadings Math_sqrt Math_exp DEMO_NODES config envelope sm rnd k now)).
Proof.
  intros Hlr. unfold seismicReadings. apply population_loop_known; [|done].
  intros [lr c] n Hn Hacc. simpl in *.
  destruct (decide (id n ∈ deadNodes sm)); simpl.
  - by apply readings_known_delete.
  - apply readings_known_insert; [by apply known_node|done].
Qed.

Lemma silence_known scores rnd results dead c :
  results_known results -> dead_known dead ->
  dead_known (fst (JS.forEach results (silenceStep scores rnd) (dead, c))).
Proof.
  intros Hres Hdead.
  apply (forEach_invariant (fun acc : gset string * nat => dead_known (fst acc)));
    [done|].
  intros [dd cc] i d Hid Hacc. unfold silenceStep. simpl in *.
  destruct (Qle_bool 85 _ && negb (bool_decide (i ∈ dd))); [|done].
  destruct (JS.ltb (rnd cc) 0.4); simpl; [|done].
  intros j Hj. apply elem_of_union in Hj as [Hj|Hj]; [|by apply Hacc].
  apply elem_of_singleton in Hj as ->. by apply (Hres i d).
Qed.

Lemma timers_known_insert (tm : gmap nat (Timer H)) h t :
  timer_known DEMO_NODES t -> timers_known tm -> timers_known (<[h := t]> tm).
Proof.
  intros Ht Htm h' t' Hh. destruct (decide (h = h')) as [<-|Hne].
  - rewrite lookup_insert_eq in Hh. by injection Hh as <-.
  - rewrite lookup_insert_ne in Hh by done. by apply (Htm h' t').
Qed.

Lemma timers_known_delete (tm : gmap nat (Timer H)) h :
  timers_known tm -> timers_known (delete h tm).
Proof.
  intros Htm h' t' Hh. destruct (decide (h = h')) as [<-|Hne].
  - by rewrite lookup_delete_eq in Hh.
  - rewrite lookup_delete_ne in Hh by done. by apply (Htm h' t').
Qed.

Lemma computeDamageResults_known config rnd k :
  results_known (computeDamageResults Math_sqrt DEMO_NODES config rnd k).
Proof.
  intros i d Hd.
  destruct (computeDamageResults_entries Math_sqrt DEMO_NODES config rnd k)
    as [Hent _].
  destruct (Hent i d Hd) as (node & index & Hnode & <- & _).
  apply known_node. by eapply list_elem_of_lookup_2.
Qed.

Ltac world_simpl :=
  cbn [sim timers host nextHandle updateCallbacks liveReadings deadNodes
       earthquakeInterval idleInterval currentDamages withSim withHost
       withReadings emitUpdate setInterval clearInterval updateDamages
       onLiveUpdate fst snd] in *.

Lemma startIdleSimulation_known rnd now (w : World H) :
  world_known w ->
  world_known (startIdleSimulation Math_sqrt Math_exp DEMO_NODES rnd now w).
Proof.
  intros (Hlr & Hdead & Htm). unfold startIdleSimulation.
  destruct (idleInterval (sim w)); [done|].
  unfold Simulator.world_known. world_simpl. split; [|split]; [|done|].
  - by apply refreshIdle_known.
  - by apply timers_known_insert.
Qed.

Lemma idleTick_known rnd now (w : World H) :
  world_known w ->
  world_known (idleTick Math_sqrt Math_exp DEMO_NODES rnd now w).
Proof.
  intros (Hlr & Hdead & Htm). unfold idleTick.
  destruct (earthquakeInterval (sim w)); [done|].
  unfold Simulator.world_known. world_simpl. split; [|done].
  by apply refreshIdle_known.
Qed.

Lemma quakeTick_known h q rnd now (w : World H) :
  timers w !! h = Some (QuakeTimer q) ->
  world_known w ->
  world_known
    (quakeTick Math_sqrt Math_exp Math_sin Math_PI DEMO_NODES h q rnd now w).
Proof.
  intros Hq (Hlr & Hdead & Htm).
  assert (Hres : results_known (q_results q)) by apply (Htm h _ Hq).
  unfold quakeTick. cbv zeta. world_simpl.
  set (envelope := Math_sin _).
  pose proof (seismicReadings_known (q_config q) envelope (sim w) rnd 0 now Hlr)
    as Hseis.
  destruct (seismicReadings Math_sqrt Math_exp DEMO_NODES (q_config q) envelope
              (sim w) rnd 0 now) as [lr c].
  world_simpl.
  pose proof (silence_known (q_scores q) rnd (q_results q) (deadNodes (sim w)) c
                Hres Hdead) as Hsil.
  assert (Htm' : timers_known
            (<[h := QuakeTimer
                      (mkQuakeLoop (q_config q) (q_scores q) (q_results q)
                         (q_tickCount q + 1) (q_onProgress q) (q_onComplete q))]>
               (timers w))).
  { by apply timers_known_insert. }
  destruct (JS.gtb envelope 0.8).
  - destruct (JS.forEach (q_results q) (silenceStep (q_scores q) rnd)
                (deadNodes (sim w), c)) as [dead c'].
    world_simpl.
    destruct (Qle_bool _ _); [|by repeat split].
    destruct (earthquakeInterval (sim w)); world_simpl;
      unfold Simulator.world_known; world_simpl;
      (split; [|split]; [|done|]);
      first [ by apply (refreshIdle_known (mkSim lr _ _ dead _))
            | by apply timers_known_delete | done ].
  - world_simpl.
    destruct (Qle_bool _ _); [|by repeat split].
    destruct (earthquakeInterval (sim w)); world_simpl;
      unfold Simulator.world_known; world_simpl;
      (split; [|split]; [|done|]);
      first [ by apply (refreshIdle_known (mkSim lr _ _ (deadNodes (sim w)) _))
            | by apply timers_known_delete | done ].
Qed.

Lemma noiseTick_known h n rnd now (w : World H) :
  timers w !! h = Some (NoiseTimer n) ->
  world_known w ->
  world_known (noiseTick Math_sqrt Math_exp Math_sin Math_PI h n rnd now w).
Proof.
  intros Hn (Hlr & Hdead & Htm).
  assert (Htarget : known (n_target n)) by apply (Htm h _ Hn).
  unfold noiseTick. cbv zeta. world_simpl.
  destruct (Qle_bool _ _); unfold Simulator.world_known; world_simpl;
    (split; [|split]; [|done|]).
  - apply readings_known_insert; [done|]. by apply readings_known_insert.
  - apply timers_known_delete. by apply timers_known_insert.
  - by apply readings_known_insert.
  - by apply timers_known_insert.
Qed.

Lemma fire_known h rnd now (w : World H) :
  world_known w ->
  world_known (fire Math_sqrt Math_exp Math_sin Math_PI DEMO_NODES h rnd now w).
Proof.
  intros Hw. unfold fire. destruct (timers w !! h) as [[|q|n]|] eqn:Hh.
  - by apply idleTick_known.
  - by apply quakeTick_known.
  - by apply noiseTick_known.
  - done.
Qed.

Lemma triggerEarthquake_known config scores onProgress onComplete rnd k
    (w : World H) :
  world_known w ->
  world_known
    (triggerEarthquake Math_sqrt DEMO_NODES config scores onProgress onComplete
       rnd k w).
Proof.
  intros (Hlr & Hdead & Htm). unfold triggerEarthquake.
  unfold Simulator.world_known. world_simpl. split; [done|]. split; [done|].
  apply timers_known_insert; [|done]. apply computeDamageResults_known.
Qed.

Lemma triggerTruckNoise_known target onFiltered (w : World H) :
  world_known w ->
  world_known (triggerTruckNoise DEMO_NODES target onFiltered w).
Proof.
  intros (Hlr & Hdead & Htm). unfold triggerTruckNoise.
  destruct (find _ DEMO_NODES) as [n|] eqn:Hfind; [|done].
  destruct (decide (target ∈ deadNodes (sim w))); [done|].
  unfold Simulator.world_known. world_simpl. split; [done|]. split; [done|].
  apply timers_known_insert; [|done]. simpl.
  apply find_some in Hfind as [Hin Hid].
  apply bool_decide_eq_true in Hid as <-.
  apply known_node. by apply list_elem_of_In.
Qed.

Lemma run_known c (w : World H) :
  world_known w ->
  world_known (run Math_sqrt Math_exp Math_sin Math_PI DEMO_NODES c w).
Proof.
  intros Hw. destruct c; cbn [run].
  - by apply startIdleSimulation_known.
  - destruct Hw as (Hlr & Hdead & Htm). unfold stopIdleSimulation.
    destruct (idleInterval (sim w)); [|done].
    unfold Simulator.world_known. world_simpl.
    split; [done|]. split; [done|]. by apply timers_known_delete.
  - by apply triggerEarthquake_known.
  - by apply fire_known.
  - destruct Hw as (Hlr & Hdead & Htm). unfold stop.
    destruct (earthquakeInterval (sim w)); [|done].
    unfold Simulator.world_known. world_simpl.
    split; [done|]. split; [done|]. by apply timers_known_delete.
  - unfold reset. apply startIdleSimulation_known.
    destruct Hw as (Hlr & Hdead & Htm).
    unfold Simulator.world_known. world_simpl.
    split; [done|]. split; [|done]. intros i Hi. by apply elem_of_empty in Hi.
  - by apply triggerTruckNoise_known.
  - exact Hw.
  - exact Hw.
  - exact Hw.
Qed.

Lemma reachableWorld_known (w : World H) :
  reachableWorld Math_sqrt Math_exp Math_sin Math_PI DEMO_NODES w ->
  world_known w.
Proof.
  induction 1 as [h|w c _ IH].
  - unfold Simulator.world_known. simpl. split; [|split].
    + intros i r Hi. by rewrite lookup_empty in Hi.
    + intros i Hi. by apply elem_of_empty in Hi.
    + intros i t Hi. by rewrite lookup_empty in Hi.
  - by apply run_known.
Qed.

(** For an id outside the population [getReading] does not answer
    "absent": it synthesizes an idle reading. *)
Lemma getReading_unknown (w : World H) (nodeId : string)
    (rnd : nat -> Q) (now : Z) :
  world_known w ->
  ~ known nodeId ->
  getReading Math_sqrt Math_exp (sim w) nodeId rnd now =
    Some (generateIdleReading Math_sqrt Math_exp (sim w) nodeId rnd 0 now).
Proof.
  intros (Hlr & Hdead & _) Hunknown. unfold getReading.
  destruct (decide (nodeId ∈ deadNodes (sim w))) as [Hd|_].
  - exfalso. by apply Hunknown, Hdead.
  - destruct (liveReadings (sim w) !! nodeId) as [r|] eqn:Hr; [|done].
    exfalso. by apply Hunknown, (Hlr nodeId r).
Qed.

End WorldProps.

(** ** Queries and commands *)
Section CommandProps.

Import Simulator Dashboard.

Variables Math_sqrt Math_exp Math_sin : Q -> Q.
Variable Math_PI : Q.
Variable DEMO_NODES : list DemoNode.

(** The engine itself does not look for a running event: every call
    registers one more interval and replaces the stored handle. *)
Lemma triggerEarthquake_unguarded {H : Type} config scores
    (onProgress : Q -> H -> H) (onComplete : gmap string Z -> H -> H)
    rnd k (w : World H) :
  let w' := triggerEarthquake Math_sqrt DEMO_NODES config scores
              onProgress onComplete rnd k w in
  w' <> w /\ eventInProgress w' /\
  earthquakeInterval (sim w') = Some (nextHandle w).
Proof.
  destruct (triggerEarthquake_registers Math_sqrt DEMO_NODES config scores
              onProgress onComplete rnd k w) as (Ht & He & Hn).
  cbv zeta. split; [|split].
  - intros Heq. rewrite Heq in Hn. lia.
  - eexists _, _. exact Ht.
  - exact He.
Qed.

(** From an inactive store the trigger command sets the flag and starts
    an event. *)
Lemma handleTriggerEarthquake_starts (rnd : nat -> Q) (w : World Panel)
    (epicenter : DemoNode) :
  Store.isEarthquakeActive (store (host w)) = false ->
  DEMO_NODES !! Z.to_nat
    (JS.floor (rnd 0%nat * inject_Z (Z.of_nat (length DEMO_NODES)))) =
    Some epicenter ->
  exists w',
    handleTriggerEarthquake Math_sqrt DEMO_NODES rnd w = Some w' /\
    Store.isEarthquakeActive (store (host w')) = true /\
    canReset (host w') = false /\
    eventInProgress w'.
Proof.
  intros Hidle Hepi. unfold handleTriggerEarthquake. rewrite Hidle, Hepi.
  eexists. split; [reflexivity|]. split; [reflexivity|]. split; [reflexivity|].
  eexists _, _. simpl. apply lookup_insert_eq.
Qed.


(** While the store's [isEarthquakeActive] flag is set, the trigger
    command returns at once. *)
Lemma handleTriggerEarthquake_guard (rnd : nat -> Q) (w : World Panel) :
  Store.isEarthquakeActive (store (host w)) = true ->
  handleTriggerEarthquake Math_sqrt DEMO_NODES rnd w = Some w.
Proof. intros Hactive. unfold handleTriggerEarthquake. by rewrite Hactive. Qed.

(** C10 (as the code has it). For an id outside the population no query
    raises an error: [getReading] returns a freshly synthesized idle
    reading and [getBaseline] returns the default 5.0 Hz. *)
Theorem C10_unknown_id_gets_defaults {H : Type}
    (w : World H) (nodeId : string) (rnd : nat -> Q) (now : Z)
    (nodeBaselines : gmap string BaselineTracker.NodeBaseline) :
  reachableWorld Math_sqrt Math_exp Math_sin Math_PI DEMO_NODES w ->
  ~ known DEMO_NODES nodeId ->
  nodeBaselines !! nodeId = None ->
  getReading Math_sqrt Math_exp (sim w) nodeId rnd now =
    Some (generateIdleReading Math_sqrt Math_exp (sim w) nodeId rnd 0 now) /\
  BaselineTracker.getBaseline nodeId nodeBaselines = 5.0%Q.
Proof.
  intros Hreach Hunknown Hnone. split.
  - apply (getReading_unknown Math_sqrt Math_exp DEMO_NODES); [|done].
    by eapply reachableWorld_known.
  - unfold BaselineTracker.getBaseline. by rewrite Hnone.
Qed.

End CommandProps.

(** ** The running application *)
Section AppProps.

Import Simulator Dashboard.

Variables Math_sqrt Math_exp Math_sin : Q -> Q.
Variable Math_PI : Q.
Variable DEMO_NODES : list DemoNode.

Local Abbreviation step :=
  (step Math_sqrt Math_exp Math_sin Math_PI DEMO_NODES).

Lemma callbacks_keep_store (cbs : list (gmap string SensorReading -> Panel -> Panel))
    (lr : gmap string SensorReading) (p : Panel) :
  (forall cb, cb ∈ cbs -> forall r p, store (cb r p) = store p) ->
  store (fold_left (fun h cb => cb lr h) cbs p) = store p.
Proof.
  revert p. induction cbs as [|cb cbs IH]; intros p Hcbs; simpl; [done|].
  rewrite IH.
  - apply Hcbs. by left.
  - intros cb' Hcb'. apply Hcbs. by right.
Qed.

Lemma liveSubscriber_keeps_store r p : store (liveSubscriber r p) = store p.
Proof.
  unfold liveSubscriber. destruct (Store.selectedNodeId (store p)); [|done].
  by destruct (r !! s).
Qed.

Lemma handler_intensity (rnd : nat -> Q) (i : nat) :
  JS.random_ok rnd -> (0 <= 1.5 + rnd i * 0.5)%Q.
Proof. intros Hrnd. destruct (Hrnd i). lra. Qed.

Ltac app_simpl :=
  cbn [sim timers host nextHandle updateCallbacks liveReadings deadNodes
       earthquakeInterval idleInterval currentDamages withSim withHost
       withReadings emitUpdate setInterval clearInterval updateDamages
       onLiveUpdate fst snd store withStore request pendingRequests
       Store.buildingDamages Store.isEarthquakeActive
       Store.setEarthquakeActive Store.selectNode
       Store.setEarthquakeProgress Store.updateBuildingSummary] in *.

(** Registering the idle loop under [k] keeps the intervals sound. *)
Lemma timers_insert_idle (tm : gmap nat (Timer Panel)) (k : nat) (P : nat -> Prop) :
  (forall h t, tm !! h = Some t -> timer_ok t) ->
  (forall h q, tm !! h = Some (QuakeTimer q) -> P h) ->
  (forall h t, <[k := IdleTimer]> tm !! h = Some t -> timer_ok t) /\
  (forall h q, <[k := IdleTimer]> tm !! h = Some (QuakeTimer q) -> P h).
Proof.
  intros Htm Hone. split.
  - intros h t Ht. destruct (decide (k = h)) as [<-|Hne].
    + rewrite lookup_insert_eq in Ht. by injection Ht as <-.
    + rewrite lookup_insert_ne in Ht by done. by apply (Htm h).
  - intros h q Ht. destruct (decide (k = h)) as [<-|Hne].
    + rewrite lookup_insert_eq in Ht. discriminate.
    + rewrite lookup_insert_ne in Ht by done. by apply (Hone h q).
Qed.

Lemma startIdleSimulation_app_ok rnd now (w : World Panel) :
  app_ok w ->
  app_ok (startIdleSimulation Math_sqrt Math_exp DEMO_NODES rnd now w).
Proof.
  intros (Hledger & Htm & Hcb & Hone). unfold startIdleSimulation.
  destruct (idleInterval (sim w)); [done|].
  unfold app_ok. app_simpl. rewrite callbacks_keep_store by done.
  destruct (timers_insert_idle (timers w) (nextHandle w)
              (fun h => Store.isEarthquakeActive (store (host w)) = true /\
                        earthquakeInterval (sim w) = Some h) Htm Hone)
    as [Htm' Hone'].
  done.
Qed.

Lemma quakeTick_app_ok h q rnd now (w : World Panel) :
  timers w !! h = Some (QuakeTimer q) ->
  app_ok w ->
  app_ok (quakeTick Math_sqrt Math_exp Math_sin Math_PI DEMO_NODES h q rnd now w).
Proof.
  intros Hq (Hledger & Htm & Hcb & Hone).
  destruct (Htm h _ Hq) as (Hdelta & Hprog & Hcomp).
  destruct (Hone h q Hq) as [Hflag Hint].
  assert (Honly : forall h' q', timers w !! h' = Some (QuakeTimer q') -> h' = h).
  { intros h' q' Hq'. destruct (Hone h' q' Hq') as [_ Hint'].
    rewrite Hint in Hint'. by injection Hint'. }
  assert (Htm' : forall tick h' t,
            <[h := QuakeTimer
                     (mkQuakeLoop (q_config q) (q_scores q) (q_results q)
                        tick onProgress onComplete)]> (timers w)
              !! h' = Some t -> timer_ok t).
  { intros tick h' t Ht. destruct (decide (h = h')) as [<-|Hne].
    - rewrite lookup_insert_eq in Ht. by injection Ht as <-.
    - rewrite lookup_insert_ne in Ht by done. by apply (Htm h'). }
  assert (Hfinal : forall (p : Panel) i d,
            store p = store (onProgress
                               (JS.min 100
                                  (inject_Z (q_tickCount q + 1)
                                   / (durationMs (q_config q) / 50) * 100))
                               (host w)) ->
            Store.buildingDamages (store (onComplete (q_results q) p)) !! i = Some d ->
            (0 <= Store.totalScore d <= 100 /\
             Store.totalScore d =
               Z.min 100 (Store.baseScore d + Store.earthquakeDamage d))%Z).
  { intros p i d Hp Hd. unfold onComplete, applyEarthquakeDamage in Hd.
    app_simpl.
    apply (applyEarthquakeDamage_ledger_ok (q_results q) (store p) Hdelta)
      with (i := i); [|exact Hd].
    rewrite Hp. exact Hledger. }
  unfold quakeTick. cbv zeta. app_simpl.
  rewrite Hprog, Hcomp, Hint.
  set (envelope := Math_sin _).
  destruct (seismicReadings Math_sqrt Math_exp DEMO_NODES (q_config q) envelope
              (sim w) rnd 0 now) as [lr c].
  app_simpl.
  destruct (if JS.gtb envelope 0.8
            then JS.forEach (q_results q) (silenceStep (q_scores q) rnd)
                   (deadNodes (sim w), c)
            else (deadNodes (sim w), c)) as [dead c'].
  app_simpl.
  destruct (Qle_bool _ _).
  - unfold app_ok. app_simpl. split; [|split; [|split; [done|]]].
    + intros i d. apply Hfinal. by rewrite !callbacks_keep_store.
    + intros h' t Ht. destruct (decide (h = h')) as [<-|Hne].
      * by rewrite lookup_delete_eq in Ht.
      * rewrite lookup_delete_ne in Ht by done. by eapply Htm'.
    + intros h' q' Ht. exfalso. destruct (decide (h = h')) as [<-|Hne].
      * by rewrite lookup_delete_eq in Ht.
      * rewrite lookup_delete_ne, lookup_insert_ne in Ht by done.
        apply Hne. symmetry. by apply (Honly h' q').
  - unfold app_ok. app_simpl. rewrite callbacks_keep_store by done.
    split; [done|]. split; [by eapply Htm'|]. split; [done|].
    intros h' q' Ht. destruct (decide (h = h')) as [<-|Hne]; [done|].
    rewrite lookup_insert_ne in Ht by done.
    exfalso. apply Hne. symmetry. by apply (Honly h' q').
Qed.

Lemma handleTriggerEarthquake_app_ok rnd (w : World Panel) :
  JS.random_ok rnd ->
  app_ok w ->
  app_ok (default w (handleTriggerEarthquake Math_sqrt DEMO_NODES rnd w)).
Proof.
  intros Hrnd Hok. unfold handleTriggerEarthquake.
  destruct (Store.isEarthquakeActive (store (host w))) eqn:Hflag; [done|].
  destruct (DEMO_NODES !! _) as [epicenter|]; [|done].
  destruct Hok as (Hledger & Htm & Hcb & Hone).
  unfold triggerEarthquake. unfold app_ok. simpl.
  split; [done|]. split; [|split; [done|]].
  - intros h t Ht. destruct (decide (nextHandle w = h)) as [<-|Hne].
    + rewrite lookup_insert_eq in Ht. injection Ht as <-.
      split; [|done]. intros i d Hd.
      eapply (computeDamageResults_deltaMap Math_sqrt DEMO_NODES); [|done|exact Hd].
      by apply handler_intensity.
    + rewrite lookup_insert_ne in Ht by done. by apply (Htm h).
  - intros h q Ht. destruct (decide (nextHandle w = h)) as [<-|Hne]; [done|].
    rewrite lookup_insert_ne in Ht by done.
    destruct (Hone h q Ht) as [Hact _]. congruence.
Qed.

Lemma step_app_ok e (w : World Panel) :
  draws e -> app_ok w -> app_ok (step e w).
Proof.
  intros He Hok. destruct e; cbn [Dashboard.step draws] in *.
  - by apply handleTriggerEarthquake_app_ok.
  - destruct (resetAvailable (host w)) eqn:Hav; [|exact Hok].
    destruct Hok as (Hledger & Htm & Hcb & Hone).
    apply andb_true_iff in Hav as [Hidle _]. apply negb_true_iff in Hidle.
    unfold handleReset, resetToSafe. unfold app_ok. app_simpl.
    split; [|split; [done|split; [done|]]].
    + intros i d Hd.
      by apply (resetToSafe_ledger_ok rnd now (store (host w)) i d).
    + intros h q Ht. destruct (Hone h q Ht) as [Hact _]. congruence.
  - unfold Dashboard.selectNode. by destruct nodeId.
  - unfold fire. destruct (timers w !! h) as [[|q|n]|] eqn:Hh.
    + unfold idleTick.
      destruct (earthquakeInterval (sim w)) eqn:Hint; [exact Hok|].
      destruct Hok as (Hledger & Htm & Hcb & Hone).
      unfold app_ok. app_simpl. by rewrite callbacks_keep_store.
    + by apply quakeTick_app_ok.
    + destruct Hok as (_ & Htm & _). destruct (Htm h _ Hh).
    + exact Hok.
  - unfold fireCanReset. by destruct (pendingCanReset (host w)).
  - unfold deliver.
    destruct (pendingRequests (host w)) as [|[scores|scores] rest];
      [exact Hok|exact Hok|].
    unfold reset. by apply startIdleSimulation_app_ok.
Qed.

Lemma mount_app_ok rndStore rndSim now :
  JS.random_ok rndStore ->
  app_ok (mount Math_sqrt Math_exp DEMO_NODES rndStore rndSim now).
Proof.
  intros Hrnd. unfold mount. apply startIdleSimulation_app_ok.
  unfold app_ok, newWorld. app_simpl. split; [|split; [|split]].
  - intros i d. by apply setNodes_ledger_ok.
  - intros h t Ht. by rewrite lookup_empty in Ht.
  - intros cb Hcb. apply list_elem_of_singleton in Hcb as ->.
    apply liveSubscriber_keeps_store.
  - intros h q Ht. by rewrite lookup_empty in Ht.
Qed.

Lemma running_app_ok (w : World Panel) :
  running Math_sqrt Math_exp Math_sin Math_PI DEMO_NODES w -> app_ok w.
Proof.
  induction 1 as [rndStore rndSim now Hs _|w e _ IH He].
  - by apply mount_app_ok.
  - by apply step_app_ok.
Qed.

(** In the running application the ledger invariant needs no assumption
    on the delta maps: the only ones applied are those the engine
    computed for an intensity between 1.5 and 2. *)
Lemma running_ledger_ok (w : World Panel) (i : string) (d : Store.BuildingDamage) :
  running Math_sqrt Math_exp Math_sin Math_PI DEMO_NODES w ->
  Store.buildingDamages (store (host w)) !! i = Some d ->
  0 <= Store.totalScore d <= 100 /\
  Store.totalScore d = Z.min 100 (Store.baseScore d + Store.earthquakeDamage d).
Proof. intros Hrun. by apply (running_app_ok w Hrun). Qed.

(** At most one event is in progress in the running application. *)
Lemma running_single_event (w : World Panel) (h1 h2 : nat)
    (q1 q2 : QuakeLoop Panel) :
  running Math_sqrt Math_exp Math_sin Math_PI DEMO_NODES w ->
  timers w !! h1 = Some (QuakeTimer q1) ->
  timers w !! h2 = Some (QuakeTimer q2) ->
  h1 = h2.
Proof.
  intros Hrun H1 H2. destruct (running_app_ok w Hrun) as (_ & _ & _ & Hone).
  destruct (Hone h1 q1 H1) as [_ E1], (Hone h2 q2 H2) as [_ E2]. congruence.
Qed.

(** C9 (as the code has it). In the running application, the trigger
    command of the dashboard issued while an earthquake event is in
    progress is a no-op: the world is unchanged and no error is raised. *)
Theorem C9_trigger_command_is_noop_during_event
    (rnd : nat -> Q) (w : World Panel) :
  running Math_sqrt Math_exp Math_sin Math_PI DEMO_NODES w ->
  eventInProgress w ->
  handleTriggerEarthquake Math_sqrt DEMO_NODES rnd w = Some w /\
  step (EHandleTriggerEarthquake rnd) w = w.
Proof.
  intros Hrun (h & q & Hq).
  destruct (running_app_ok w Hrun) as (_ & _ & _ & Hone).
  destruct (Hone h q Hq) as [Hactive _].
  pose proof (handleTriggerEarthquake_guard Math_sqrt DEMO_NODES rnd w Hactive)
    as Hnoop.
  split; [exact Hnoop|]. cbn [Dashboard.step]. by rewrite Hnoop.
Qed.

End AppProps.

(** ** The store as a whole *)
Section StoreProps.

Import Store StoreAt StoreInv.

Variable Math_sqrt : Q -> Q.

(** *** Arrays turned into maps *)

Lemma forEachIdx_insert_other {A V : Type} (key : A -> string)
    (val : A -> nat -> V) (l : list A) :
  forall index (acc : gmap string V) i,
  i ∉ map key l ->
  JS.forEachIdx (fun m a k => <[key a := val a k]> m) l index acc !! i = acc !! i.
Proof.
  induction l as [|x l IH]; intros index acc i Hi; simpl; [done|].
  simpl in Hi. apply not_elem_of_cons in Hi as [Hne Hi].
  rewrite IH by done. by rewrite lookup_insert_ne.
Qed.

Lemma forEachIdx_insert_at {A V : Type} (key : A -> string)
    (val : A -> nat -> V) (l : list A) :
  forall index (acc : gmap string V) k x,
  NoDup (map key l) -> l !! k = Some x ->
  JS.forEachIdx (fun m a k => <[key a := val a k]> m) l index acc !! key x =
    Some (val x (index + k)%nat).
Proof.
  induction l as [|y l IH]; intros index acc k x Hnd Hk; [done|].
  simpl in Hnd. apply NoDup_cons in Hnd as [Hy Hnd].
  destruct k as [|k]; simpl in *.
  - injection Hk as ->. rewrite forEachIdx_insert_other by done.
    by rewrite lookup_insert_eq, Nat.add_0_r.
  - rewrite (IH (S index) _ k x Hnd Hk). do 2 f_equal. lia.
Qed.

Lemma forEachIdx_insert_keys {A V : Type} (key : A -> string)
    (val : A -> nat -> V) (l : list A) :
  forall index (acc : gmap string V) i,
  is_Some (JS.forEachIdx (fun m a k => <[key a := val a k]> m) l index acc !! i) <->
  is_Some (acc !! i) \/ i ∈ map key l.
Proof.
  induction l as [|y l IH]; intros index acc i; simpl.
  - split; [by left|]. intros [?|Hi]; [done|]. by apply elem_of_nil in Hi.
  - rewrite IH, elem_of_cons. destruct (decide (key y = i)) as [<-|Hne].
    + rewrite lookup_insert_eq. split; [intros _; right; by left|].
      intros _. left. by eexists.
    + rewrite lookup_insert_ne by done.
      split; [intros [?|?]; [by left|right; by right]|].
      intros [?|[->|?]]; [by left|done|by right].
Qed.

Lemma fold_insert_other {V : Type} (pairs : list (string * V)) :
  forall (acc : gmap string V) i,
  i ∉ map fst pairs ->
  fold_left (fun m kv => <[fst kv := snd kv]> m) pairs acc !! i = acc !! i.
Proof.
  induction pairs as [|[k x] pairs IH]; intros acc i Hi; simpl; [done|].
  simpl in Hi. apply not_elem_of_cons in Hi as [Hne Hi].
  rewrite IH by done. by rewrite lookup_insert_ne.
Qed.

Lemma newMap_keys {V : Type} (pairs : list (string * V)) (i : string) :
  is_Some (JS.newMap pairs !! i) <-> i ∈ map fst pairs.
Proof.
  unfold JS.newMap.
  assert (Hgen : forall acc : gmap string V,
            is_Some (fold_left (fun m kv => <[fst kv := snd kv]> m) pairs acc !! i) <->
            is_Some (acc !! i) \/ i ∈ map fst pairs).
  { induction pairs as [|[k x] pairs IH]; intros acc; simpl.
    - split; [by left|]. intros [?|Hi]; [done|]. by apply elem_of_nil in Hi.
    - rewrite IH, elem_of_cons. destruct (decide (k = i)) as [<-|Hne].
      + rewrite lookup_insert_eq. split; [intros _; right; by left|].
        intros _. left. by eexists.
      + rewrite lookup_insert_ne by done.
        split; [intros [?|?]; [by left|right; by right]|].
        intros [?|[->|?]]; [by left|done|by right]. }
  rewrite Hgen, lookup_empty. split; [intros [[? ?]|?]; done|by right].
Qed.

Lemma newMap_at {V : Type} (pairs : list (string * V)) (i : string) (v : V) :
  NoDup (map fst pairs) -> (i, v) ∈ pairs -> JS.newMap pairs !! i = Some v.
Proof.
  unfold JS.newMap. generalize (∅ : gmap string V) as acc.
  induction pairs as [|[k x] pairs IH]; intros acc Hnd Hin; simpl in *.
  - by apply elem_of_nil in Hin.
  - apply NoDup_cons in Hnd as [Hk Hnd].
    apply elem_of_cons in Hin as [[= -> ->]|Hin].
    + rewrite fold_insert_other by done. by rewrite lookup_insert_eq.
    + by apply IH.
Qed.

(** A map built from pairs that all carry the same value. *)
Lemma newMap_const {A V : Type} (key : A -> string) (v : V) (l : list A) (i : string) :
  JS.newMap (map (fun a => (key a, v)) l) !! i =
    if decide (i ∈ map key l) then Some v else None.
Proof.
  unfold JS.newMap.
  assert (Hgen : forall acc : gmap string V,
            fold_left (fun m kv => <[fst kv := snd kv]> m)
              (map (fun a => (key a, v)) l) acc !! i =
            if decide (i ∈ map key l) then Some v else acc !! i).
  { induction l as [|a l IH]; intros acc; cbn [map fold_left fst snd].
    - destruct (decide (i ∈ [])) as [Hin|]; [by apply elem_of_nil in Hin|done].
    - rewrite IH. destruct (decide (i ∈ map key l)) as [Hin|Hin].
      + rewrite decide_True; [done|]. by right.
      + destruct (decide (key a = i)) as [<-|Hne].
        * rewrite lookup_insert_eq. rewrite decide_True; [done|]. by left.
        * rewrite lookup_insert_ne by done. rewrite decide_False; [done|].
          intros Hc. apply elem_of_cons in Hc as [->|?]; done. }
  by rewrite Hgen, lookup_empty.
Qed.

(** *** [setNodes] on an array without repeated ids *)

Lemma setNodes_keys ns rnd now s i :
  (is_Some (buildingDamages (setNodes ns rnd now s) !! i) <-> i ∈ map id ns) /\
  (is_Some (nodes (setNodes ns rnd now s) !! i) <-> i ∈ map id ns).
Proof.
  assert (Hd : is_Some (buildingDamages (setNodes ns rnd now s) !! i) <-> i ∈ map id ns).
  { unfold setNodes. cbn [buildingDamages].
    rewrite (forEachIdx_insert_keys id
               (fun _ k => freshDamage (drawBaseScore k (rnd k)))).
    rewrite lookup_empty. split; [intros [[? ?]|?]; done|by right]. }
  split; [exact Hd|].
  rewrite setNodes_nodes.
  assert (Hm : is_Some (JS.newMap (map (fun n => (id n, n)) ns) !! i) <-> i ∈ map id ns).
  { rewrite newMap_keys, map_map. done. }
  destruct (buildingDamages (setNodes ns rnd now s) !! i); [|exact Hm].
  by rewrite <- Hm, fmap_is_Some.
Qed.

Lemma setNodes_not_inferred ns rnd now s i n :
  nodes (setNodes ns rnd now s) !! i = Some n ->
  exists d, buildingDamages (setNodes ns rnd now s) !! i = Some d /\
            status n = getStatusFromScore (totalScore d).
Proof.
  intros Hn. destruct (setNodes_keys ns rnd now s i) as [Hd Hk].
  assert (Hin : i ∈ map id ns) by (apply Hk; by eexists).
  apply Hd in Hin as [d Hdi]. exists d. split; [done|].
  rewrite setNodes_nodes, Hdi in Hn.
  destruct (JS.newMap (map (fun n => (id n, n)) ns) !! i); [|done].
  by injection Hn as <-.
Qed.

Lemma getStatusFromScore_not_inferred (score : Z) :
  getStatusFromScore score <> collapse_inferred.
Proof.
  unfold getStatusFromScore.
  by destruct (90 <=? score), (70 <=? score), (30 <=? score), (15 <=? score).
Qed.

Lemma getStatusFromScore_collapse (score : Z) :
  getStatusFromScore score = collapse <-> 90 <= score.
Proof.
  unfold getStatusFromScore. destruct (Z.leb_spec 90 score); [done|].
  split; [|lia].
  by destruct (70 <=? score), (30 <=? score), (15 <=? score).
Qed.

(** X1. When [setNodes] is given an array without repeated ids, the
    building at position [k] gets the record [(b, 0, b)] for the base
    score [b] drawn for that position, the status of [b] and a heartbeat
    at the current time; the first two positions draw from 30..44 and
    are [warning], the others draw from 0..25 and are [stable] or
    [anomaly]. *)
Theorem X1_setNodes_initial_ledger
    (ns : list Node) (rnd : nat -> Q) (now : Z) (s : SeismosState)
    (k : nat) (n : Node) :
  NoDup (map id ns) ->
  JS.random_ok rnd ->
  ns !! k = Some n ->
  let b := drawBaseScore k (rnd k) in
  let s' := setNodes ns rnd now s in
  buildingDamages s' !! id n = Some (mkDamage b 0 b) /\
  nodes s' !! id n = Some (withStatus n (getStatusFromScore b)) /\
  lastHeartbeat s' !! id n = Some now /\
  ((k < 2)%nat -> 30 <= b <= 44 /\ getStatusFromScore b = warning) /\
  ((2 <= k)%nat ->
     0 <= b <= 25 /\
     (getStatusFromScore b = stable \/ getStatusFromScore b = anomaly)).
Proof.
  intros Hnd Hrnd Hk b s'.
  assert (Hin : n ∈ ns) by (by eapply list_elem_of_lookup_2).
  assert (Hd : buildingDamages s' !! id n = Some (freshDamage b)).
  { unfold s', setNodes. cbn [buildingDamages].
    apply (forEachIdx_insert_at id
             (fun _ j => freshDamage (drawBaseScore j (rnd j))) ns 0%nat ∅ k n Hnd Hk). }
  split; [exact Hd|]. split; [|split].
  - unfold s'. rewrite setNodes_nodes. fold s'. rewrite Hd.
    rewrite (newMap_at _ (id n) n); [done| |].
    + by rewrite map_map.
    + apply list_elem_of_fmap. by exists n.
  - unfold s', setNodes. cbn [lastHeartbeat].
    rewrite (newMap_const id now ns). rewrite decide_True; [done|].
    apply list_elem_of_fmap. by exists n.
  - destruct (Hrnd k) as [H0 H1]. unfold b, drawBaseScore. split.
    + intros Hlt. replace ((k =? 0)%nat || (k =? 1)%nat) with true
        by (destruct k as [|[|k]]; [done|done|lia]).
      assert (0 <= JS.floor (rnd k * 15) < 15)
        by (apply floor_bounds; unfold inject_Z; lra).
      split; [lia|]. apply getStatusFromScore_thresholds. lia.
    + intros Hge. replace ((k =? 0)%nat || (k =? 1)%nat) with false
        by (destruct k as [|[|k]]; [lia|lia|done]).
      assert (0 <= JS.floor (rnd k * 26) < 26)
        by (apply floor_bounds; unfold inject_Z; lra).
      split; [lia|].
      destruct (Z.lt_ge_cases (JS.floor (rnd k * 26)) 15).
      * left. apply getStatusFromScore_thresholds. lia.
      * right. apply getStatusFromScore_thresholds. lia.
Qed.

(** *** The buildings stay the same *)

Lemma withStatus_same (n n' : Node) :
  withStatus n' stable = withStatus n stable -> n' = withStatus n (status n').
Proof. destruct n, n'. unfold withStatus. simpl. by intros [= -> -> -> -> ->]. Qed.

Lemma withStatus_id (n : Node) : withStatus n (status n) = n.
Proof. by destruct n. Qed.

Lemma keeps_buildings_refl s s' : nodes s' = nodes s -> keeps_buildings s s'.
Proof.
  intros Heq i. rewrite Heq. destruct (nodes s !! i) as [n|]; [|done].
  by rewrite withStatus_id.
Qed.

Lemma keeps_buildings_trans s1 s2 s3 :
  keeps_buildings s1 s2 -> keeps_buildings s2 s3 -> keeps_buildings s1 s3.
Proof.
  intros H12 H23 i. specialize (H12 i). specialize (H23 i).
  destruct (nodes s1 !! i) as [n1|], (nodes s2 !! i) as [n2|],
    (nodes s3 !! i) as [n3|]; try done.
  rewrite H23, H12. by destruct n1.
Qed.

Lemma keeps_buildings_keys s s' i :
  keeps_buildings s s' -> (is_Some (nodes s' !! i) <-> is_Some (nodes s !! i)).
Proof.
  intros Hk. specialize (Hk i).
  destruct (nodes s !! i), (nodes s' !! i);
    first [done | split; intros [? ?]; done].
Qed.

Lemma keeps_buildings_size s s' :
  keeps_buildings s s' -> size (nodes s') = size (nodes s).
Proof.
  intros Hk. rewrite <- !size_dom. f_equal. apply set_eq. intros i.
  rewrite !elem_of_dom. by apply keeps_buildings_keys.
Qed.

Lemma applyEarthquakeDamage_keeps damages s :
  keeps_buildings s (applyEarthquakeDamage damages s).
Proof.
  intros i. pose proof (applyEarthquakeDamage_at damages s i) as Hat.
  destruct (damages !! i) as [added|].
  - unfold applyAt in Hat. cbn [fst snd] in Hat.
    destruct (buildingDamages s !! i) as [cur|].
    + destruct (nodes s !! i) as [node|]; [|by injection Hat as _ ->].
      destruct (decide (status node <> collapse_inferred));
        injection Hat as _ ->; [done|]. by rewrite withStatus_id.
    + injection Hat as _ ->. destruct (nodes s !! i); [|done].
      by rewrite withStatus_id.
  - injection Hat as _ ->. destruct (nodes s !! i); [|done].
    by rewrite withStatus_id.
Qed.

Lemma applyEarthquakeDamage_record_keys damages s i :
  is_Some (buildingDamages (applyEarthquakeDamage damages s) !! i) <->
  is_Some (buildingDamages s !! i).
Proof.
  pose proof (applyEarthquakeDamage_at damages s i) as Hat.
  destruct (damages !! i) as [added|].
  - unfold applyAt in Hat. cbn [fst snd] in Hat.
    destruct (buildingDamages s !! i) as [cur|]; injection Hat as -> _; [|done].
    split; intros _; by eexists.
  - by injection Hat as -> _.
Qed.

Lemma checkConsensus_keeps now s :
  keeps_buildings s (checkConsensus Math_sqrt now s).
Proof.
  intros i. pose proof (checkConsensus_at Math_sqrt now s i) as Hat.
  destruct (nodes s !! i) as [node|] eqn:Hnode; [|by injection Hat as -> _].
  unfold consensusAt in Hat.
  repeat match type of Hat with
         | context [if ?b then _ else _] => destruct b
         | context [match ?o with Some _ => _ | None => _ end] => destruct o
         end; injection Hat as -> _; first [done | by rewrite withStatus_id].
Qed.

(** The nodes and the records of a building after the loop of
    [resetToSafe]. *)
Lemma resetLoop_at rnd s i :
  ((fun n => withStatus n stable) <$> fst (fst (fst (resetLoop rnd s))) !! i,
   (fun _ => tt) <$> snd (fst (fst (resetLoop rnd s))) !! i) =
  ((fun n => withStatus n stable) <$> nodes s !! i,
   (fun _ => tt) <$> nodes s !! i).
Proof.
  unfold resetLoop.
  pose proof (forEach_pointwise
    (fun (a : gmap string Node * gmap string BuildingDamage * gmap string Z * nat) j =>
       ((fun n => withStatus n stable) <$> fst (fst (fst a)) !! j,
        (fun _ => tt) <$> snd (fst (fst a)) !! j))
    (fun _ v _ => (Some (withStatus v stable), Some tt)) (nodes s)
    (resetOne rnd) (nodes s, ∅, ∅, 0%nat) i) as Hpw.
  cbn [fst snd] in Hpw. rewrite Hpw.
  - rewrite lookup_empty. by destruct (nodes s !! i).
  - intros [[[nn nd] sc] ix] k v _. cbn [resetOne fst snd].
    by rewrite !lookup_insert_eq.
  - intros [[[nn nd] sc] ix] k v j Hne. cbn [resetOne fst snd].
    by rewrite !lookup_insert_ne.
Qed.

Lemma resetToSafe_keeps rnd now s : keeps_buildings s (resetToSafe rnd now s).
Proof.
  intros i. destruct (resetToSafe_components rnd now s) as [-> _].
  pose proof (resetLoop_at rnd s i) as Hat. injection Hat as Hn _.
  destruct (nodes s !! i) as [n|],
    (fst (fst (fst (resetLoop rnd s))) !! i) as [n'|]; try done.
  apply withStatus_same. simpl in Hn. congruence.
Qed.

Lemma resetToSafe_record_keys rnd now s i :
  is_Some (buildingDamages (resetToSafe rnd now s) !! i) <-> is_Some (nodes s !! i).
Proof.
  destruct (resetToSafe_components rnd now s) as [_ ->].
  pose proof (resetLoop_at rnd s i) as Hat. injection Hat as _ Hd.
  rewrite <- (fmap_is_Some (fun _ => tt)), Hd. apply fmap_is_Some.
Qed.

Lemma dispatch_keeps_buildings a s :
  replacesBuildings a = false -> keeps_buildings s (dispatch Math_sqrt a s).
Proof.
  intros Ha. destruct a; cbn [dispatch replacesBuildings] in *; try done;
    try (by apply keeps_buildings_refl).
  - apply checkConsensus_keeps.
  - apply applyEarthquakeDamage_keeps.
  - apply resetToSafe_keeps.
Qed.

(** *** Nodes and records have the same keys *)

Lemma dispatch_records_owned a s :
  (forall i, is_Some (buildingDamages s !! i) -> is_Some (nodes s !! i)) ->
  forall i, is_Some (buildingDamages (dispatch Math_sqrt a s) !! i) ->
            is_Some (nodes (dispatch Math_sqrt a s) !! i).
Proof.
  intros Hs i. destruct a; cbn [dispatch]; try apply Hs.
  - destruct (setNodes_keys ns rnd now s i) as [Hd Hn]. by rewrite Hd, Hn.
  - rewrite checkConsensus_frame, (keeps_buildings_keys _ _ i (checkConsensus_keeps now s)).
    apply Hs.
  - rewrite applyEarthquakeDamage_record_keys,
      (keeps_buildings_keys _ _ i (applyEarthquakeDamage_keeps damages s)).
    apply Hs.
  - by rewrite resetToSafe_record_keys,
      (keeps_buildings_keys _ _ i (resetToSafe_keeps rnd now s)).
Qed.

Lemma reachable_ledger_ok s :
  reachable Math_sqrt admissible s ->
  forall i d, buildingDamages s !! i = Some d -> ledger_ok d.
Proof.
  induction 1 as [|s a _ IH Hadm]; intros i d Hd.
  - simpl in Hd. by rewrite lookup_empty in Hd.
  - by apply (dispatch_ledger_ok Math_sqrt a s Hadm IH i d).
Qed.

Lemma reachable_weaken (ok : Action -> Prop) s :
  reachable Math_sqrt ok s -> reachable Math_sqrt (fun _ => True) s.
Proof. induction 1; by constructor. Qed.

(** *** The summary *)

Lemma countStatus_counted acc st : counted (countStatus acc st) = S (counted acc).
Proof. destruct acc, st; unfold counted; simpl; lia. Qed.

Lemma countScore_counted acc score : counted (countScore acc score) = S (counted acc).
Proof.
  destruct acc. unfold counted, countScore.
  destruct (90 <=? score), (70 <=? score), (30 <=? score); simpl; lia.
Qed.

Lemma forEach_counted {V : Type} (m : gmap string V)
    (f : BuildingSummary -> V -> BuildingSummary) (acc : BuildingSummary) :
  (forall a v, counted (f a v) = S (counted a)) ->
  counted (JS.forEach m (fun a _ v => f a v) acc) = (counted acc + size m)%nat.
Proof.
  intros Hf. unfold JS.forEach. rewrite <- length_map_to_list.
  revert acc. induction (map_to_list m) as [|[k v] l IH]; intros acc; simpl.
  - lia.
  - rewrite IH, Hf. lia.
Qed.

Lemma updateBuildingSummary_counted s :
  counted (buildingSummary (updateBuildingSummary s)) = size (nodes s).
Proof.
  unfold updateBuildingSummary. cbn [buildingSummary].
  by rewrite (forEach_counted (nodes s) (fun a n => countStatus a (status n)))
    by (intros; apply countStatus_counted).
Qed.

Lemma summaryOfDamages_counted dm : counted (summaryOfDamages dm) = size dm.
Proof.
  unfold summaryOfDamages.
  by rewrite (forEach_counted dm (fun a d => countScore a (totalScore d)))
    by (intros; apply countScore_counted).
Qed.

Lemma same_keys_size {A B : Type} (m1 : gmap string A) (m2 : gmap string B) :
  (forall i, is_Some (m1 !! i) <-> is_Some (m2 !! i)) -> size m1 = size m2.
Proof.
  intros Hk. rewrite <- !size_dom. f_equal. apply set_eq. intros i.
  by rewrite !elem_of_dom.
Qed.

Lemma dispatch_counted a s :
  counted (buildingSummary s) = size (nodes s) ->
  counted (buildingSummary (dispatch Math_sqrt a s)) =
    size (nodes (dispatch Math_sqrt a s)).
Proof.
  intros Hs. destruct a; cbn [dispatch]; try exact Hs.
  - unfold setNodes at 1. cbn [buildingSummary]. rewrite summaryOfDamages_counted.
    apply same_keys_size. intros i.
    destruct (setNodes_keys ns rnd now s i) as [Hd Hn].
    unfold setNodes in Hd at 1. cbn [buildingDamages] in Hd. by rewrite Hd, Hn.
  - unfold checkConsensus.
    pose proof (consensusStep_unchanged Math_sqrt now s) as Hun. cbn zeta in Hun.
    destruct (JS.forEach (nodes s) (consensusStep Math_sqrt now s)
                (nodes s, consensusEvidence s, false)) as [[nn ne] hc].
    destruct hc; [by rewrite updateBuildingSummary_counted|exact Hs].
  - rewrite (keeps_buildings_size _ _ (applyEarthquakeDamage_keeps damages s)).
    unfold applyEarthquakeDamage.
    by destruct (JS.forEach damages applyOne (buildingDamages s, nodes s)).
  - by rewrite updateBuildingSummary_counted.
  - rewrite (keeps_buildings_size _ _ (resetToSafe_keeps rnd now s)).
    destruct (resetToSafe_components rnd now s) as [_ Hd].
    assert (Hsum : buildingSummary (resetToSafe rnd now s) =
                   summaryOfDamages (buildingDamages (resetToSafe rnd now s))).
    { unfold resetToSafe. by destruct (resetLoop rnd s) as [[[nn nd] sc] ix]. }
    rewrite Hsum, summaryOfDamages_counted. apply same_keys_size. intros i.
    apply resetToSafe_record_keys.
Qed.

(** X2. In every reachable state the four counters of the building
    summary add up to the number of buildings. *)
Theorem X2_summary_counts_every_building (s : SeismosState) :
  reachable Math_sqrt (fun _ => True) s ->
  counted (buildingSummary s) = size (nodes s).
Proof.
  induction 1 as [|s a _ IH _]; [done|]. by apply dispatch_counted.
Qed.

(** X3. In every reachable state the buildings and the damage records
    have the same ids: every building has a record, and no record is
    kept for a building that is gone. *)
Theorem X3_nodes_and_records_share_their_ids (s : SeismosState) (i : string) :
  reachable Math_sqrt (fun _ => True) s ->
  is_Some (nodes s !! i) <-> is_Some (buildingDamages s !! i).
Proof.
  intros Hreach. split.
  - intros [n Hn].
    destruct (reachable_statuses_ok Math_sqrt _ s Hreach i n Hn) as (d & Hd & _).
    by exists d.
  - revert i. induction Hreach as [|s a _ IH _]; intros i.
    + simpl. rewrite lookup_empty. by intros [? ?].
    + by apply dispatch_records_owned.
Qed.

(** X4. No action other than [setNodes] adds, removes or moves a
    building: after any sequence of such actions every building is still
    there with its id, name, position and kind, only its status may
    differ, and no other building has appeared. *)
Theorem X4_buildings_are_kept (acts : list Action) (s : SeismosState) :
  Forall (fun a => replacesBuildings a = false) acts ->
  keeps_buildings s (dispatchAll Math_sqrt acts s).
Proof.
  intros Hacts. revert s. induction Hacts as [|a acts Ha _ IH]; intros s.
  - by apply keeps_buildings_refl.
  - simpl. eapply keeps_buildings_trans; [|apply IH].
    by apply dispatch_keeps_buildings.
Qed.

(** *** Collapse is final *)

Lemma dispatch_collapse_stays a s i n :
  statuses_ok s ->
  (forall i d, buildingDamages s !! i = Some d -> ledger_ok d) ->
  admissible a -> reinitialises a = false ->
  nodes s !! i = Some n -> status n = collapse ->
  nodes (dispatch Math_sqrt a s) !! i = Some n.
Proof.
  intros Hst Hled Hadm Hre Hn Hc.
  destruct a; cbn [dispatch admissible reinitialises] in *; try done.
  - pose proof (checkConsensus_at Math_sqrt now s i) as Hat. rewrite Hn in Hat.
    unfold consensusAt in Hat.
    rewrite (bool_decide_eq_false_2 (status n <> collapse)) in Hat by (by intros ?).
    rewrite (bool_decide_eq_false_2 (status n = collapse_inferred)) in Hat
      by (by rewrite Hc).
    rewrite !andb_false_r in Hat. cbn [andb] in Hat. by injection Hat as -> _.
  - pose proof (applyEarthquakeDamage_at damages s i) as Hat.
    rewrite Hn in Hat.
    destruct (damages !! i) as [added|] eqn:Hadd; [|by injection Hat as _ ->].
    destruct (Hst i n Hn) as (d & Hd & [Hok|Hok]); [|congruence].
    rewrite Hd in Hat. unfold applyAt in Hat. cbn [fst snd] in Hat.
    rewrite decide_True in Hat by (by rewrite Hc).
    injection Hat as _ ->. f_equal.
    rewrite Hc in Hok. symmetry in Hok. apply getStatusFromScore_collapse in Hok.
    destruct (Hled i d Hd) as [_ Htot]. specialize (Hadm i added Hadd).
    replace (getStatusFromScore _) with collapse.
    + by rewrite <- Hc, withStatus_id.
    + symmetry. apply getStatusFromScore_collapse. lia.
Qed.

(** X5. A building that has reached the status [collapse] keeps it: no
    sequence of actions that does not reinitialise the ledger changes
    its node, whatever further damage, heartbeats or consensus checks it
    brings. *)
Theorem X5_collapse_is_final
    (acts : list Action) (s : SeismosState) (i : string) (n : Node) :
  reachable Math_sqrt admissible s ->
  Forall (fun a => admissible a /\ reinitialises a = false) acts ->
  nodes s !! i = Some n ->
  status n = collapse ->
  nodes (dispatchAll Math_sqrt acts s) !! i = Some n.
Proof.
  intros Hreach Hacts. revert s Hreach.
  induction Hacts as [|a acts [Hadm Hre] _ IH]; intros s Hreach Hn Hc; [done|].
  simpl. apply IH; [by constructor| |done].
  apply dispatch_collapse_stays; try done.
  - by eapply reachable_statuses_ok.
  - by apply reachable_ledger_ok.
Qed.

(** *** The evidence of an inferred collapse *)

Lemma dispatch_evidence_ok a s :
  evidence_ok s -> evidence_ok (dispatch Math_sqrt a s).
Proof.
  intros Hs. destruct a; cbn [dispatch]; try exact Hs.
  - intros i n Hn Hst.
    destruct (setNodes_not_inferred ns rnd now s i n Hn) as (d & _ & Hgs).
    rewrite Hgs in Hst. by apply getStatusFromScore_not_inferred in Hst.
  - intros i n' Hn' Hst.
    pose proof (checkConsensus_at Math_sqrt now s i) as Hat. rewrite Hn' in Hat.
    destruct (nodes s !! i) as [n|] eqn:Hn; [|by injection Hat].
    assert (Hkeys : forall w, is_Some (nodes s !! w) ->
                      is_Some (nodes (checkConsensus Math_sqrt now s) !! w)).
    { intros w. by rewrite (keeps_buildings_keys _ _ w (checkConsensus_keeps now s)). }
    assert (Hold : (Some n', consensusEvidence (checkConsensus Math_sqrt now s) !! i)
                   = (Some n, consensusEvidence s !! i) ->
                   exists ws,
                     consensusEvidence (checkConsensus Math_sqrt now s) !! i = Some ws /\
                     (3 <= length ws)%nat /\ NoDup ws /\
                     forall w, w ∈ ws ->
                       w <> i /\ is_Some (nodes (checkConsensus Math_sqrt now s) !! w)).
    { intros [= -> ->]. destruct (Hs i n Hn Hst) as (ws & Hev & Hlen & Hnd & Hws).
      exists ws. do 3 (split; [done|]). intros w Hw.
      destruct (Hws w Hw). split; [done|]. by apply Hkeys. }
    unfold consensusAt in Hat.
    destruct (isSilent now s i && bool_decide (status n <> collapse)
              && bool_decide (status n <> collapse_inferred)).
    + destruct (isEarthquakeActive s); [|by apply Hold].
      destruct (3 <=? length (findWitnesses Math_sqrt now s i n))%nat eqn:Hlen;
        [|by apply Hold].
      injection Hat as _ ->. eexists. split; [done|].
      split; [by apply Nat.leb_le|]. split; [apply findWitnesses_NoDup|].
      intros w Hw. apply findWitnesses_isWitness in Hw as [Hne (nb & t & Hnb & _)].
      split; [done|]. apply Hkeys. by eexists.
    + destruct (negb (isSilent now s i) && bool_decide (status n = collapse_inferred));
        [|by apply Hold].
      destruct (buildingDamages s !! i); [|by apply Hold].
      injection Hat as -> _. simpl in Hst.
      by apply getStatusFromScore_not_inferred in Hst.
  - intros i n' Hn' Hst.
    destruct (applyEarthquakeDamage_frame damages s) as (_ & _ & ->).
    assert (Hn : nodes s !! i = Some n').
    { pose proof (applyEarthquakeDamage_at damages s i) as Hat.
      rewrite Hn' in Hat.
      destruct (damages !! i) as [added|]; [|by injection Hat].
      unfold applyAt in Hat. cbn [fst snd] in Hat.
      destruct (buildingDamages s !! i); [|by injection Hat].
      destruct (nodes s !! i) as [node|]; [|by injection Hat].
      destruct (decide (status node <> collapse_inferred));
        injection Hat as _ ->; [|done].
      simpl in Hst. by apply getStatusFromScore_not_inferred in Hst. }
    destruct (Hs i n' Hn Hst) as (ws & Hev & Hlen & Hnd & Hws).
    exists ws. do 3 (split; [done|]). intros w Hw.
    destruct (Hws w Hw). split; [done|].
    by rewrite (keeps_buildings_keys _ _ w (applyEarthquakeDamage_keeps damages s)).
  - intros i n Hn Hst. exfalso.
    destruct (resetToSafe_components rnd now s) as [Hnn _]. rewrite Hnn in Hn.
    destruct (resetLoop_spec rnd s) as (seen & Hall & Hspec).
    destruct (Hspec i) as [Hin Hout].
    destruct (decide (i ∈ seen)) as [Hseen|Hseen].
    + destruct (Hin Hseen) as (n0 & k & Hn0 & _). rewrite Hn0 in Hn.
      injection Hn as <-. simpl in Hst.
      by apply getStatusFromScore_not_inferred in Hst.
    + destruct (Hout Hseen) as [_ Hsame]. rewrite Hsame in Hn.
      apply Hseen, Hall. by eexists.
Qed.

(** X6. In every reachable state a building with the status
    [collapse_inferred] has an evidence entry: at least three distinct
    witnesses, each a building of the state other than itself. *)
Theorem X6_inferred_collapse_has_evidence (s : SeismosState) (i : string) (n : Node) :
  reachable Math_sqrt (fun _ => True) s ->
  nodes s !! i = Some n ->
  status n = collapse_inferred ->
  exists ws,
    consensusEvidence s !! i = Some ws /\
    (3 <= length ws)%nat /\ NoDup ws /\
    forall w, w ∈ ws -> w <> i /\ is_Some (nodes s !! w).
Proof.
  intros Hreach. revert i n.
  change (evidence_ok s).
  induction Hreach as [|s a _ IH _].
  - intros i n Hn. simpl in Hn. by rewrite lookup_empty in Hn.
  - by apply dispatch_evidence_ok.
Qed.

(** *** [resetToSafe] *)

(** X7. [resetToSafe] keeps every building and gives it a new record
    [(b, 0, b)] with a base score [b] in 0..44, the status of [b] and a
    heartbeat at the current time; it ends the earthquake and discards
    all consensus evidence. *)
Theorem X7_resetToSafe_starts_afresh
    (rnd : nat -> Q) (now : Z) (s : SeismosState) (i : string) (n : Node) :
  JS.random_ok rnd ->
  nodes s !! i = Some n ->
  let s' := resetToSafe rnd now s in
  (exists b,
     0 <= b <= 44 /\
     buildingDamages s' !! i = Some (mkDamage b 0 b) /\
     nodes s' !! i = Some (withStatus n (getStatusFromScore b))) /\
  lastHeartbeat s' !! i = Some now /\
  isEarthquakeActive s' = false /\
  earthquakeProgress s' = 0%Q /\
  consensusEvidence s' = ∅.
Proof.
  intros Hrnd Hn s'. split; [|split].
  - destruct (resetToSafe_components rnd now s) as [Hnn Hdd].
    destruct (resetLoop_spec rnd s) as (seen & Hall & Hspec).
    destruct (Hspec i) as [Hin _].
    destruct (Hin (Hall i (ex_intro _ n Hn))) as (n0 & k & Hn0 & Hd0).
    exists (drawBaseScore k (rnd k)). split.
    { destruct (Hrnd k). by apply drawBaseScore_bounds. }
    unfold s'. rewrite Hnn, Hdd. split; [exact Hd0|].
    rewrite Hn0. f_equal.
    pose proof (resetLoop_at rnd s i) as Hat. rewrite Hn0, Hn in Hat.
    simpl in Hat. injection Hat as Hid Hname Hlat Hlng Hphys.
    unfold withStatus. by rewrite Hid, Hname, Hlat, Hlng, Hphys.
  - assert (Hhb : lastHeartbeat s' =
                  JS.newMap (map (fun kv : string * Node => (fst kv, now))
                               (map_to_list (nodes s)))).
    { unfold s', resetToSafe. by destruct (resetLoop rnd s) as [[[nn nd] sc] ix]. }
    rewrite Hhb, (newMap_const fst now). rewrite decide_True; [done|].
    apply list_elem_of_fmap. exists (i, n). split; [done|].
    by apply elem_of_map_to_list.
  - unfold s', resetToSafe. by destruct (resetLoop rnd s) as [[[nn nd] sc] ix].
Qed.

(** *** Heartbeats *)

(** X8. How [checkConsensus] classifies a building by the age of its
    last heartbeat (a building never heard of counts as last seen at
    time 0): younger than 1000 ms it is active and not silent, older
    than 1000 ms it is silent and not active, and at exactly 1000 ms it
    is neither; a building without any heartbeat is never active. *)
Theorem X8_silence_and_activity_by_age (now : Z) (s : SeismosState) (i : string) :
  let age := heartbeatAge now s i in
  (isSilent now s i = true <-> 1000 < age) /\
  (i ∈ activeNodeIds now s <-> is_Some (lastHeartbeat s !! i) /\ age < 1000) /\
  (age = 1000 -> isSilent now s i = false /\ i ∉ activeNodeIds now s) /\
  (isSilent now s i = true -> i ∉ activeNodeIds now s).
Proof.
  intros age.
  assert (Hsil : isSilent now s i = true <-> 1000 < age).
  { unfold isSilent, age, heartbeatAge, SILENCE_THRESHOLD. apply Z.ltb_lt. }
  assert (Hact : i ∈ activeNodeIds now s <->
                 is_Some (lastHeartbeat s !! i) /\ age < 1000).
  { rewrite activeNodeIds_spec. unfold age, heartbeatAge, SILENCE_THRESHOLD. split.
    - intros (t & Ht & Hlt). rewrite Ht. split; [by eexists|done].
    - intros [[t Ht] Hlt]. rewrite Ht in Hlt. by exists t. }
  split; [exact Hsil|]. split; [exact Hact|]. split.
  - intros Heq. split.
    + apply not_true_iff_false. rewrite Hsil. lia.
    + rewrite Hact. lia.
  - rewrite Hsil, Hact. lia.
Qed.

(** *** [applyEarthquakeDamage] *)

(** X9. A damage delta for a building without a damage record is
    dropped: no record is created and the node is left as it is. A
    building that the delta map does not mention is left as it is, too,
    and the base score of a record never changes. *)
Theorem X9_damage_reaches_only_listed_records
    (damages : gmap string Z) (s : SeismosState) (i : string) :
  let s' := applyEarthquakeDamage damages s in
  (buildingDamages s !! i = None ->
     buildingDamages s' !! i = None /\ nodes s' !! i = nodes s !! i) /\
  (damages !! i = None ->
     buildingDamages s' !! i = buildingDamages s !! i /\
     nodes s' !! i = nodes s !! i) /\
  (forall d, buildingDamages s !! i = Some d ->
     exists d', buildingDamages s' !! i = Some d' /\ baseScore d' = baseScore d).
Proof.
  intros s'. pose proof (applyEarthquakeDamage_at damages s i) as Hat.
  fold s' in Hat. split; [|split].
  - intros Hnone. rewrite Hnone in Hat.
    destruct (damages !! i); [unfold applyAt in Hat; cbn [fst snd] in Hat|];
      by injection Hat as -> ->.
  - intros Hnone. rewrite Hnone in Hat. by injection Hat as -> ->.
  - intros d Hd. rewrite Hd in Hat.
    destruct (damages !! i) as [added|].
    + unfold applyAt in Hat. cbn [fst snd] in Hat. injection Hat as -> _.
      by eexists.
    + injection Hat as -> _. by exists d.
Qed.

(** X10. Damage adds up over events: after the deltas [a] and then [b]
    have been applied to a building, its record holds the event damage
    it had plus [a + b], the same base score, and the total
    [min(100, baseScore + earthquakeDamage)], which is what one event
    with the delta [a + b] leaves. *)
Theorem X10_damage_accumulates_over_events
    (d1 d2 d12 : gmap string Z) (s : SeismosState) (i : string)
    (d : BuildingDamage) (a b : Z) :
  buildingDamages s !! i = Some d ->
  d1 !! i = Some a ->
  d2 !! i = Some b ->
  d12 !! i = Some (a + b) ->
  let twice := applyEarthquakeDamage d2 (applyEarthquakeDamage d1 s) in
  buildingDamages twice !! i =
    Some (mkDamage (baseScore d) (earthquakeDamage d + a + b)
            (Z.min 100 (baseScore d + earthquakeDamage d + a + b))) /\
  buildingDamages twice !! i = buildingDamages (applyEarthquakeDamage d12 s) !! i.
Proof.
  intros Hd Ha Hb Hab twice.
  pose proof (applyEarthquakeDamage_at d1 s i) as H1.
  rewrite Ha, Hd in H1. unfold applyAt in H1. cbn [fst snd] in H1.
  injection H1 as H1 _.
  pose proof (applyEarthquakeDamage_at d2 (applyEarthquakeDamage d1 s) i) as H2.
  rewrite Hb, H1 in H2. unfold applyAt in H2. cbn [fst snd] in H2.
  cbn [baseScore earthquakeDamage] in H2. injection H2 as H2 _.
  pose proof (applyEarthquakeDamage_at d12 s i) as H3.
  rewrite Hab, Hd in H3. unfold applyAt in H3. cbn [fst snd] in H3.
  injection H3 as H3 _.
  unfold twice. rewrite H2, H3. split; do 2 f_equal; lia.
Qed.

Lemma resetToSafe_not_inferred rnd now s i n :
  nodes (resetToSafe rnd now s) !! i = Some n ->
  exists d, buildingDamages (resetToSafe rnd now s) !! i = Some d /\
            status n = getStatusFromScore (totalScore d).
Proof.
  intros Hn. destruct (resetToSafe_components rnd now s) as [Hnn Hdd].
  rewrite Hnn in Hn. rewrite Hdd.
  destruct (resetLoop_spec rnd s) as (seen & Hall & Hspec).
  destruct (Hspec i) as [Hin Hout].
  destruct (decide (i ∈ seen)) as [Hseen|Hseen].
  - destruct (Hin Hseen) as (n0 & k & Hn0 & Hd0). rewrite Hn0 in Hn.
    injection Hn as <-. eexists. split; [exact Hd0|]. done.
  - destruct (Hout Hseen) as [_ Hsame]. rewrite Hsame in Hn.
    exfalso. apply Hseen, Hall. by eexists.
Qed.
End StoreProps.

(** ** The simulator as a whole *)
Section SimulatorProps.

Import Simulator SimulatorInv.

Variables Math_sqrt Math_exp Math_sin : Q -> Q.
Variable Math_PI : Q.
Variable DEMO_NODES : list DemoNode.
Context {H : Type}.

Local Abbreviation known := (known DEMO_NODES).
Local Abbreviation refreshIdle := (refreshIdle Math_sqrt Math_exp DEMO_NODES).
Local Abbreviation seismicReadings :=
  (seismicReadings Math_sqrt Math_exp DEMO_NODES).
Local Abbreviation quakeTick :=
  (quakeTick Math_sqrt Math_exp Math_sin Math_PI DEMO_NODES (H:=H)).
Local Abbreviation noiseTick :=
  (noiseTick Math_sqrt Math_exp Math_sin Math_PI (H:=H)).
Local Abbreviation fire :=
  (fire Math_sqrt Math_exp Math_sin Math_PI DEMO_NODES (H:=H)).
Local Abbreviation run :=
  (run Math_sqrt Math_exp Math_sin Math_PI DEMO_NODES (H:=H)).
Local Abbreviation runAll :=
  (runAll Math_sqrt Math_exp Math_sin Math_PI DEMO_NODES (H:=H)).

Ltac sim_simpl :=
  cbn [sim timers host nextHandle updateCallbacks liveReadings deadNodes
       earthquakeInterval idleInterval currentDamages withSim withHost
       withReadings emitUpdate setInterval clearInterval updateDamages
       onLiveUpdate fst snd] in *.

(** *** The loops over the population *)





(** *** What a tick does to the simulator *)

Lemma silence_loop scores rnd (results : gmap string Z) (dead : gset string) (c : nat) :
  let res := fst (JS.forEach results (silenceStep scores rnd) (dead, c)) in
  (forall i, i ∈ dead -> i ∈ res) /\
  (forall i, i ∈ res -> i ∉ dead ->
     exists d k, results !! i = Some d /\
       (85 <= projectedTotal scores i d)%Q /\ (rnd k < 0.4)%Q).
Proof.
  apply (forEach_invariant
    (fun acc : gset string * nat =>
       (forall i, i ∈ dead -> i ∈ fst acc) /\
       (forall i, i ∈ fst acc -> i ∉ dead ->
          exists d k, results !! i = Some d /\
            (85 <= projectedTotal scores i d)%Q /\ (rnd k < 0.4)%Q))).
  - split; [done|]. intros i Hi Hn. by destruct Hn.
  - intros [dd cc] i d Hid [Hsub Hnew]. unfold silenceStep. cbn [fst snd] in *.
    fold (projectedTotal scores i d).
    destruct (Qle_bool 85 (projectedTotal scores i d)) eqn:Hproj; cbn [andb];
      [|done].
    destruct (negb (bool_decide (i ∈ dd))); [|done].
    destruct (JS.ltb (rnd cc) 0.4) eqn:Hdraw; cbn [fst]; [|done].
    split.
    + intros j Hj. apply elem_of_union. right. by apply Hsub.
    + intros j Hj Hn. apply elem_of_union in Hj as [Hj|Hj]; [|by apply Hnew].
      apply elem_of_singleton in Hj as ->. exists d, cc.
      split; [done|]. split; [by apply Qle_bool_iff|by apply ltb_spec].
Qed.

Lemma quakeTick_sim h (q : QuakeLoop H) rnd now (w : World H) :
  exists envelope dead c,
    (dead = deadNodes (sim w) \/
     exists c0, dead = fst (JS.forEach (q_results q) (silenceStep (q_scores q) rnd)
                             (deadNodes (sim w), c0))) /\
    let lr := fst (seismicReadings (q_config q) envelope (sim w) rnd 0 now) in
    let sm1 := mkSim lr (earthquakeInterval (sim w)) (idleInterval (sim w)) dead
                 (currentDamages (sim w)) in
    sim (quakeTick h q rnd now w) =
      if lastTick q
      then withReadings sm1 (fst (refreshIdle sm1 rnd c now))
      else sm1.
Proof.
  unfold Simulator.quakeTick, lastTick. cbv zeta. sim_simpl.
  set (envelope := Math_sin _). exists envelope.
  destruct (seismicReadings (q_config q) envelope (sim w) rnd 0 now) as [lr c].
  sim_simpl.
  destruct (JS.gtb envelope 0.8).
  - destruct (JS.forEach (q_results q) (silenceStep (q_scores q) rnd)
                (deadNodes (sim w), c)) as [dead c'] eqn:Hf.
    exists dead, c'. split; [right; exists c; by rewrite Hf|].
    sim_simpl. destruct (Qle_bool _ _); [|done].
    by destruct (earthquakeInterval (sim w)).
  - exists (deadNodes (sim w)), c. split; [by left|].
    sim_simpl. destruct (Qle_bool _ _); [|done].
    by destruct (earthquakeInterval (sim w)).
Qed.

Lemma quakeTick_fields h (q : QuakeLoop H) rnd now (w : World H) :
  earthquakeInterval (sim (quakeTick h q rnd now w)) = earthquakeInterval (sim w) /\
  idleInterval (sim (quakeTick h q rnd now w)) = idleInterval (sim w) /\
  currentDamages (sim (quakeTick h q rnd now w)) = currentDamages (sim w) /\
  (forall i, i ∈ deadNodes (sim w) -> i ∈ deadNodes (sim (quakeTick h q rnd now w))) /\
  (forall i, i ∈ deadNodes (sim (quakeTick h q rnd now w)) -> i ∉ deadNodes (sim w) ->
     exists d k, q_results q !! i = Some d /\
       (85 <= projectedTotal (q_scores q) i d)%Q /\ (rnd k < 0.4)%Q).
Proof.
  destruct (quakeTick_sim h q rnd now w) as (envelope & dead & c & Hdead & Hsim).
  cbv zeta in Hsim. rewrite Hsim.
  assert (Hgrow : (forall i, i ∈ deadNodes (sim w) -> i ∈ dead) /\
                  (forall i, i ∈ dead -> i ∉ deadNodes (sim w) ->
                     exists d k, q_results q !! i = Some d /\
                       (85 <= projectedTotal (q_scores q) i d)%Q /\ (rnd k < 0.4)%Q)).
  { destruct Hdead as [->|[c0 ->]]; [|apply silence_loop].
    split; [done|]. intros i Hi Hn. by destruct Hn. }
  by destruct (lastTick q).
Qed.

Lemma noiseTick_fields h (n : NoiseLoop H) rnd now (w : World H) :
  earthquakeInterval (sim (noiseTick h n rnd now w)) = earthquakeInterval (sim w) /\
  idleInterval (sim (noiseTick h n rnd now w)) = idleInterval (sim w) /\
  currentDamages (sim (noiseTick h n rnd now w)) = currentDamages (sim w) /\
  deadNodes (sim (noiseTick h n rnd now w)) = deadNodes (sim w).
Proof.
  unfold Simulator.noiseTick. cbv zeta. sim_simpl. by destruct (Qle_bool _ _).
Qed.

Lemma idleTick_fields rnd now (w : World H) :
  let w' := idleTick Math_sqrt Math_exp DEMO_NODES rnd now w in
  earthquakeInterval (sim w') = earthquakeInterval (sim w) /\
  idleInterval (sim w') = idleInterval (sim w) /\
  currentDamages (sim w') = currentDamages (sim w) /\
  deadNodes (sim w') = deadNodes (sim w) /\
  timers w' = timers w /\ nextHandle w' = nextHandle w.
Proof.
  unfold idleTick. destruct (earthquakeInterval (sim w)) eqn:He; [done|].
  sim_simpl. by rewrite He.
Qed.

Lemma startIdleSimulation_fields rnd now (w : World H) :
  let w' := startIdleSimulation Math_sqrt Math_exp DEMO_NODES rnd now w in
  earthquakeInterval (sim w') = earthquakeInterval (sim w) /\
  currentDamages (sim w') = currentDamages (sim w) /\
  deadNodes (sim w') = deadNodes (sim w).
Proof.
  unfold startIdleSimulation. by destruct (idleInterval (sim w)).
Qed.

(** X13. A tick silences a sensor only in a running earthquake, and only
    the sensor of a building whose projected total (its score when the
    event was triggered plus the delta of the event, capped at 100) is at
    least 85, on a draw below 0.4; the idle loop and a noise pulse never
    silence a sensor. *)
Theorem X13_sensor_is_lost_only_on_projected_collapse
    (h : nat) (rnd : nat -> Q) (now : Z) (w : World H) (i : string) :
  i ∈ deadNodes (sim (fire h rnd now w)) ->
  i ∉ deadNodes (sim w) ->
  exists q d k,
    timers w !! h = Some (QuakeTimer q) /\
    q_results q !! i = Some d /\
    (85 <= projectedTotal (q_scores q) i d)%Q /\
    (rnd k < 0.4)%Q.
Proof.
  unfold Simulator.fire. intros Hafter Hbefore.
  destruct (timers w !! h) as [[|q|n]|] eqn:Hh.
  - destruct (idleTick_fields rnd now w) as (_ & _ & _ & Hd & _).
    cbv zeta in Hd. rewrite Hd in Hafter. done.
  - destruct (quakeTick_fields h q rnd now w) as (_ & _ & _ & _ & Hnew).
    destruct (Hnew i Hafter Hbefore) as (d & k & ?). by exists q, d, k.
  - destruct (noiseTick_fields h n rnd now w) as (_ & _ & _ & Hd).
    rewrite Hd in Hafter. done.
  - done.
Qed.

Lemma run_keeps_dead (c : Command) (w : World H) (i : string) :
  isReset c = false -> i ∈ deadNodes (sim w) -> i ∈ deadNodes (sim (run c w)).
Proof.
  intros Hc Hi. destruct c; cbn [Simulator.run isReset] in *; try done.
  - destruct (startIdleSimulation_fields rnd now w) as (_ & _ & Hd).
    cbv zeta in Hd. by rewrite Hd.
  - unfold stopIdleSimulation. by destruct (idleInterval (sim w)).
  - unfold Simulator.fire. destruct (timers w !! h) as [[|q|n]|]; [| | |done].
    + destruct (idleTick_fields rnd now w) as (_ & _ & _ & Hd & _).
      cbv zeta in Hd. by rewrite Hd.
    + destruct (quakeTick_fields h q rnd now w) as (_ & _ & _ & Hsub & _).
      by apply Hsub.
    + destruct (noiseTick_fields h n rnd now w) as (_ & _ & _ & Hd).
      by rewrite Hd.
  - unfold stop. by destruct (earthquakeInterval (sim w)).
  - unfold triggerTruckNoise. destruct (find _ DEMO_NODES); [|done].
    by destruct (decide (targetNodeId ∈ deadNodes (sim w))).
Qed.

(** [reset] revives every sensor: afterwards no building is silenced
    and [getReading] answers with a reading for every id; the damage
    table, the earthquake handle and a running idle loop are left as
    they are. *)
Lemma reset_revives_every_sensor
    (rnd : nat -> Q) (now : Z) (w : World H) (i : string)
    (rnd' : nat -> Q) (now' : Z) :
  let w' := reset Math_sqrt Math_exp DEMO_NODES rnd now w in
  deadNodes (sim w') = ∅ /\
  is_Some (getReading Math_sqrt Math_exp (sim w') i rnd' now') /\
  currentDamages (sim w') = currentDamages (sim w) /\
  earthquakeInterval (sim w') = earthquakeInterval (sim w) /\
  (is_Some (idleInterval (sim w)) ->
     liveReadings (sim w') = liveReadings (sim w) /\ timers w' = timers w).
Proof.
  intros w'.
  assert (Hdead : deadNodes (sim w') = ∅).
  { unfold w', reset.
    destruct (startIdleSimulation_fields rnd now
                (withSim w (mkSim (liveReadings (sim w)) (earthquakeInterval (sim w))
                              (idleInterval (sim w)) ∅ (currentDamages (sim w)))))
      as (_ & _ & Hd). cbv zeta in Hd. by rewrite Hd. }
  split; [exact Hdead|]. split; [|split; [|split]].
  - unfold getReading. rewrite Hdead. rewrite decide_False by apply not_elem_of_empty.
    destruct (liveReadings (sim w') !! i); by eexists.
  - unfold w', reset, startIdleSimulation. sim_simpl.
    by destruct (idleInterval (sim w)).
  - unfold w', reset, startIdleSimulation. sim_simpl.
    by destruct (idleInterval (sim w)).
  - intros [hd Hhd]. unfold w', reset, startIdleSimulation. sim_simpl.
    by rewrite Hhd.
Qed.

(** X14. A silenced sensor stays silenced until [reset]: no sequence of
    commands without a [reset] takes a building out of the set of dead
    nodes, so [getReading] keeps answering [null] for it.  A [reset]
    then empties the set, and [getReading] answers with a reading for
    every id; the damage table, the earthquake handle and a running idle
    loop are left as they are. *)
Theorem X14_only_reset_revives_a_sensor
    (cs : list Command) (w : World H) (i : string)
    (rnd : nat -> Q) (now : Z) (rnd' : nat -> Q) (now' : Z) :
  Forall (fun c => isReset c = false) cs ->
  i ∈ deadNodes (sim w) ->
  let w1 := runAll cs w in
  let w2 := reset Math_sqrt Math_exp DEMO_NODES rnd now w1 in
  (i ∈ deadNodes (sim w1) /\
   getReading Math_sqrt Math_exp (sim w1) i rnd' now' = None) /\
  deadNodes (sim w2) = ∅ /\
  (forall j, is_Some (getReading Math_sqrt Math_exp (sim w2) j rnd' now')) /\
  currentDamages (sim w2) = currentDamages (sim w1) /\
  earthquakeInterval (sim w2) = earthquakeInterval (sim w1) /\
  (is_Some (idleInterval (sim w1)) ->
     liveReadings (sim w2) = liveReadings (sim w1) /\ timers w2 = timers w1).
Proof.
  intros Hcs Hi w1 w2.
  assert (Hdead : i ∈ deadNodes (sim w1)).
  { unfold w1. clear w1 w2. revert w Hi.
    induction Hcs as [|c cs Hc _ IH]; intros w Hi; [done|].
    cbn [SimulatorInv.runAll fold_left]. apply IH. by apply run_keeps_dead. }
  split; [split; [exact Hdead|]|].
  { unfold getReading. by rewrite decide_True. }
  destruct (reset_revives_every_sensor rnd now w1 i rnd' now')
    as (He & _ & Hd & Hq & Hidle).
  split; [exact He|]. split; [|by split].
  intros j. by destruct (reset_revives_every_sensor rnd now w1 j rnd' now') as (_ & ? & _).
Qed.

(** *** The noise pulse *)

Lemma find_known (target : string) :
  is_Some (find (fun n => bool_decide (id n = target)) DEMO_NODES) <-> known target.
Proof.
  unfold Simulator.known. split.
  - intros [n Hn]. apply find_some in Hn as [Hin Hid].
    apply bool_decide_eq_true in Hid as <-.
    apply list_elem_of_fmap. exists n. split; [done|]. by apply list_elem_of_In.
  - intros Hk. apply list_elem_of_fmap in Hk as [n [-> Hn]].
    destruct (find (fun m => bool_decide (id m = id n)) DEMO_NODES) eqn:E;
      [by eexists|].
    apply list_elem_of_In in Hn.
    pose proof (find_none _ _ E n Hn) as Hf. simpl in Hf.
    by apply bool_decide_eq_false in Hf.
Qed.

(** X15. [triggerTruckNoise] on an id outside the population or on a
    silenced building starts nothing: the callback is called at once and
    nothing else changes. On a live building of the population it
    registers the noise interval and does not call the callback. *)
Theorem X15_truck_noise_needs_a_live_target
    (target : string) (onFiltered : H -> H) (w : World H) :
  let w' := triggerTruckNoise DEMO_NODES target onFiltered w in
  (~ known target \/ target ∈ deadNodes (sim w) ->
     w' = withHost w (onFiltered (host w))) /\
  (known target -> target ∉ deadNodes (sim w) ->
     timers w' =
       <[nextHandle w := NoiseTimer (mkNoiseLoop target 0 onFiltered)]> (timers w) /\
     host w' = host w /\ sim w' = sim w).
Proof.
  intros w'. unfold w', triggerTruckNoise.
  pose proof (find_known target) as Hfind.
  destruct (find (fun n => bool_decide (id n = target)) DEMO_NODES) as [n|].
  - assert (Hk : known target) by (apply Hfind; by eexists).
    destruct (decide (target ∈ deadNodes (sim w))) as [Hd|Hd].
    + split; [done|]. intros _ Hlive. by destruct Hlive.
    + split; [intros [Hu|Hdd]; [by destruct Hu|by destruct Hd]|]. done.
  - split; [done|]. intros Hk. apply Hfind in Hk as [? ?]. done.
Qed.


(** *** The handles *)

Lemma run_keeps_quake_handle (c : Command) (w : World H) :
  isStop c = false ->
  is_Some (earthquakeInterval (sim w)) ->
  is_Some (earthquakeInterval (sim (run c w))).
Proof.
  intros Hc He. destruct c; cbn [Simulator.run isStop] in *; try done.
  - destruct (startIdleSimulation_fields rnd now w) as (Hq & _).
    cbv zeta in Hq. by rewrite Hq.
  - unfold stopIdleSimulation. by destruct (idleInterval (sim w)).
  - unfold Simulator.fire. destruct (timers w !! h) as [[|q|n]|]; [| | |done].
    + destruct (idleTick_fields rnd now w) as (Hq & _).
      cbv zeta in Hq. by rewrite Hq.
    + destruct (quakeTick_fields h q rnd now w) as (Hq & _). by rewrite Hq.
    + destruct (noiseTick_fields h n rnd now w) as (Hq & _). by rewrite Hq.
  - unfold reset.
    destruct (startIdleSimulation_fields rnd now
                (withSim w (mkSim (liveReadings (sim w)) (earthquakeInterval (sim w))
                              (idleInterval (sim w)) ∅ (currentDamages (sim w)))))
      as (Hq & _). cbv zeta in Hq. by rewrite Hq.
  - unfold triggerTruckNoise. destruct (find _ DEMO_NODES); [|done].
    by destruct (decide (targetNodeId ∈ deadNodes (sim w))).
Qed.

(** X17. The earthquake handle is never forgotten when an event ends:
    once an earthquake has been triggered, the handle stays set through
    every sequence of commands without a [stop], also after the event
    has completed, and for as long the idle tick does nothing. *)
Theorem X17_idle_tick_is_skipped_until_stop
    (cs : list Command) (w : World H) (rnd : nat -> Q) (now : Z) :
  is_Some (earthquakeInterval (sim w)) ->
  Forall (fun c => isStop c = false) cs ->
  let w' := runAll cs w in
  is_Some (earthquakeInterval (sim w')) /\
  idleTick Math_sqrt Math_exp DEMO_NODES rnd now w' = w' /\
  (forall h, timers w' !! h = Some IdleTimer -> fire h rnd now w' = w').
Proof.
  intros He Hcs w'.
  assert (Hq : is_Some (earthquakeInterval (sim w'))).
  { unfold w'. clear w'. revert w He. induction Hcs as [|c cs Hc _ IH]; intros w He; [done|].
    cbn [SimulatorInv.runAll fold_left]. apply IH. by apply run_keeps_quake_handle. }
  assert (Hidle : idleTick Math_sqrt Math_exp DEMO_NODES rnd now w' = w').
  { unfold idleTick. by destruct Hq as [e ->]. }
  split; [exact Hq|]. split; [exact Hidle|].
  intros h Hh. unfold Simulator.fire. by rewrite Hh.
Qed.

Lemma quakeTick_timers h (q : QuakeLoop H) rnd now (w : World H) :
  nextHandle (quakeTick h q rnd now w) = nextHandle w /\
  timers (quakeTick h q rnd now w) =
    let tm := <[h := QuakeTimer
                       (mkQuakeLoop (q_config q) (q_scores q) (q_results q)
                          (q_tickCount q + 1) (q_onProgress q) (q_onComplete q))]>
                (timers w) in
    if lastTick q
    then match earthquakeInterval (sim w) with
         | Some e => delete e tm
         | None => tm
         end
    else tm.
Proof.
  unfold Simulator.quakeTick, lastTick. cbv zeta. sim_simpl.
  set (envelope := Math_sin _).
  destruct (seismicReadings (q_config q) envelope (sim w) rnd 0 now) as [lr c].
  sim_simpl.
  destruct (if JS.gtb envelope 0.8
            then JS.forEach (q_results q) (silenceStep (q_scores q) rnd)
                   (deadNodes (sim w), c)
            else (deadNodes (sim w), c)) as [dead c'].
  sim_simpl. destruct (Qle_bool _ _); [|done].
  by destruct (earthquakeInterval (sim w)).
Qed.

Lemma noiseTick_timers h (n : NoiseLoop H) rnd now (w : World H) :
  nextHandle (noiseTick h n rnd now w) = nextHandle w /\
  timers (noiseTick h n rnd now w) =
    let tm := <[h := NoiseTimer
                       (mkNoiseLoop (n_target n) (n_tickCount n + 1) (n_onFiltered n))]>
                (timers w) in
    if Qle_bool 40 (inject_Z (n_tickCount n + 1)) then delete h tm else tm.
Proof.
  unfold Simulator.noiseTick. cbv zeta. sim_simpl. by destruct (Qle_bool _ _).
Qed.

(** Registering an interval under the next handle. *)
Lemma handles_ok_register (t : Timer H) (w w' : World H) :
  handles_ok w ->
  timers w' = <[nextHandle w := t]> (timers w) ->
  nextHandle w' = S (nextHandle w) ->
  (match t with
   | IdleTimer => idleInterval (sim w) = None /\
                  idleInterval (sim w') = Some (nextHandle w)
   | _ => idleInterval (sim w') = idleInterval (sim w)
   end) ->
  (match t with
   | QuakeTimer _ => earthquakeInterval (sim w') = Some (nextHandle w)
   | _ => earthquakeInterval (sim w') = earthquakeInterval (sim w)
   end) ->
  handles_ok w'.
Proof.
  intros (Hlt & Hidle & Hquake) Htm Hnh Hi He.
  assert (Hfresh : timers w !! nextHandle w = None).
  { destruct (timers w !! nextHandle w) as [t0|] eqn:E; [|done].
    apply Hlt in E. lia. }
  assert (Hnoidle : idleInterval (sim w) <> Some (nextHandle w)).
  { intros Hc. apply Hidle in Hc. congruence. }
  unfold handles_ok. rewrite Htm, Hnh. split; [|split].
  - intros h t0 Ht. destruct (decide (nextHandle w = h)) as [<-|Hne]; [lia|].
    rewrite lookup_insert_ne in Ht by done. apply Hlt in Ht. lia.
  - intros h. destruct (decide (nextHandle w = h)) as [<-|Hne].
    + rewrite lookup_insert_eq. destruct t as [|q|n].
      * destruct Hi as [_ ->]. done.
      * rewrite Hi. split; [done|]. intros Hc. by destruct Hnoidle.
      * rewrite Hi. split; [done|]. intros Hc. by destruct Hnoidle.
    + rewrite lookup_insert_ne by done. rewrite Hidle. destruct t as [|q|n].
      * destruct Hi as [Hi1 Hi2]. rewrite Hi1, Hi2. split; [done|].
        intros [= Heq]. done.
      * by rewrite Hi.
      * by rewrite Hi.
  - intros e Hee. destruct (decide (nextHandle w = e)) as [<-|Hne].
    + split; [lia|]. rewrite lookup_insert_eq. intros t0 [= <-].
      destruct t as [|q|n].
      * rewrite He in Hee. apply Hquake in Hee as [Hee _]. lia.
      * by exists q.
      * rewrite He in Hee. apply Hquake in Hee as [Hee _]. lia.
    + rewrite lookup_insert_ne by done.
      assert (Hold : earthquakeInterval (sim w) = Some e).
      { destruct t as [|q|n]; [by rewrite <- He| |by rewrite <- He].
        rewrite He in Hee. by injection Hee. }
      destruct (Hquake e Hold) as [Hl Ht]. split; [lia|exact Ht].
Qed.

(** Removing the interval registered under [h], after it has been
    replaced by one of the same kind. *)
Lemma handles_ok_update (h : nat) (t t' : Timer H) (removed : option nat)
    (w w' : World H) :
  handles_ok w ->
  timers w !! h = Some t ->
  (match t, t' with
   | QuakeTimer _, QuakeTimer _ | NoiseTimer _, NoiseTimer _ => True
   | _, _ => False
   end) ->
  (forall e, removed = Some e ->
     forall t0, timers w !! e = Some t0 -> t0 <> IdleTimer) ->
  timers w' = match removed with
              | Some e => delete e (<[h := t']> (timers w))
              | None => <[h := t']> (timers w)
              end ->
  nextHandle w' = nextHandle w ->
  idleInterval (sim w') = idleInterval (sim w) ->
  earthquakeInterval (sim w') = earthquakeInterval (sim w) ->
  handles_ok w'.
Proof.
  intros (Hlt & Hidle & Hquake) Hh Hkind Hrem Htm Hnh Hi He.
  assert (Hins : forall k t0, <[h := t']> (timers w) !! k = Some t0 ->
            (k < nextHandle w)%nat /\
            (t0 = IdleTimer -> timers w !! k = Some IdleTimer) /\
            (forall e, earthquakeInterval (sim w) = Some e -> k = e ->
               exists q, t0 = QuakeTimer q)).
  { intros k t0 Hk. destruct (decide (h = k)) as [<-|Hne].
    - rewrite lookup_insert_eq in Hk. injection Hk as <-.
      split; [by eapply Hlt|]. split.
      + intros ->. by destruct t.
      + intros e Hee ->. destruct (Hquake e Hee) as [_ Hq].
        destruct (Hq t Hh) as [q0 ->]. destruct t'; [done| |done]. by eexists.
    - rewrite lookup_insert_ne in Hk by done.
      split; [by eapply Hlt|]. split; [by intros ->|].
      intros e Hee ->. destruct (Hquake e Hee) as [_ Hq]. by apply Hq. }
  assert (Hsub : forall k t0, timers w' !! k = Some t0 ->
            <[h := t']> (timers w) !! k = Some t0).
  { intros k t0. rewrite Htm. destruct removed as [e|]; [|done].
    destruct (decide (e = k)) as [<-|Hne].
    - by rewrite lookup_delete_eq.
    - by rewrite lookup_delete_ne. }
  unfold handles_ok. rewrite Hnh, Hi, He. split; [|split].
  - intros k t0 Hk. by apply (Hins k t0), Hsub.
  - intros k. rewrite <- Hidle. split.
    + intros Hk. destruct (Hins k IdleTimer (Hsub _ _ Hk)) as (_ & Hid & _).
      by apply Hid.
    + intros Hk. rewrite Htm.
      assert (Hk' : <[h := t']> (timers w) !! k = Some IdleTimer).
      { rewrite lookup_insert_ne; [done|]. intros ->. rewrite Hh in Hk.
        injection Hk as ->. done. }
      destruct removed as [e|]; [|done].
      rewrite lookup_delete_ne; [done|]. intros ->.
      by apply (Hrem k eq_refl IdleTimer).
  - intros e Hee. destruct (Hquake e Hee) as [Hl _]. split; [done|].
    intros t0 Ht0. apply Hsub in Ht0.
    destruct (Hins e t0 Ht0) as (_ & _ & Hq). by apply (Hq e).
Qed.

(** Removing the interval registered under a handle that the simulator
    then forgets, or that was not the idle one. *)
Lemma handles_ok_clear (e : nat) (w w' : World H) :
  handles_ok w ->
  timers w' = delete e (timers w) ->
  nextHandle w' = nextHandle w ->
  (idleInterval (sim w) = Some e /\ idleInterval (sim w') = None /\
   earthquakeInterval (sim w') = earthquakeInterval (sim w)) \/
  (earthquakeInterval (sim w) = Some e /\ earthquakeInterval (sim w') = None /\
   idleInterval (sim w') = idleInterval (sim w)) ->
  handles_ok w'.
Proof.
  intros (Hlt & Hidle & Hquake) Htm Hnh Hcase.
  assert (Hsub : forall k t0, timers w' !! k = Some t0 ->
            k <> e /\ timers w !! k = Some t0).
  { intros k t0. rewrite Htm. destruct (decide (e = k)) as [<-|Hne].
    - by rewrite lookup_delete_eq.
    - by rewrite lookup_delete_ne. }
  unfold handles_ok. rewrite Hnh. split; [|split].
  - intros k t0 Hk. apply Hsub in Hk as [_ Hk]. by eapply Hlt.
  - intros k. destruct Hcase as [(Hi & -> & _)|(Hq & _ & ->)].
    + split; [|done]. intros Hk. apply Hsub in Hk as [Hne Hk].
      apply Hidle in Hk. congruence.
    + rewrite <- Hidle. split; [intros Hk; by apply Hsub in Hk as [_ Hk]|].
      intros Hk. rewrite Htm, lookup_delete_ne; [done|]. intros ->.
      destruct (Hquake k Hq) as [_ Hkind]. by destruct (Hkind _ Hk).
  - intros k Hk. destruct Hcase as [(_ & _ & He)|(_ & He & _)];
      [|congruence].
    rewrite He in Hk. destruct (Hquake k Hk) as [Hl Hkind]. split; [done|].
    intros t0 Ht0. apply Hsub in Ht0 as [_ Ht0]. by apply Hkind.
Qed.

Lemma startIdleSimulation_handles_ok rnd now (w : World H) :
  handles_ok w ->
  handles_ok (startIdleSimulation Math_sqrt Math_exp DEMO_NODES rnd now w).
Proof.
  intros Hok. unfold startIdleSimulation.
  destruct (idleInterval (sim w)) eqn:Hi; [done|].
  eapply (handles_ok_register IdleTimer w); [exact Hok|done..].
Qed.

Lemma run_handles_ok (c : Command) (w : World H) :
  handles_ok w -> handles_ok (run c w).
Proof.
  intros Hok. destruct c; cbn [Simulator.run]; try exact Hok.
  - by apply startIdleSimulation_handles_ok.
  - unfold stopIdleSimulation. destruct (idleInterval (sim w)) as [h|] eqn:Hi;
      [|done].
    eapply (handles_ok_clear h w); [exact Hok|done|done|]. left. by rewrite Hi.
  - eapply (handles_ok_register
              (QuakeTimer (mkQuakeLoop config scores
                             (computeDamageResults Math_sqrt DEMO_NODES config rnd k)
                             0 onProgress onComplete)) w); [exact Hok|done..].
  - unfold Simulator.fire. destruct (timers w !! h) as [[|q|n]|] eqn:Hh;
      [| | |done].
    + destruct (idleTick_fields rnd now w) as (Hq & Hi & _ & _ & Htm & Hnh).
      cbv zeta in *. destruct Hok as (Hlt & Hidle & Hquake).
      unfold handles_ok. rewrite Hq, Hi, Htm, Hnh. done.
    + destruct (quakeTick_fields h q rnd now w) as (Hq & Hi & _).
      destruct (quakeTick_timers h q rnd now w) as (Hnh & Htm).
      cbv zeta in Htm.
      eapply (handles_ok_update h (QuakeTimer q)
                (QuakeTimer
                   (mkQuakeLoop (q_config q) (q_scores q) (q_results q)
                      (q_tickCount q + 1) (q_onProgress q) (q_onComplete q)))
                (if lastTick q then earthquakeInterval (sim w) else None) w);
        [exact Hok|exact Hh|exact I| | |exact Hnh|exact Hi|exact Hq].
      * intros e He t0 Ht0 ->. destruct (lastTick q); [|done].
        destruct Hok as (_ & _ & Hquake).
        destruct (Hquake e He) as [_ Hkind]. by destruct (Hkind _ Ht0).
      * rewrite Htm. destruct (lastTick q); [|done].
        by destruct (earthquakeInterval (sim w)).
    + destruct (noiseTick_fields h n rnd now w) as (Hq & Hi & _).
      destruct (noiseTick_timers h n rnd now w) as (Hnh & Htm).
      cbv zeta in Htm.
      eapply (handles_ok_update h (NoiseTimer n)
                (NoiseTimer
                   (mkNoiseLoop (n_target n) (n_tickCount n + 1) (n_onFiltered n)))
                (if Qle_bool 40 (inject_Z (n_tickCount n + 1)) then Some h else None) w);
        [exact Hok|exact Hh|exact I| | |exact Hnh|exact Hi|exact Hq].
      * intros e He t0 Ht0 ->. destruct (Qle_bool _ _); [|done].
        injection He as <-. congruence.
      * rewrite Htm. by destruct (Qle_bool _ _).
  - unfold stop. destruct (earthquakeInterval (sim w)) as [e|] eqn:He; [|done].
    eapply (handles_ok_clear e w); [exact Hok|done|done|]. right. by rewrite He.
  - unfold reset. apply startIdleSimulation_handles_ok.
    destruct Hok as (Hlt & Hidle & Hquake). done.
  - unfold triggerTruckNoise. destruct (find _ DEMO_NODES); [|done].
    destruct (decide (targetNodeId ∈ deadNodes (sim w))); [done|].
    eapply (handles_ok_register
              (NoiseTimer (mkNoiseLoop targetNodeId 0 onFiltered)) w);
      [exact Hok|done..].
Qed.

(** X18. At most one idle loop runs: in every reachable world an idle
    interval is registered under a handle exactly when the simulator
    holds that handle as its idle handle, so a second
    [startIdleSimulation] (or the one inside [reset]) registers nothing
    until [stopIdleSimulation] has cleared the first. *)
Theorem X18_at_most_one_idle_loop (w : World H) (h : nat) :
  reachableWorld Math_sqrt Math_exp Math_sin Math_PI DEMO_NODES w ->
  (timers w !! h = Some IdleTimer <-> idleInterval (sim w) = Some h) /\
  (forall h', timers w !! h = Some IdleTimer ->
              timers w !! h' = Some IdleTimer -> h' = h) /\
  (timers w !! h = Some IdleTimer ->
   forall rnd now,
     timers (startIdleSimulation Math_sqrt Math_exp DEMO_NODES rnd now w) = timers w).
Proof.
  intros Hreach.
  assert (Hok : handles_ok w).
  { induction Hreach as [h0|w c _ IH]; [|by apply run_handles_ok].
    unfold handles_ok, newWorld. cbn. by split; [|split]. }
  destruct Hok as (_ & Hidle & _).
  split; [apply Hidle|]. split.
  - intros h' H1 H2. apply Hidle in H1, H2. congruence.
  - intros H1 rnd now. apply Hidle in H1. unfold startIdleSimulation.
    by rewrite H1.
Qed.
End SimulatorProps.

(** ** The damage of one event *)
Section DamageProps.

Import Simulator.

Variable Math_sqrt : Q -> Q.
Variable DEMO_NODES : list DemoNode.

Local Open Scope Q_scope.

Local Abbreviation distanceFactor := (distanceFactor Math_sqrt).
Local Abbreviation damageFor := (damageFor Math_sqrt).
Local Abbreviation computeDamageResults :=
  (computeDamageResults Math_sqrt DEMO_NODES).

(** X19. The damage map of an event has an entry for exactly the
    buildings of the population; when no two of them share an id, the
    entry of the building at position [j] is its own delta, computed
    from the draw [k + j]. *)
Theorem X19_damage_map_covers_the_population
    (config : EarthquakeConfig) (rnd : nat -> Q) (k : nat) (i : string) :
  (is_Some (computeDamageResults config rnd k !! i) <-> known DEMO_NODES i) /\
  (NoDup (map id DEMO_NODES) ->
   forall j node, DEMO_NODES !! j = Some node ->
     computeDamageResults config rnd k !! id node =
       Some (damageFor config node (rnd (k + j)%nat))).
Proof.
  unfold Simulator.computeDamageResults, known. split.
  - rewrite (forEachIdx_insert_keys id
               (fun node index => damageFor config node (rnd (k + index)%nat))).
    rewrite lookup_empty. split; [intros [[? ?]|?]; done|by right].
  - intros Hnd j node Hj.
    apply (forEachIdx_insert_at id
             (fun node index => damageFor config node (rnd (k + index)%nat))
             DEMO_NODES 0%nat ∅ j node Hnd Hj).
Qed.

Lemma round_lower (x : Q) (n : Z) : inject_Z n - (1 # 2) <= x -> (n <= JS.round x)%Z.
Proof.
  intros Hx. unfold JS.round. rewrite <- (Qfloor_Z n).
  apply Qfloor_resp_le. lra.
Qed.

Lemma damageFor_handler_range (config : EarthquakeConfig) (node : DemoNode) (r : Q) :
  1.5 <= intensity config -> 0 <= r ->
  (4 <= damageFor config node r <= 100)%Z.
Proof.
  intros Hi Hr.
  assert (Hup : (0 <= damageFor config node r <= 100)%Z)
    by (apply damageFor_range; lra).
  split; [|lia]. unfold Simulator.damageFor, rawDamage.
  apply Z.min_glb; [lia|]. apply round_lower.
  pose proof (distanceFactor_lower Math_sqrt config node) as Hdf.
  pose proof (vulnerability_pos (metadata node)) as Hv.
  set (a := intensity config) in *.
  set (b := Simulator.distanceFactor Math_sqrt config node) in *.
  set (c := vulnerability (metadata node)) in *.
  assert (H1 : 7.5 <= a * 25 * b) by nra.
  assert (H2 : 7.5 <= a * 25 * b * c) by nra.
  assert (H3 : 3.75 <= a * 25 * b * c * (0.5 + r * 0.5)) by nra.
  unfold inject_Z. lra.
Qed.

(** X20. At the intensities the trigger command uses (1.5 or more) no
    building escapes an event: every delta of the damage map is at
    least 4 and at most 100. *)
Theorem X20_every_building_is_damaged_by_an_event
    (config : EarthquakeConfig) (rnd : nat -> Q) (k : nat) (i : string) (d : Z) :
  1.5 <= intensity config ->
  JS.random_ok rnd ->
  computeDamageResults config rnd k !! i = Some d ->
  (4 <= d <= 100)%Z.
Proof.
  intros Hi Hrnd Hd.
  destruct (computeDamageResults_entries Math_sqrt DEMO_NODES config rnd k)
    as [Hent _].
  destruct (Hent i d Hd) as (node & index & _ & _ & ->).
  apply damageFor_handler_range; [done|]. apply Hrnd.
Qed.
End DamageProps.

(** ** Runs of the fatigue tracker *)
Section TrackerRunProps.

Import BaselineTracker TrackerRuns.

Local Open Scope Q_scope.

Lemma trim_short (l : list Q) : (length l <= historyWindowSize)%nat -> trim l = l.
Proof.
  intros Hl. unfold trim. replace (length l - historyWindowSize)%nat with 0%nat by lia.
  done.
Qed.

Lemma trim_length (l : list Q) : (length (trim l) <= historyWindowSize)%nat.
Proof. unfold trim. rewrite length_drop. lia. Qed.

Lemma trim_snoc (l : list Q) (f : Q) : trim (trim l ++ [f]) = trim (l ++ [f]).
Proof.
  unfold trim. rewrite !length_app, length_drop. cbn [length].
  destruct (decide (length l <= historyWindowSize)%nat) as [Hle|Hgt].
  - replace (length l - historyWindowSize)%nat with 0%nat by lia.
    rewrite drop_0. do 2 f_equal. lia.
  - rewrite <- (drop_app_le l [f]) by lia. rewrite drop_drop.
    f_equal. unfold historyWindowSize in *. lia.
Qed.

(** The record of a node after a run of updates on a table that did not
    know the node. *)
Lemma feedAll_spec (nodeId : string) (samples : list Q)
    (t : gmap string NodeBaseline) :
  t !! nodeId = None -> samples <> [] ->
  feedAll nodeId samples t !! nodeId =
    Some (mkBaseline (trim samples)
            (if (baselineWindowSize <=? length samples)%nat
             then Some (calculateMedian (take baselineWindowSize samples))
             else None)
            (baselineWindowSize <=? length samples)%nat).
Proof.
  intros Ht. induction samples as [|f samples IH] using rev_ind; [done|].
  intros _. unfold feedAll in *. rewrite fold_left_app. cbn [fold_left].
  unfold update at 1. cbn [fst]. rewrite lookup_insert_eq. f_equal.
  destruct samples as [|f0 samples'].
  - cbn [fold_left]. rewrite Ht. cbn. done.
  - rewrite IH by done. set (samples := f0 :: samples') in *.
    cbn [default from_option Datatypes.id frequencyHistory isBaselineSet
         establishedBaseline].
    rewrite trim_snoc, length_app. cbn [length].
    assert (Htrim : (baselineWindowSize <=? length (trim (samples ++ [f])))%nat =
                    (baselineWindowSize <=? length samples + 1)%nat).
    { unfold trim. rewrite length_drop, length_app. cbn [length].
      unfold baselineWindowSize, historyWindowSize.
      destruct (Nat.leb_spec 20 (length samples + 1));
        [apply Nat.leb_le|apply Nat.leb_gt]; lia. }
    rewrite Htrim.
    destruct (Nat.leb_spec baselineWindowSize (length samples)) as [Hge|Hlt].
    + replace (baselineWindowSize <=? length samples + 1)%nat with true
        by (symmetry; apply Nat.leb_le; lia).
      cbn [negb andb]. f_equal. f_equal. f_equal.
      rewrite take_app_le by done. done.
    + cbn [negb andb].
      destruct (Nat.leb_spec baselineWindowSize (length samples + 1)) as [Hge'|Hlt'];
        [|done].
      f_equal. f_equal. f_equal.
      rewrite trim_short; [done|]. rewrite length_app. cbn [length].
      unfold baselineWindowSize, historyWindowSize in *. lia.
Qed.



(** X22. [reset()] and [reset("")] both clear the whole table (the empty
    id is falsy); [reset(id)] for any other id forgets that node only:
    its baseline is the default 5.0 Hz again and its next update starts
    a history of one sample, while every other record is kept. *)
Theorem X22_tracker_reset
    (t : gmap string NodeBaseline) (i : string) (f : Q) :
  reset None t = ∅ /\
  reset (Some "") t = ∅ /\
  (i <> "" ->
     reset (Some i) t !! i = None /\
     getBaseline i (reset (Some i) t) = 5.0 /\
     sampleCount (snd (update i f (reset (Some i) t))) = 1%nat /\
     forall j, j <> i -> reset (Some i) t !! j = t !! j).
Proof.
  split; [done|]. split; [done|]. intros Hi.
  assert (Hr : reset (Some i) t = delete i t).
  { unfold reset. destruct (String.eqb_spec i ""); done. }
  rewrite Hr. split; [apply lookup_delete_eq|].
  split; [unfold getBaseline; by rewrite lookup_delete_eq|].
  split.
  - unfold update. rewrite lookup_delete_eq. done.
  - intros j Hj. by apply lookup_delete_ne.
Qed.

(** *** The regression *)

Lemma forEachIdx_sum_nonneg (term : nat -> Q -> Q) (l : list Q) :
  (forall i y, 0 <= term i y) ->
  forall k a, 0 <= a -> 0 <= JS.forEachIdx (fun acc y i => acc + term i y) l k a.
Proof.
  intros Hterm. induction l as [|y l IH]; intros k a Ha; cbn [JS.forEachIdx]; [done|].
  apply IH. specialize (Hterm k y). lra.
Qed.

Lemma sumOver_nonneg (term : nat -> Q -> Q) (l : list Q) :
  (forall i y, 0 <= term i y) -> 0 <= sumOver term l.
Proof. intros Hterm. unfold sumOver. by apply forEachIdx_sum_nonneg. Qed.

Lemma square_nonneg (x : Q) : 0 <= x ^ 2.
Proof. change (x ^ 2) with (x * x). nra. Qed.

Lemma max_upper (x y b : Q) : x <= b -> y <= b -> JS.max x y <= b.
Proof. intros Hx Hy. unfold JS.max. by destruct (Qle_bool x y). Qed.

Lemma linearRegression_confidence (values : list Q) :
  0 <= snd (linearRegression values) /\ snd (linearRegression values) <= 1.
Proof.
  unfold linearRegression. cbv zeta.
  destruct (length values <? 2)%nat; [cbn [snd]; lra|].
  destruct (Qeq_bool _ 0); [cbn [snd]; lra|]. cbn [snd].
  split; [apply max_lower|]. apply max_upper; [lra|].
  match goal with
  | |- context [JS.gtb ?tot 0] => destruct (JS.gtb tot 0) eqn:Htot
  end; [|lra].
  apply gtb_spec in Htot.
  match goal with
  | |- 1 - ?res / ?tot <= 1 =>
      assert (Hres : 0 <= res) by (apply sumOver_nonneg; intros; apply square_nonneg);
      assert (Hdiv : 0 <= res / tot)
        by (apply Qle_shift_div_l; [exact Htot|lra])
  end.
  lra.
Qed.

(** X23. The confidence of the trend that an indicator reports (R
    squared, cut at 0) always lies between 0 and 1; with fewer than 30
    samples it is 0, the slope is 0 and there is no warning. *)
Theorem X23_trend_confidence_between_0_and_1
    (nodeId : string) (baseline : NodeBaseline) (current : Q) :
  let ind := calculateFatigueIndicator nodeId baseline current in
  0 <= trendConfidence ind /\ trendConfidence ind <= 1 /\
  sampleCount ind = length (frequencyHistory baseline) /\
  ((sampleCount ind < 30)%nat ->
     trendConfidence ind = 0 /\ trendSlope ind = 0 /\ hasWarning ind = false).
Proof.
  intros ind. unfold ind, calculateFatigueIndicator. cbv zeta.
  destruct (Nat.ltb_spec (length (frequencyHistory baseline)) minSamplesForFatigue)
    as [Hlt|Hge].
  - cbn. repeat split; lra.
  - pose proof (linearRegression_confidence (frequencyHistory baseline)) as [H0 H1].
    destruct (linearRegression (frequencyHistory baseline)) as [slope r2].
    cbn in *. split; [done|]. split; [done|]. split; [done|].
    unfold minSamplesForFatigue in Hge. lia.
Qed.





(** *** The median *)

Lemma insertSorted_Forall (P : Q -> Prop) (x : Q) (l : list Q) :
  P x -> Forall P l -> Forall P (insertSorted x l).
Proof.
  intros Hx. induction 1 as [|y l Hy Hl IH]; cbn [insertSorted].
  - by constructor.
  - destruct (Qle_bool x y); repeat constructor; done.
Qed.

Lemma insertSorted_length (x : Q) (l : list Q) :
  length (insertSorted x l) = S (length l).
Proof.
  induction l as [|y l IH]; cbn [insertSorted]; [done|].
  destruct (Qle_bool x y); cbn [length]; by rewrite ?IH.
Qed.

Lemma sortAscending_Forall (P : Q -> Prop) (l : list Q) :
  Forall P l -> Forall P (sortAscending l).
Proof.
  unfold sortAscending. induction 1 as [|y l Hy Hl IH]; cbn [foldr]; [done|].
  by apply insertSorted_Forall.
Qed.

Lemma sortAscending_length (l : list Q) : length (sortAscending l) = length l.
Proof.
  unfold sortAscending. induction l as [|y l IH]; cbn [foldr]; [done|].
  by rewrite insertSorted_length, IH.
Qed.

Lemma calculateMedian_range (lo hi : Q) (values : list Q) :
  values <> [] ->
  Forall (fun y => lo <= y /\ y <= hi) values ->
  lo <= calculateMedian values /\ calculateMedian values <= hi.
Proof.
  intros Hne Hall. unfold calculateMedian. cbv zeta.
  pose proof (sortAscending_Forall _ _ Hall) as Hs.
  pose proof (sortAscending_length values) as Hlen.
  set (sorted := sortAscending values) in *.
  assert (Hpos : (0 < length sorted)%nat).
  { rewrite Hlen. destruct values; [done|cbn; lia]. }
  assert (Hmid : (length sorted / 2 < length sorted)%nat)
    by (apply Nat.div_lt; lia).
  assert (Hnth : forall i, (i < length sorted)%nat ->
            lo <= nth i sorted 0 /\ nth i sorted 0 <= hi).
  { intros i Hi. by apply (proj1 (List.Forall_nth _ sorted) Hs). }
  destruct (negb (length sorted mod 2 =? 0)%nat).
  - by apply Hnth.
  - destruct (Hnth (length sorted / 2)%nat Hmid) as [Ha Hb].
    destruct (Hnth (length sorted / 2 - 1)%nat ltac:(lia)) as [Hc Hd].
    split.
    + apply Qle_shift_div_l; lra.
    + apply Qle_shift_div_r; lra.
Qed.

(** X25. The baseline that the tracker establishes on the 20th sample
    (the median of the first 20) lies between the smallest and the
    largest of the first 20 samples, and stays there whatever is fed
    later. *)
Theorem X25_baseline_within_the_first_samples
    (nodeId : string) (samples : list Q) (t : gmap string NodeBaseline)
    (lo hi : Q) :
  t !! nodeId = None ->
  (20 <= length samples)%nat ->
  Forall (fun y => lo <= y /\ y <= hi) (take 20 samples) ->
  lo <= getBaseline nodeId (feedAll nodeId samples t) /\
  getBaseline nodeId (feedAll nodeId samples t) <= hi.
Proof.
  intros Ht Hlen Hall.
  assert (Hne : samples <> []) by (intros ->; cbn in Hlen; lia).
  unfold getBaseline. rewrite (feedAll_spec nodeId samples t Ht Hne).
  cbn [establishedBaseline].
  replace (baselineWindowSize <=? length samples)%nat with true
    by (symmetry; apply Nat.leb_le; done).
  cbn [default from_option Datatypes.id]. apply calculateMedian_range; [|done].
  intros Hnil. apply (f_equal length) in Hnil.
  rewrite length_take in Hnil. cbn [length] in Hnil.
  unfold baselineWindowSize in *. lia.
Qed.
End TrackerRunProps.

(** ** The dashboard and the simulator together *)
Section PanelProps.

Import Simulator Dashboard SimulatorInv.

Variables Math_sqrt Math_exp Math_sin : Q -> Q.
Variable Math_PI : Q.
Variable DEMO_NODES : list DemoNode.

Local Abbreviation step :=
  (step Math_sqrt Math_exp Math_sin Math_PI DEMO_NODES).
Local Abbreviation deliver := (deliver Math_sqrt Math_exp DEMO_NODES).
Local Abbreviation handleTriggerEarthquake :=
  (handleTriggerEarthquake Math_sqrt DEMO_NODES).

Ltac panel_simpl :=
  cbn [sim timers host nextHandle updateCallbacks liveReadings deadNodes
       earthquakeInterval idleInterval currentDamages withSim withHost
       withReadings emitUpdate setInterval clearInterval updateDamages
       onLiveUpdate fst snd store withStore request pendingRequests
       pendingCanReset canReset
       Store.buildingDamages Store.isEarthquakeActive Store.nodes
       Store.setEarthquakeActive Store.selectNode
       Store.setEarthquakeProgress Store.updateBuildingSummary] in *.

(** *** The score tables sent to the simulator *)

Lemma allScoresOf_lookup (s : Store.SeismosState) (i : string) :
  Store.allScoresOf s !! i = Store.totalScore <$> Store.buildingDamages s !! i.
Proof.
  unfold Store.allScoresOf.
  rewrite (forEach_pointwise (fun (m : gmap string Z) j => m !! j)
             (fun _ d _ => Some (Store.totalScore d))).
  - destruct (Store.buildingDamages s !! i); [done|]. by rewrite lookup_empty.
  - intros a k v _. by rewrite lookup_insert_eq.
  - intros a k v j Hne. by rewrite lookup_insert_ne.
Qed.

Lemma resetScores_lookup (rnd : nat -> Q) (now : Z) (s : Store.SeismosState)
    (i : string) :
  Store.resetScores rnd s !! i =
  Store.totalScore <$> Store.buildingDamages (Store.resetToSafe rnd now s) !! i.
Proof.
  destruct (resetToSafe_components rnd now s) as [_ ->].
  unfold Store.resetScores, Store.resetLoop.
  apply (forEach_invariant
    (fun acc : gmap string Store.Node * gmap string Store.BuildingDamage
               * gmap string Z * nat =>
       snd (fst acc) !! i = Store.totalScore <$> snd (fst (fst acc)) !! i)).
  - cbn [fst snd]. by rewrite !lookup_empty.
  - intros [[[nn nd] sc] ix] k v _ IH. cbn [Store.resetOne fst snd] in *.
    destruct (decide (k = i)) as [->|Hne].
    + by rewrite !lookup_insert_eq.
    + by rewrite !lookup_insert_ne.
Qed.

(** X26. In the running application the simulator's damage table
    follows the ledger: once the request that [applyEarthquakeDamage] or
    [resetToSafe] queued has been delivered (no older request pending),
    the table holds exactly the total score of every record, and after a
    reset no sensor is silenced any more. *)
Theorem X26_simulator_table_follows_the_ledger
    (w : World Panel) (damages : gmap string Z)
    (rnd rnd' : nat -> Q) (now now' : Z) (i : string) :
  running Math_sqrt Math_exp Math_sin Math_PI DEMO_NODES w ->
  pendingRequests (host w) = [] ->
  let applied :=
    deliver rnd' now' (withHost w (applyEarthquakeDamage damages (host w))) in
  let afterReset := deliver rnd' now' (handleReset rnd now w) in
  currentDamages (sim applied) !! i =
    (fun d => inject_Z (Store.totalScore d))
      <$> Store.buildingDamages (store (host applied)) !! i /\
  currentDamages (sim afterReset) !! i =
    (fun d => inject_Z (Store.totalScore d))
      <$> Store.buildingDamages (store (host afterReset)) !! i /\
  deadNodes (sim afterReset) = ∅.
Proof.
  intros Hrun Hpending applied afterReset.
  destruct (running_app_ok _ _ _ _ _ w Hrun) as (_ & _ & Hcb & _).
  assert (Happ : currentDamages (sim applied) =
                 toScores (Store.allScoresOf
                             (Store.applyEarthquakeDamage damages (store (host w)))) /\
                 store (host applied) =
                   Store.applyEarthquakeDamage damages (store (host w))).
  { unfold applied, Dashboard.deliver, applyEarthquakeDamage. panel_simpl.
    rewrite Hpending. done. }
  destruct Happ as (Hcd & Hst).
  assert (Hres : currentDamages (sim afterReset) =
                 toScores (Store.resetScores rnd (store (host w))) /\
                 store (host afterReset) =
                   Store.resetToSafe rnd now (store (host w)) /\
                 deadNodes (sim afterReset) = ∅).
  { unfold afterReset, Dashboard.deliver, handleReset, resetToSafe. panel_simpl.
    rewrite Hpending. cbn [app]. unfold reset, startIdleSimulation. panel_simpl.
    destruct (idleInterval (sim w)); panel_simpl; [done|].
    by rewrite callbacks_keep_store. }
  destruct Hres as (Hcd' & Hst' & Hdead).
  split; [|split; [|exact Hdead]].
  - rewrite Hcd, Hst. unfold toScores. rewrite lookup_fmap, allScoresOf_lookup.
    by destruct (Store.buildingDamages _ !! i).
  - rewrite Hcd', Hst'. unfold toScores.
    rewrite lookup_fmap, (resetScores_lookup rnd now).
    by destruct (Store.buildingDamages _ !! i).
Qed.

(** *** The subscribers *)

Lemma fire_callbacks {H : Type} h rnd now (w : World H) :
  updateCallbacks (fire Math_sqrt Math_exp Math_sin Math_PI DEMO_NODES h rnd now w) =
  updateCallbacks w.
Proof.
  unfold fire. destruct (timers w !! h) as [[|q|n]|]; [| | |done].
  - unfold idleTick. by destruct (earthquakeInterval (sim w)).
  - unfold quakeTick. cbv zeta. panel_simpl.
    set (envelope := Math_sin _).
    destruct (seismicReadings Math_sqrt Math_exp DEMO_NODES (q_config q) envelope
                (sim w) rnd 0 now) as [lr c].
    panel_simpl.
    destruct (if JS.gtb envelope 0.8
              then JS.forEach (q_results q) (silenceStep (q_scores q) rnd)
                     (deadNodes (sim w), c)
              else (deadNodes (sim w), c)) as [dead c'].
    panel_simpl. destruct (Qle_bool _ _); [|done].
    by destruct (earthquakeInterval (sim w)).
  - unfold noiseTick. cbv zeta. panel_simpl. by destruct (Qle_bool _ _).
Qed.

Lemma startIdleSimulation_callbacks {H : Type} rnd now (w : World H) :
  updateCallbacks (startIdleSimulation Math_sqrt Math_exp DEMO_NODES rnd now w) =
  updateCallbacks w.
Proof. unfold startIdleSimulation. by destruct (idleInterval (sim w)). Qed.

(** The panel's subscriber is the only one in the running application. *)
Lemma running_subscribers (w : World Panel) :
  running Math_sqrt Math_exp Math_sin Math_PI DEMO_NODES w ->
  updateCallbacks w = [liveSubscriber].
Proof.
  induction 1 as [rndStore rndSim now _ _|w e _ IH _].
  - unfold mount. by rewrite startIdleSimulation_callbacks.
  - destruct e; cbn [Dashboard.step].
    + unfold Dashboard.handleTriggerEarthquake.
      destruct (Store.isEarthquakeActive (store (host w))); [done|].
      by destruct (DEMO_NODES !! _).
    + by destruct (resetAvailable (host w)).
    + unfold Dashboard.selectNode. by destruct nodeId.
    + by rewrite fire_callbacks.
    + done.
    + unfold Dashboard.deliver.
      destruct (pendingRequests (host w)) as [|[scores|scores] rest]; [done|done|].
      unfold reset. by rewrite startIdleSimulation_callbacks.
Qed.

Lemma liveSubscriber_fields r p :
  store (liveSubscriber r p) = store p /\
  canReset (liveSubscriber r p) = canReset p /\
  pendingCanReset (liveSubscriber r p) = pendingCanReset p /\
  pendingRequests (liveSubscriber r p) = pendingRequests p.
Proof.
  unfold liveSubscriber. destruct (Store.selectedNodeId (store p)); [|done].
  by destruct (r !! s).
Qed.

(** *** One event from its first tick to its last *)

Lemma applyEarthquakeDamage_ledger_only (damages : gmap string Z)
    (s s' : Store.SeismosState) :
  Store.buildingDamages s' = Store.buildingDamages s ->
  Store.nodes s' = Store.nodes s ->
  Store.buildingDamages (Store.applyEarthquakeDamage damages s') =
    Store.buildingDamages (Store.applyEarthquakeDamage damages s) /\
  Store.nodes (Store.applyEarthquakeDamage damages s') =
    Store.nodes (Store.applyEarthquakeDamage damages s).
Proof.
  intros Hd Hn. unfold Store.applyEarthquakeDamage. rewrite Hd, Hn.
  by destruct (JS.forEach damages Store.applyOne
                 (Store.buildingDamages s, Store.nodes s)).
Qed.

(** X27. In the running application the damage of an event reaches the
    ledger on its last tick and not before: a tick before the last
    leaves every record and every status as it was and the event in
    progress; the last tick applies the delta map of the event to the
    ledger once, ends the event (no earthquake interval remains and the
    store's flag is cleared) and schedules the enabling of the reset
    button. *)
Theorem X27_damage_is_applied_on_the_last_tick
    (w : World Panel) (h : nat) (q : QuakeLoop Panel) (rnd : nat -> Q) (now : Z) :
  running Math_sqrt Math_exp Math_sin Math_PI DEMO_NODES w ->
  timers w !! h = Some (QuakeTimer q) ->
  let w' := step (EFire h rnd now) w in
  let st := store (host w) in
  let st' := store (host w') in
  (lastTick q = false ->
     Store.buildingDamages st' = Store.buildingDamages st /\
     Store.nodes st' = Store.nodes st /\
     Store.isEarthquakeActive st' = true /\
     eventInProgress w') /\
  (lastTick q = true ->
     Store.buildingDamages st' =
       Store.buildingDamages (Store.applyEarthquakeDamage (q_results q) st) /\
     Store.nodes st' = Store.nodes (Store.applyEarthquakeDamage (q_results q) st) /\
     Store.isEarthquakeActive st' = false /\
     ~ eventInProgress w' /\
     pendingCanReset (host w') = S (pendingCanReset (host w))).
Proof.
  intros Hrun Hq w' st st'.
  pose proof (running_subscribers w Hrun) as Hsubs.
  destruct (running_app_ok _ _ _ _ _ w Hrun) as (_ & Htm & Hcb & Hone).
  destruct (Htm h _ Hq) as (_ & Hprog & Hcomp).
  destruct (Hone h q Hq) as [Hflag Hint].
  assert (Honly : forall h' q', timers w !! h' = Some (QuakeTimer q') -> h' = h).
  { intros h' q' Hq'. destruct (Hone h' q' Hq') as [_ Hint'].
    rewrite Hint in Hint'. by injection Hint'. }
  unfold st', w', st. cbn [Dashboard.step]. unfold fire. rewrite Hq.
  unfold quakeTick, lastTick. cbv zeta. panel_simpl.
  rewrite Hprog, Hcomp, Hint.
  set (envelope := Math_sin _).
  destruct (seismicReadings Math_sqrt Math_exp DEMO_NODES (q_config q) envelope
              (sim w) rnd 0 now) as [lr c].
  panel_simpl.
  destruct (if JS.gtb envelope 0.8
            then JS.forEach (q_results q) (silenceStep (q_scores q) rnd)
                   (deadNodes (sim w), c)
            else (deadNodes (sim w), c)) as [dead c'].
  panel_simpl.
  destruct (Qle_bool _ _).
  - split; [done|]. intros _. panel_simpl.
    unfold onComplete, applyEarthquakeDamage. panel_simpl.
    rewrite !callbacks_keep_store by done. unfold onProgress. panel_simpl.
    destruct (applyEarthquakeDamage_ledger_only (q_results q) (store (host w))
                (Store.setEarthquakeProgress
                   (JS.min 100
                      (inject_Z (q_tickCount q + 1)
                       / (durationMs (q_config q) / 50) * 100))
                   (store (host w))) eq_refl eq_refl) as [Hd Hn].
    split; [exact Hd|]. split; [exact Hn|]. split; [done|]. split.
    + unfold eventInProgress. panel_simpl.
      intros (h' & q' & Hq'). destruct (decide (h = h')) as [<-|Hne].
      * by rewrite lookup_delete_eq in Hq'.
      * rewrite lookup_delete_ne, lookup_insert_ne in Hq' by done.
        apply Hne. symmetry. by apply (Honly h' q').
    + rewrite Hsubs. cbn [fold_left].
      by rewrite !(proj1 (proj2 (proj2 (liveSubscriber_fields _ _)))).
  - split; [|done]. intros _. panel_simpl.
    rewrite callbacks_keep_store by done. unfold onProgress. panel_simpl.
    split; [done|]. split; [done|]. split; [done|].
    unfold eventInProgress. panel_simpl.
    exists h. eexists. by rewrite lookup_insert_eq.
Qed.

(** *** The trigger command *)



(** *** Invariants of the store in the running application *)

(** What holds of the store when the page is mounted and is kept by the
    five ways in which the running application changes the store, holds
    of the store in every state of the running application. *)
Lemma running_store_invariant (P : Store.SeismosState -> Prop) :
  (forall rnd now, JS.random_ok rnd ->
     P (Store.setNodes (map toNode DEMO_NODES) rnd now Store.initialState)) ->
  (forall st nodeId, P st -> P (Store.selectNode nodeId st)) ->
  (forall st, P st -> P (Store.setEarthquakeActive true st)) ->
  (forall st progress, P st -> P (Store.setEarthquakeProgress progress st)) ->
  (forall st rnd now, JS.random_ok rnd -> P st -> P (Store.resetToSafe rnd now st)) ->
  (forall st damages, Store.deltaMap damages -> P st ->
     P (Store.updateBuildingSummary
          (Store.setEarthquakeActive false
             (Store.applyEarthquakeDamage damages st)))) ->
  forall w, running Math_sqrt Math_exp Math_sin Math_PI DEMO_NODES w ->
    P (store (host w)).
Proof.
  intros Hmount Hsel Hact Hprog Hreset Hcomplete w Hrun.
  induction Hrun as [rndStore rndSim now Hs _|w e Hrun IH He].
  - unfold mount, startIdleSimulation, newWorld, onLiveUpdate, newSimulator.
    panel_simpl. cbn [fold_left app]. rewrite (proj1 (liveSubscriber_fields _ _)).
    by apply Hmount.
  - pose proof (running_subscribers w Hrun) as Hsubs.
    destruct (running_app_ok _ _ _ _ _ w Hrun) as (_ & Htm & Hcb & Hone).
    destruct e; cbn [Dashboard.step draws] in *.
    + unfold Dashboard.handleTriggerEarthquake.
      destruct (Store.isEarthquakeActive (store (host w))); [done|].
      destruct (DEMO_NODES !! _); [|done]. cbn [default from_option Datatypes.id].
      unfold triggerEarthquake. panel_simpl. by apply Hact.
    + destruct (resetAvailable (host w)); [|done].
      unfold handleReset, resetToSafe. panel_simpl. by apply Hreset.
    + unfold Dashboard.selectNode. destruct nodeId; panel_simpl; by apply Hsel.
    + unfold fire. destruct (timers w !! h) as [[|q|n]|] eqn:Hh; [| | |done].
      * unfold idleTick. destruct (earthquakeInterval (sim w)); [done|].
        panel_simpl. by rewrite callbacks_keep_store.
      * destruct (Htm h _ Hh) as (Hdelta & Hp & Hc).
        unfold quakeTick. cbv zeta. panel_simpl. rewrite Hp, Hc.
        set (envelope := Math_sin _).
        destruct (seismicReadings Math_sqrt Math_exp DEMO_NODES (q_config q) envelope
                    (sim w) rnd 0 now) as [lr c].
        panel_simpl.
        destruct (if JS.gtb envelope 0.8
                  then JS.forEach (q_results q) (silenceStep (q_scores q) rnd)
                         (deadNodes (sim w), c)
                  else (deadNodes (sim w), c)) as [dead c'].
        panel_simpl. destruct (Qle_bool _ _).
        -- destruct (earthquakeInterval (sim w)); panel_simpl;
             unfold onComplete, applyEarthquakeDamage; panel_simpl;
             rewrite !callbacks_keep_store by done; unfold onProgress; panel_simpl;
             apply Hcomplete; [done| |done|]; by apply Hprog.
        -- panel_simpl. rewrite callbacks_keep_store by done.
           unfold onProgress. panel_simpl. by apply Hprog.
      * destruct (Htm h _ Hh).
    + unfold fireCanReset. by destruct (pendingCanReset (host w)).
    + unfold Dashboard.deliver.
      destruct (pendingRequests (host w)) as [|[scores|scores] rest]; [done|done|].
      unfold reset, startIdleSimulation. panel_simpl.
      destruct (idleInterval (sim w)); panel_simpl; [done|].
      by rewrite callbacks_keep_store.
Qed.
End PanelProps.

(** ** The category lists of the dashboard *)
Section ViewProps.

Import Simulator Dashboard Store StoreAt Views.

Variables Math_sqrt Math_exp Math_sin : Q -> Q.
Variable Math_PI : Q.
Variable DEMO_NODES : list DemoNode.

(** *** Sorting *)

Lemma insertRow_perm (x : Row) (l : list Row) : insertRow x l ≡ₚ x :: l.
Proof.
  induction l as [|y l IH]; cbn [insertRow]; [done|].
  destruct (rowScore y <=? rowScore x); [done|].
  rewrite IH. apply Permutation_swap.
Qed.

Lemma sortByScore_perm (l : list Row) : sortByScore l ≡ₚ l.
Proof.
  unfold sortByScore. induction l as [|x l IH]; cbn [foldr]; [done|].
  by rewrite insertRow_perm, IH.
Qed.

Lemma insertRow_descending (x : Row) (l : list Row) :
  descending l -> descending (insertRow x l).
Proof.
  induction l as [|y l IH]; cbn [insertRow descending]; [done|].
  intros [Hy Hl]. destruct (Z.leb_spec (rowScore y) (rowScore x)) as [Hle|Hgt].
  - cbn [descending]. split; [|done]. constructor; [done|].
    eapply Forall_impl; [exact Hy|]. cbn. intros z Hz. lia.
  - cbn [descending]. split; [|by apply IH].
    rewrite insertRow_perm. constructor; [lia|done].
Qed.

Lemma sortByScore_descending (l : list Row) : descending (sortByScore l).
Proof.
  unfold sortByScore. induction l as [|x l IH]; cbn [foldr]; [done|].
  by apply insertRow_descending.
Qed.

(** *** Counting *)

Lemma filter_ext_elem {A : Type} (P1 P2 : A -> Prop)
    `{!forall x, Decision (P1 x)} `{!forall x, Decision (P2 x)} (l : list A) :
  (forall x, x ∈ l -> (P1 x <-> P2 x)) -> filter P1 l = filter P2 l.
Proof.
  induction l as [|x l IH]; intros Hext; [done|].
  rewrite !filter_cons.
  rewrite IH by (intros y Hy; apply Hext; by right).
  destruct (decide (P1 x)) as [H1|H1], (decide (P2 x)) as [H2|H2]; try done.
  - exfalso. apply H2, Hext; [by left|done].
  - exfalso. apply H1, Hext; [by left|done].
Qed.

Lemma filter_length_size {V : Type} (P : string * V -> Prop)
    `{!forall x, Decision (P x)} (m : gmap string V) :
  length (filter P (map_to_list m)) = size (filter P m).
Proof.
  rewrite <- length_map_to_list, map_filter_alt.
  symmetry. apply Permutation_length, map_to_list_to_map.
  eapply sublist_NoDup; [apply (NoDup_fst_map_to_list m)|].
  apply fmap_sublist, sublist_filter.
Qed.

Lemma forEach_counter {V : Type} (c : CategoryFilter) (f : V -> CategoryFilter)
    (count : BuildingSummary -> V -> BuildingSummary) (m : gmap string V)
    (acc : BuildingSummary) :
  (forall a v, counterOf c (count a v) =
               (counterOf c a + if decide (f v = c) then 1 else 0)%nat) ->
  counterOf c (JS.forEach m (fun a _ v => count a v) acc) =
    (counterOf c acc + size (filter (fun kv : string * V => f (snd kv) = c) m))%nat.
Proof.
  intros Hcount. rewrite <- filter_length_size. unfold JS.forEach.
  revert acc. induction (map_to_list m) as [|[k v] l IH]; intros acc;
    cbn [fold_left fst snd].
  - cbn. lia.
  - rewrite IH, Hcount, filter_cons. cbn [snd].
    destruct (decide (f v = c)); cbn [length]; lia.
Qed.

Lemma countStatus_counter c acc st :
  counterOf c (countStatus acc st) =
  (counterOf c acc + if decide (bucketOfStatus st = c) then 1 else 0)%nat.
Proof.
  destruct acc, st, c; unfold countStatus, bucketOfStatus, counterOf;
    cbn [safe damaged criticalCount collapsed];
    destruct (decide _); try done; lia.
Qed.

Lemma countScore_counter c acc score :
  counterOf c (countScore acc score) =
  (counterOf c acc + if decide (bucketOfScore score = c) then 1 else 0)%nat.
Proof.
  destruct acc. unfold countScore, bucketOfScore.
  destruct (90 <=? score), (70 <=? score), (30 <=? score), c;
    unfold counterOf; cbn [safe damaged criticalCount collapsed];
    destruct (decide _); try done; lia.
Qed.

Lemma bucket_of_status_of_score (score : Z) :
  bucketOfStatus (getStatusFromScore score) = bucketOfScore score.
Proof.
  unfold getStatusFromScore, bucketOfScore.
  by destruct (90 <=? score), (70 <=? score), (30 <=? score), (15 <=? score).
Qed.

Lemma updateBuildingSummary_fresh s : summary_fresh (updateBuildingSummary s).
Proof.
  intros c. unfold updateBuildingSummary. cbn [buildingSummary nodes].
  rewrite (forEach_counter c (fun n => bucketOfStatus (status n))
             (fun a n => countStatus a (status n)))
    by (intros; apply countStatus_counter).
  by destruct c.
Qed.

(** A summary counted from the scores is up to date when every node has
    the status of the score of its record. *)
Lemma summaryOfDamages_fresh s :
  buildingSummary s = summaryOfDamages (buildingDamages s) ->
  (forall i, is_Some (buildingDamages s !! i) -> is_Some (nodes s !! i)) ->
  (forall i n, nodes s !! i = Some n ->
     exists d, buildingDamages s !! i = Some d /\
               status n = getStatusFromScore (totalScore d)) ->
  summary_fresh s.
Proof.
  intros Hsum Hown Hst c. rewrite Hsum. unfold summaryOfDamages.
  rewrite (forEach_counter c (fun d => bucketOfScore (totalScore d))
             (fun a d => countScore a (totalScore d)))
    by (intros; apply countScore_counter).
  replace (counterOf c (mkSummary 0 0 0 0)) with 0%nat by (by destruct c).
  cbn [Nat.add]. apply same_keys_size. intros i. split.
  - intros [d Hd]. apply map_lookup_filter_Some in Hd as [Hd Hc]. cbn in Hc.
    destruct (Hown i (ex_intro _ d Hd)) as [n Hn].
    exists n. apply map_lookup_filter_Some. split; [done|]. cbn.
    destruct (Hst i n Hn) as (d' & Hd' & ->). rewrite Hd in Hd'.
    injection Hd' as <-. by rewrite bucket_of_status_of_score.
  - intros [n Hn]. apply map_lookup_filter_Some in Hn as [Hn Hc]. cbn in Hc.
    destruct (Hst i n Hn) as (d & Hd & Hgs).
    exists d. apply map_lookup_filter_Some. split; [done|]. cbn.
    by rewrite <- bucket_of_status_of_score, <- Hgs.
Qed.

Lemma setNodes_fresh ns rnd now s : summary_fresh (setNodes ns rnd now s).
Proof.
  apply summaryOfDamages_fresh.
  - done.
  - intros i. destruct (setNodes_keys ns rnd now s i) as [Hd Hn]. by rewrite Hd, Hn.
  - apply setNodes_not_inferred.
Qed.

Lemma resetToSafe_fresh rnd now s : summary_fresh (resetToSafe rnd now s).
Proof.
  apply summaryOfDamages_fresh.
  - unfold resetToSafe. by destruct (resetLoop rnd s) as [[[nn nd] sc] ix].
  - intros i. rewrite resetToSafe_record_keys.
    by rewrite (keeps_buildings_keys _ _ i (resetToSafe_keeps rnd now s)).
  - apply resetToSafe_not_inferred.
Qed.

(** *** The rows *)

Lemma collectRows_filter (af : option CategoryFilter) (s : SeismosState) :
  collectRows af s =
  (fun kv : string * Node => mkRow (fst kv) (name (snd kv)) (scoreOf s (fst kv)))
    <$> filter (fun kv : string * Node =>
                  af = Some (categoryOf (scoreOf s (fst kv)) (snd kv)))
          (map_to_list (nodes s)).
Proof.
  unfold collectRows, JS.forEach.
  assert (Hgen : forall (l : list (string * Node)) (acc : list Row),
            fold_left
              (fun a kv =>
                 if decide (af = Some (categoryOf (scoreOf s (fst kv)) (snd kv)))
                 then a ++ [mkRow (fst kv) (name (snd kv)) (scoreOf s (fst kv))]
                 else a) l acc =
            acc ++ ((fun kv : string * Node =>
                       mkRow (fst kv) (name (snd kv)) (scoreOf s (fst kv)))
                      <$> filter (fun kv : string * Node =>
                                    af = Some (categoryOf (scoreOf s (fst kv)) (snd kv)))
                            l)).
  { induction l as [|[k v] l IH]; intros acc; cbn [fold_left fst snd].
    - by rewrite filter_nil, fmap_nil, app_nil_r.
    - rewrite IH, filter_cons. cbn [fst snd].
      destruct (decide (af = Some (categoryOf (scoreOf s k) v))); [|done].
      rewrite fmap_cons. cbn [fst snd]. by rewrite <- app_assoc. }
  apply (Hgen _ []).
Qed.

Lemma categoryOf_status (s : SeismosState) (i : string) (n : Node) :
  statuses_ok s -> nodes s !! i = Some n ->
  categoryOf (scoreOf s i) n = bucketOfStatus (status n).
Proof.
  intros Hok Hn. destruct (Hok i n Hn) as (d & Hd & Hst).
  unfold scoreOf, categoryOf. rewrite Hd. destruct Hst as [Hst|Hst].
  - rewrite Hst, bucket_of_status_of_score.
    rewrite bool_decide_eq_false_2 by apply getStatusFromScore_not_inferred.
    rewrite orb_false_r. done.
  - rewrite Hst. rewrite bool_decide_eq_true_2 by done. by rewrite orb_true_r.
Qed.

Lemma getFilteredBuildings_length (c : CategoryFilter) (s : SeismosState) :
  statuses_ok s -> summary_fresh s ->
  length (getFilteredBuildings (Some c) s) = counterOf c (buildingSummary s).
Proof.
  intros Hok Hfresh. unfold getFilteredBuildings.
  rewrite (Permutation_length (sortByScore_perm _)), collectRows_filter.
  rewrite length_fmap, Hfresh, <- filter_length_size. f_equal.
  apply filter_ext_elem. intros [k v] Hkv. apply elem_of_map_to_list in Hkv.
  cbn [fst snd]. rewrite (categoryOf_status s k v Hok Hkv).
  split; [by intros [= ->]|by intros ->].
Qed.

Lemma running_views_ok (w : World Panel) :
  running Math_sqrt Math_exp Math_sin Math_PI DEMO_NODES w ->
  statuses_ok (store (host w)) /\ summary_fresh (store (host w)).
Proof.
  apply (running_store_invariant Math_sqrt Math_exp Math_sin Math_PI DEMO_NODES
           (fun st => statuses_ok st /\ summary_fresh st)).
  - intros rnd now _. split; [apply setNodes_statuses_ok|apply setNodes_fresh].
  - by intros st nodeId [? ?].
  - by intros st [? ?].
  - by intros st progress [? ?].
  - intros st rnd now _ _.
    split; [apply resetToSafe_statuses_ok|apply resetToSafe_fresh].
  - intros st damages _ [Hok _]. split; [|apply updateBuildingSummary_fresh].
    by apply applyEarthquakeDamage_statuses_ok.
Qed.

(** X29. In the running application the number on the button of a
    category is the number of rows listed under it: the list of a
    category holds one row for every building that falls under it (by
    its total score, or by the INSD status for "collapsed"), with its
    name and its score, and no other row; it is ordered by score, the
    highest first. *)
Theorem X29_category_list_matches_its_counter
    (w : World Panel) (c : CategoryFilter) :
  running Math_sqrt Math_exp Math_sin Math_PI DEMO_NODES w ->
  let st := store (host w) in
  let rows := getFilteredBuildings (Some c) st in
  length rows = counterOf c (buildingSummary st) /\
  descending rows /\
  (forall r, r ∈ rows <->
     exists n, nodes st !! rowId r = Some n /\
       rowName r = name n /\ rowScore r = scoreOf st (rowId r) /\
       categoryOf (scoreOf st (rowId r)) n = c).
Proof.
  intros Hrun st rows. destruct (running_views_ok w Hrun) as [Hok Hfresh].
  split; [by apply getFilteredBuildings_length|].
  split; [apply sortByScore_descending|].
  intros r. unfold rows, getFilteredBuildings.
  rewrite sortByScore_perm, collectRows_filter, list_elem_of_fmap. split.
  - intros ([k v] & -> & Hkv). apply list_elem_of_filter in Hkv as [Hc Hkv].
    apply elem_of_map_to_list in Hkv. cbn [fst snd rowId rowName rowScore] in *.
    exists v. by injection Hc as ->.
  - intros (n & Hn & Hname & Hscore & Hc). exists (rowId r, n). split.
    + destruct r. cbn in *. by rewrite Hname, Hscore.
    + apply list_elem_of_filter. split; [cbn; by rewrite Hc|].
      by apply elem_of_map_to_list.
Qed.
End ViewProps.

(** ** The population *)
Section PopulationProps.

Import Simulator Dashboard Store StoreInv Population.

Variables Math_sqrt Math_exp Math_sin : Q -> Q.
Variable Math_PI : Q.

Local Open Scope Q_scope.










End PopulationProps.

(** ** The definitions at work on the concrete world *)

Import Demo.

Lemma zero_random_ok : JS.random_ok zero.
Proof. intros i. unfold zero. split; [apply Qle_refl | reflexivity]. Qed.

Lemma half_random_ok : JS.random_ok half.
Proof. intros i. unfold half. split; [discriminate | reflexivity]. Qed.

Lemma deltas_deltaMap : Store.deltaMap deltas.
Proof.
  intros i d Hd. unfold deltas in Hd.
  apply lookup_insert_Some in Hd as [[_ <-]|[_ Hd]]; [lia|].
  apply lookup_singleton_Some in Hd as [_ <-]. lia.
Qed.

Lemma unknown_999 : ~ Simulator.known population "node-999".
Proof.
  unfold Simulator.known. intros Hin. apply list_elem_of_In in Hin.
  simpl in Hin. intuition discriminate.
Qed.

Lemma struck_reachable : Store.reachable sqrtApprox Store.admissible struck.
Proof.
  exact (Store.reachable_step sqrtApprox Store.admissible mounted
           (Store.AApplyEarthquakeDamage deltas)
           (Store.reachable_step sqrtApprox Store.admissible Store.initialState
              (Store.ASetNodes (map Simulator.toNode population) zero 0)
              (Store.reachable_init sqrtApprox Store.admissible)
              zero_random_ok)
           deltas_deltaMap).
Qed.

Lemma struck_reachable_any : Store.reachable sqrtApprox (fun _ => True) struck.
Proof.
  exact (Store.reachable_step sqrtApprox _ mounted
           (Store.AApplyEarthquakeDamage deltas)
           (Store.reachable_step sqrtApprox _ Store.initialState
              (Store.ASetNodes (map Simulator.toNode population) zero 0)
              (Store.reachable_init sqrtApprox _) I)
           I).
Qed.


(** The spec's tracker scenarios: a steadily falling frequency warns
    with full confidence, samples that only jitter do not. *)
Example falling_samples_warn :
  (fun ind => (BaselineTracker.hasWarning ind,
               Qred (BaselineTracker.trendSlope ind),
               Qred (BaselineTracker.trendConfidence ind)))
    <$> snd (feed falling) = Some (true, (-1)%Q, 1%Q).
Proof. vm_compute. reflexivity. Qed.

Example jitter_samples_do_not_warn :
  BaselineTracker.hasWarning <$> snd (feed jitter) = Some false.
Proof. vm_compute. reflexivity. Qed.

(** The evidence recorded for the silent [node-1]. *)
Example inferred_evidence :
  Store.status <$> Store.nodes inferred !! "node-1" = Some Store.collapse_inferred /\
  Store.consensusEvidence inferred !! "node-1" = Some ["node-3"; "node-2"; "node-4"].
Proof. split; vm_compute; reflexivity. Qed.

(** The deltas of the demo event. *)
Example demo_damage_results :
  map_to_list (Simulator.computeDamageResults sqrtApprox population config half 0)
  = [("node-3", 36); ("node-1", 38); ("node-2", 78); ("node-4", 90)].
Proof. vm_compute. reflexivity. Qed.

(** *** Instances of the theorems *)

Lemma C1_witness :
  Store.reachable sqrtApprox Store.admissible struck /\
  Store.buildingDamages struck !! "node-1" = Some (Store.mkDamage 30 80 100) /\
  (0 <= 100 <= 100 /\ 100 = Z.min 100 (30 + 80)).
Proof.
  split; [exact struck_reachable|].
  split; [vm_compute; reflexivity|].
  apply (C1_total_score_invariant sqrtApprox struck "node-1"
           (Store.mkDamage 30 80 100)).
  - exact struck_reachable.
  - vm_compute; reflexivity.
Defined.

Lemma C2_witness :
  Store.nodes struck !! "node-1" =
    Some (Store.mkNode "node-1" "Bina 1" Store.collapse 41.0290 28.9450 false) /\
  exists d,
    Store.buildingDamages struck !! "node-1" = Some d /\
    Store.collapse = Store.getStatusFromScore (Store.totalScore d).
Proof.
  split; [vm_compute; reflexivity|].
  destruct (C2_status_derived_from_score sqrtApprox struck "node-1"
              (Store.mkNode "node-1" "Bina 1" Store.collapse 41.0290 28.9450 false))
    as (d & Hd & Hst).
  - exact struck_reachable_any.
  - vm_compute; reflexivity.
  - exists d. split; [exact Hd|]. apply Hst. discriminate.
Defined.

Lemma C3_witness :
  exists n ws,
    Store.nodes shaking !! "node-1" = Some n /\
    Store.isEarthquakeActive shaking = true /\
    Store.isSilent 2500 shaking "node-1" = true /\
    Store.consensusEvidence inferred !! "node-1" = Some ws /\
    NoDup ws /\
    (3 <= length ws)%nat /\
    forall w, w ∈ ws -> StoreAt.isWitness sqrtApprox 2500 shaking "node-1" n w.
Proof.
  apply (C3_inferred_collapse_needs_quake_and_witnesses sqrtApprox 2500 shaking
           "node-1"
           (Store.mkNode "node-1" "Bina 1" Store.collapse_inferred
              41.0290 28.9450 false)).
  - vm_compute; reflexivity.
  - reflexivity.
  - intros n Hn. vm_compute in Hn. injection Hn as <-. discriminate.
Defined.

Lemma C4_witness :
  Store.deltaMap deltas /\
  Store.buildingDamages mounted !! "node-1" = Some (Store.mkDamage 30 0 30) /\
  exists d',
    Store.buildingDamages struck !! "node-1" = Some d' /\
    Store.earthquakeDamage d' = 0 + default 0 (deltas !! "node-1") /\
    0 <= Store.earthquakeDamage d'.
Proof.
  split; [exact deltas_deltaMap|].
  split; [vm_compute; reflexivity|].
  apply (C4_earthquake_damage_never_decreases sqrtApprox deltas mounted "node-1"
           (Store.mkDamage 30 0 30)).
  - exact deltas_deltaMap.
  - vm_compute; reflexivity.
Defined.




Lemma quakingPanelWorld_running :
  Dashboard.running sqrtApprox expApprox sinApprox piApprox population
    quakingPanelWorld.
Proof.
  apply (Dashboard.running_step sqrtApprox expApprox sinApprox piApprox population
           panelWorld (Dashboard.EHandleTriggerEarthquake half)).
  - apply Dashboard.running_mount; [exact zero_random_ok|exact half_random_ok].
  - exact half_random_ok.
Qed.

Lemma quakingPanelWorld_inProgress : Simulator.eventInProgress quakingPanelWorld.
Proof.
  destruct (handleTriggerEarthquake_starts sqrtApprox population half
              panelWorld node3) as (w' & Hw' & _ & _ & Hev).
  - vm_compute; reflexivity.
  - vm_compute; reflexivity.
  - unfold quakingPanelWorld. cbn [Dashboard.step]. rewrite Hw'. exact Hev.
Qed.

Lemma C9_witness :
  Simulator.eventInProgress quakingPanelWorld /\
  Dashboard.handleTriggerEarthquake sqrtApprox population half quakingPanelWorld
  = Some quakingPanelWorld.
Proof.
  split; [exact quakingPanelWorld_inProgress|].
  apply (C9_trigger_command_is_noop_during_event sqrtApprox expApprox sinApprox
           piApprox population half quakingPanelWorld).
  - exact quakingPanelWorld_running.
  - exact quakingPanelWorld_inProgress.
Defined.

Lemma C10_witness :
  Simulator.getReading sqrtApprox expApprox (Simulator.sim quakeWorld)
    "node-999" half 1000 =
    Some (Simulator.generateIdleReading sqrtApprox expApprox
            (Simulator.sim quakeWorld) "node-999" half 0 1000) /\
  BaselineTracker.getBaseline "node-999" ∅ = 5.0%Q.
Proof.
  apply (C10_unknown_id_gets_defaults sqrtApprox expApprox sinApprox piApprox
           population quakeWorld "node-999" half 1000 ∅).
  - apply (Simulator.reachableWorld_step sqrtApprox expApprox sinApprox piApprox
             population idleWorld
             (Simulator.CTriggerEarthquake config ∅ (fun _ u => u) (fun _ u => u)
                half 0)).
    apply Simulator.reachableWorld_init.
  - exact unknown_999.
  - apply lookup_empty.
Defined.

(** *** Where the code departs from the specification *)

(** C9, as stated for the engine, fails: with an event in progress a
    second call of [triggerEarthquake] registers a second interval and
    replaces the stored handle. *)
Lemma C9_engine_trigger_is_not_a_noop :
  Simulator.eventInProgress quakeWorld /\
  let again :=
    Simulator.triggerEarthquake sqrtApprox population config ∅
      (fun _ u => u) (fun _ u => u) half 0 quakeWorld in
  again <> quakeWorld /\
  Simulator.earthquakeInterval (Simulator.sim quakeWorld) = Some 1%nat /\
  Simulator.earthquakeInterval (Simulator.sim again) = Some 2%nat /\
  size (Simulator.timers again) = 2%nat.
Proof.
  split.
  - destruct (triggerEarthquake_unguarded sqrtApprox population config ∅
                (fun _ (u : unit) => u) (fun _ (u : unit) => u) half 0 idleWorld)
      as (_ & Hev & _).
    exact Hev.
  - cbv zeta. split; [|split; [|split]].
    + apply (triggerEarthquake_unguarded sqrtApprox population config ∅
               (fun _ (u : unit) => u) (fun _ (u : unit) => u) half 0 quakeWorld).
    + reflexivity.
    + reflexivity.
    + vm_compute. reflexivity.
Qed.

(** C10, as stated, fails: for an id outside the population
    [getReading] answers with an idle reading, not with "absent", and
    [getBaseline] answers with 5.0 Hz. *)
Lemma C10_unknown_id_is_not_absent :
  ~ Simulator.known population "node-999" /\
  Simulator.getReading sqrtApprox expApprox (Simulator.sim idleWorld)
    "node-999" half 1000 <> None /\
  Simulator.signalType
    <$> Simulator.getReading sqrtApprox expApprox (Simulator.sim idleWorld)
          "node-999" half 1000 = Some Simulator.idle /\
  BaselineTracker.getBaseline "node-999" ∅ = 5.0%Q.
Proof.
  split; [exact unknown_999|]. split; [discriminate|].
  split; reflexivity.
Qed.

(** *** Instances of the further properties *)

Import Scenes.

Lemma population_ids_NoDup : NoDup (map Store.id (map Simulator.toNode population)).
Proof. apply (bool_decide_unpack _). vm_compute. exact I. Qed.

Lemma inferred_reachable : Store.reachable sqrtApprox (fun _ => True) inferred.
Proof.
  pose (ok := fun _ : Store.Action => True).
  pose proof (Store.reachable_init sqrtApprox ok) as H0.
  pose proof (Store.reachable_step sqrtApprox ok _
                (Store.ASetNodes (map Simulator.toNode population) zero 0) H0 I)
    as H1.
  pose proof (Store.reachable_step sqrtApprox ok _
                (Store.ASetEarthquakeActive true) H1 I) as H2.
  pose proof (Store.reachable_step sqrtApprox ok _
                (Store.AUpdateHeartbeat ["node-2"; "node-3"; "node-4"] 2000) H2 I)
    as H3.
  exact (Store.reachable_step sqrtApprox ok _ (Store.ACheckConsensus 2500) H3 I).
Qed.

Lemma panelWorld_running :
  Dashboard.running sqrtApprox expApprox sinApprox piApprox population panelWorld.
Proof.
  apply Dashboard.running_mount; [exact zero_random_ok|exact half_random_ok].
Qed.

Lemma X1_witness :
  Store.buildingDamages mounted !! "node-1" = Some (Store.mkDamage 30 0 30) /\
  Store.nodes mounted !! "node-1" =
    Some (Store.mkNode "node-1" "Bina 1" Store.warning 41.0290 28.9450 false) /\
  Store.lastHeartbeat mounted !! "node-1" = Some 0.
Proof.
  destruct (X1_setNodes_initial_ledger (map Simulator.toNode population) zero 0
              Store.initialState 0 (Simulator.toNode node1))
    as (Hd & Hn & Hhb & _).
  - exact population_ids_NoDup.
  - exact zero_random_ok.
  - reflexivity.
  - split; [exact Hd|]. split; [exact Hn|exact Hhb].
Defined.

Lemma X2_witness :
  StoreInv.counted (Store.buildingSummary struck) = size (Store.nodes struck).
Proof.
  apply (X2_summary_counts_every_building sqrtApprox struck).
  exact struck_reachable_any.
Defined.

Lemma X3_witness :
  is_Some (Store.nodes struck !! "node-1") <->
  is_Some (Store.buildingDamages struck !! "node-1").
Proof.
  apply (X3_nodes_and_records_share_their_ids sqrtApprox struck "node-1").
  exact struck_reachable_any.
Defined.

Lemma X4_witness :
  StoreInv.keeps_buildings mounted
    (StoreInv.dispatchAll sqrtApprox
       [Store.AApplyEarthquakeDamage deltas; Store.ACheckConsensus 2500;
        Store.AResetToSafe zero 0]
       mounted).
Proof.
  apply (X4_buildings_are_kept sqrtApprox).
  repeat constructor.
Defined.

Lemma X5_witness :
  Store.nodes struck !! "node-1" =
    Some (Store.mkNode "node-1" "Bina 1" Store.collapse 41.0290 28.9450 false) /\
  Store.nodes
    (StoreInv.dispatchAll sqrtApprox
       [Store.AApplyEarthquakeDamage deltas; Store.ACheckConsensus 5000;
        Store.AUpdateBuildingSummary]
       struck) !! "node-1" =
    Some (Store.mkNode "node-1" "Bina 1" Store.collapse 41.0290 28.9450 false).
Proof.
  split; [vm_compute; reflexivity|].
  apply (X5_collapse_is_final sqrtApprox).
  - exact struck_reachable.
  - repeat constructor. exact deltas_deltaMap.
  - vm_compute; reflexivity.
  - reflexivity.
Defined.

Lemma X6_witness :
  exists ws,
    Store.consensusEvidence inferred !! "node-1" = Some ws /\
    (3 <= length ws)%nat /\ NoDup ws /\
    forall w, w ∈ ws -> w <> "node-1" /\ is_Some (Store.nodes inferred !! w).
Proof.
  apply (X6_inferred_collapse_has_evidence sqrtApprox inferred "node-1"
           (Store.mkNode "node-1" "Bina 1" Store.collapse_inferred
              41.0290 28.9450 false)).
  - exact inferred_reachable.
  - vm_compute; reflexivity.
  - reflexivity.
Defined.

Lemma X7_witness :
  Store.lastHeartbeat (Store.resetToSafe zero 7 struck) !! "node-1" = Some 7 /\
  Store.consensusEvidence (Store.resetToSafe zero 7 struck) = ∅.
Proof.
  destruct (X7_resetToSafe_starts_afresh zero 7 struck "node-1"
              (Store.mkNode "node-1" "Bina 1" Store.collapse 41.0290 28.9450 false))
    as (_ & Hhb & _ & _ & Hev).
  - exact zero_random_ok.
  - vm_compute; reflexivity.
  - split; [exact Hhb|exact Hev].
Defined.

Lemma X10_witness :
  Store.buildingDamages
    (Store.applyEarthquakeDamage deltas (Store.applyEarthquakeDamage deltas mounted))
    !! "node-1" = Some (Store.mkDamage 30 160 100).
Proof.
  destruct (X10_damage_accumulates_over_events deltas deltas {[ "node-1" := 160 ]}
              mounted "node-1" (Store.mkDamage 30 0 30) 80 80) as [Htwice _].
  - vm_compute; reflexivity.
  - reflexivity.
  - reflexivity.
  - reflexivity.
  - exact Htwice.
Defined.


Lemma X13_witness :
  exists q d k,
    Simulator.timers peakWorld !! 1%nat = Some (Simulator.QuakeTimer q) /\
    Simulator.q_results q !! "node-4" = Some d /\
    (85 <= SimulatorInv.projectedTotal (Simulator.q_scores q) "node-4" d)%Q /\
    (zero k < 0.4)%Q.
Proof.
  apply (X13_sensor_is_lost_only_on_projected_collapse sqrtApprox expApprox
           sinApprox piApprox population 1 zero 0 peakWorld "node-4").
  - apply (bool_decide_unpack _). vm_compute. exact I.
  - apply not_elem_of_empty.
Defined.

Lemma X14_witness :
  Simulator.getReading sqrtApprox expApprox
    (Simulator.sim
       (SimulatorInv.runAll sqrtApprox expApprox sinApprox piApprox population
          [Simulator.CStartIdleSimulation half 0;
           Simulator.CTriggerTruckNoise "node-1" (fun u => u);
           Simulator.CUpdateDamages ∅]
          deadWorld))
    "node-1" half 0 = None.
Proof.
  refine (proj2 (proj1 (X14_only_reset_revives_a_sensor sqrtApprox expApprox
                          sinApprox piApprox population
                          [Simulator.CStartIdleSimulation half 0;
                           Simulator.CTriggerTruckNoise "node-1" (fun u => u);
                           Simulator.CUpdateDamages ∅]
                          deadWorld "node-1" half 0 half 0 _ _))).
  - repeat constructor.
  - apply (bool_decide_unpack _). vm_compute. exact I.
Defined.


Lemma X17_witness :
  Simulator.idleTick sqrtApprox expApprox population half 0
    (SimulatorInv.runAll sqrtApprox expApprox sinApprox piApprox population
       [Simulator.CFire 1 half 0; Simulator.CStartIdleSimulation half 0]
       quakeWorld) =
  SimulatorInv.runAll sqrtApprox expApprox sinApprox piApprox population
    [Simulator.CFire 1 half 0; Simulator.CStartIdleSimulation half 0]
    quakeWorld.
Proof.
  refine (proj1 (proj2 (X17_idle_tick_is_skipped_until_stop sqrtApprox expApprox
                          sinApprox piApprox population
                          [Simulator.CFire 1 half 0;
                           Simulator.CStartIdleSimulation half 0]
                          quakeWorld half 0 _ _))).
  - by eexists.
  - repeat constructor.
Defined.

Lemma X18_witness :
  Simulator.timers idlingWorld !! 1%nat = Some Simulator.IdleTimer <->
  Simulator.idleInterval (Simulator.sim idlingWorld) = Some 1%nat.
Proof.
  apply (X18_at_most_one_idle_loop sqrtApprox expApprox sinApprox piApprox
           population idlingWorld 1).
  apply Simulator.reachableWorld_step, Simulator.reachableWorld_init.
Defined.

Lemma X20_witness :
  Simulator.computeDamageResults sqrtApprox population config half 0 !! "node-3"
    = Some 36 /\
  4 <= 36 <= 100.
Proof.
  split; [vm_compute; reflexivity|].
  apply (X20_every_building_is_damaged_by_an_event sqrtApprox population config
           half 0 "node-3" 36).
  - discriminate.
  - exact half_random_ok.
  - vm_compute; reflexivity.
Defined.



Lemma X25_witness :
  (31 <= BaselineTracker.getBaseline "node-1" (TrackerRuns.feedAll "node-1" falling ∅))%Q /\
  (BaselineTracker.getBaseline "node-1" (TrackerRuns.feedAll "node-1" falling ∅) <= 50)%Q.
Proof.
  apply (X25_baseline_within_the_first_samples "node-1" falling ∅ 31 50).
  - apply lookup_empty.
  - cbn. lia.
  - repeat (constructor; [split; discriminate|]). constructor.
Defined.

Lemma X26_witness :
  Simulator.deadNodes
    (Simulator.sim
       (Dashboard.deliver sqrtApprox expApprox population half 0
          (Dashboard.handleReset zero 0 panelWorld))) = ∅.
Proof.
  apply (X26_simulator_table_follows_the_ledger sqrtApprox expApprox sinApprox
           piApprox population panelWorld ∅ zero half 0 0 "node-1").
  - exact panelWorld_running.
  - vm_compute; reflexivity.
Defined.

Lemma X27_witness :
  exists h q,
    Simulator.timers quakingPanelWorld !! h = Some (Simulator.QuakeTimer q) /\
    (SimulatorInv.lastTick q = false ->
     Store.buildingDamages
       (Dashboard.store
          (Simulator.host
             (Dashboard.step sqrtApprox expApprox sinApprox piApprox population
                (Dashboard.EFire h half 0) quakingPanelWorld))) =
     Store.buildingDamages (Dashboard.store (Simulator.host quakingPanelWorld))).
Proof.
  destruct quakingPanelWorld_inProgress as (h & q & Hq).
  exists h, q. split; [exact Hq|]. intros Hlast.
  destruct (X27_damage_is_applied_on_the_last_tick sqrtApprox expApprox sinApprox
              piApprox population quakingPanelWorld h q half 0
              quakingPanelWorld_running Hq) as [Hearly _].
  apply (Hearly Hlast).
Defined.


Lemma X29_witness :
  length (Views.getFilteredBuildings (Some Dashboard.FDamaged)
            (Dashboard.store (Simulator.host panelWorld))) =
  Views.counterOf Dashboard.FDamaged
    (Store.buildingSummary (Dashboard.store (Simulator.host panelWorld))).
Proof.
  exact (proj1 (X29_category_list_matches_its_counter sqrtApprox expApprox
                  sinApprox piApprox population panelWorld Dashboard.FDamaged
                  panelWorld_running)).
Defined.

